(** * MyYearWithGit (python-cli): history extraction and yearly aggregation

    A shallow embedding of [git_parser.py], [main.analyze_repos],
    [statistics.py] and [scanner.filter_repos_by_keyword].

    Conventions of the embedding.
    - A Python [str] is the list of its code points ([pystr]); literals of the
      source are written [u "..."], the UTF-8 reading of the literal.
    - A Python [int] is a [Z].
    - A [dict] is an association list in insertion order ([odict]): the code
      relies on that order in [max(d.items(), ...)] and in
      [Counter.most_common].
    - A [set] is a duplicate-free list ([pyset]); only membership, emptiness
      and [len] are observed, and [sorted] where the source sorts it.
    - What the interpreter's library supplies and the repository does not
      (the Unicode tables behind [str.lower] and the regex class [\w],
      [datetime.fromisoformat], [int], [pathlib]'s suffix) is a field of the
      class [PyLib]; the output of the [git] subprocess is the function
      [run_git_command]; the reading of the clock is the argument [today].
    - [datetime] values are the aware ones the extractor builds from git's
      [%aI] field, with four-digit years; the calendar arithmetic is the
      proleptic Gregorian one of Python's [datetime] module.

    Where the source would raise.  The functions below are total.  Python
    raises in three places that no history of git reaches, and the
    functions return a value there: [strptime] on the rendering of a year
    below 1000 ([calculate_streak]), [date - timedelta] below [date.min]
    (the walk back from today, were every day since 0001-01-01 active), and
    the conversion to [float] of a line total from 2^1024 on (the last rule
    of [calculate_achievements]). *)

From Stdlib Require Import String Ascii.
From Stdlib Require Import ZArith NArith List Bool Lia Sorted Permutation.
From Stdlib Require Import Floats.SpecFloat.
Import ListNotations.
Open Scope Z_scope.

(* ------------------------------------------------------------------ *)
(** ** Decidable equality of keys *)

Class Eqb (A : Type) := { keq : A -> A -> bool }.

Arguments keq : simpl never.

(** [keq] decides equality. *)
Class EqbLaws (A : Type) `{Eqb A} := {
  keq_spec : forall x y : A, keq x y = true <-> x = y
}.

#[export] Instance Eqb_N : Eqb N := {| keq := N.eqb |}.
#[export] Instance Eqb_Z : Eqb Z := {| keq := Z.eqb |}.

Fixpoint list_eqb {A} `{Eqb A} (l1 l2 : list A) : bool :=
  match l1, l2 with
  | [], [] => true
  | a :: r1, b :: r2 => keq a b && list_eqb r1 r2
  | _, _ => false
  end.

#[export] Instance Eqb_list {A} `{Eqb A} : Eqb (list A) :=
  {| keq := list_eqb |}.

(* ------------------------------------------------------------------ *)
(** ** Python strings *)

Definition pystr := list N.

Fixpoint bytes_of (s : string) : list N :=
  match s with
  | EmptyString => []
  | String a r => N_of_ascii a :: bytes_of r
  end.

(** UTF-8 decoding of a source literal; [pending] continuation bytes are
    still owed to the code point accumulated in [acc]. *)
Fixpoint utf8_go (bs : list N) (pending : nat) (acc : N) : pystr :=
  match bs with
  | [] => []
  | b :: r =>
    match pending with
    | S k =>
      let acc' := (acc * 64 + b mod 64)%N in
      match k with
      | O => acc' :: utf8_go r 0 0%N
      | _ => utf8_go r k acc'
      end
    | O =>
      if (b <? 128)%N then b :: utf8_go r 0 0%N
      else if (b <? 224)%N then utf8_go r 1 (b mod 32)%N
      else if (b <? 240)%N then utf8_go r 2 (b mod 16)%N
      else utf8_go r 3 (b mod 8)%N
    end
  end.

Definition u (s : string) : pystr := utf8_go (bytes_of s) 0 0%N.

Definition NUL : N := 0%N.
Definition TAB : N := 9%N.
Definition LF : N := 10%N.
Definition SPACE : N := 32%N.

Definition nonempty {A} (l : list A) : bool :=
  match l with [] => false | _ => true end.

(** [str.isspace] of one character, which is also the regex class [\s] and
    what [str.strip()] and [str.split()] (no argument) remove. *)
Definition is_space (c : N) : bool :=
  ((9 <=? c) && (c <=? 13) || (28 <=? c) && (c <=? 32)
   || (c =? 133) || (c =? 160) || (c =? 5760)
   || (8192 <=? c) && (c <=? 8202)
   || (c =? 8232) || (c =? 8233) || (c =? 8239) || (c =? 8287)
   || (c =? 12288))%N.

Definition is_ascii (c : N) : bool := (c <? 128)%N.

Definition ascii_isalnum (c : N) : bool :=
  ((48 <=? c) && (c <=? 57) || (65 <=? c) && (c <=? 90)
   || (97 <=? c) && (c <=? 122))%N.

Definition ascii_lower (c : N) : N :=
  if ((65 <=? c) && (c <=? 90))%N then (c + 32)%N else c.

Fixpoint lstrip (s : pystr) : pystr :=
  match s with
  | c :: r => if is_space c then lstrip r else s
  | [] => []
  end.

Definition rstrip (s : pystr) : pystr := rev (lstrip (rev s)).

(** [s.strip()] *)
Definition strip (s : pystr) : pystr := rstrip (lstrip s).

Fixpoint starts_with (p s : pystr) : bool :=
  match p, s with
  | [], _ => true
  | a :: p', b :: s' => (a =? b)%N && starts_with p' s'
  | _ :: _, [] => false
  end.

(** [pattern in s] for strings. *)
Fixpoint contains (p s : pystr) : bool :=
  starts_with p s
  || match s with
     | [] => false
     | _ :: r => contains p r
     end.

Definition may_split (budget : option nat) : bool :=
  match budget with Some O => false | _ => true end.

Definition spend (budget : option nat) : option nat :=
  match budget with Some (S k) => Some k | b => b end.

(** The scan of [s.split(sep[, maxsplit])] for a non-empty [sep]: [skip]
    characters of a separator just matched are still to be passed over,
    [cur] is the piece being read (reversed). *)
Fixpoint split_go (sep s : pystr) (skip : nat) (budget : option nat)
    (cur : pystr) : list pystr :=
  match s with
  | [] => [rev cur]
  | c :: r =>
    match skip with
    | S k => split_go sep r k budget cur
    | O =>
      if may_split budget && starts_with sep s
      then rev cur :: split_go sep r (length sep - 1) (spend budget) []
      else split_go sep r 0 budget (c :: cur)
    end
  end.

(** [s.split(sep)] *)
Definition str_split (sep s : pystr) : list pystr := split_go sep s 0 None [].

(** [s.split(sep, maxsplit)] *)
Definition splitn (sep : pystr) (maxsplit : nat) (s : pystr) : list pystr :=
  split_go sep s 0 (Some maxsplit) [].

Fixpoint split_ws_go (s cur : pystr) : list pystr :=
  match s with
  | [] => if nonempty cur then [rev cur] else []
  | c :: r =>
    if is_space c
    then (if nonempty cur then rev cur :: split_ws_go r [] else split_ws_go r [])
    else split_ws_go r (c :: cur)
  end.

(** [s.split()] *)
Definition split_ws (s : pystr) : list pystr := split_ws_go s [].

(** [s.replace(old, new)] for a one-character [old]. *)
Definition replace_char (old : N) (new s : pystr) : pystr :=
  flat_map (fun c => if (c =? old)%N then new else [c]) s.

Fixpoint pystr_ltb (a b : pystr) : bool :=
  match a, b with
  | [], [] => false
  | [], _ :: _ => true
  | _ :: _, [] => false
  | x :: a', y :: b' =>
    if (x <? y)%N then true else if (y <? x)%N then false else pystr_ltb a' b'
  end.

(** [a <= b] on strings: lexicographic on code points. *)
Definition pystr_leb (a b : pystr) : bool := negb (pystr_ltb b a).

Definition digit_char (d : N) : N := (48 + d)%N.

Fixpoint uint_chars (d : Decimal.uint) : pystr :=
  match d with
  | Decimal.Nil => []
  | Decimal.D0 r => digit_char 0 :: uint_chars r
  | Decimal.D1 r => digit_char 1 :: uint_chars r
  | Decimal.D2 r => digit_char 2 :: uint_chars r
  | Decimal.D3 r => digit_char 3 :: uint_chars r
  | Decimal.D4 r => digit_char 4 :: uint_chars r
  | Decimal.D5 r => digit_char 5 :: uint_chars r
  | Decimal.D6 r => digit_char 6 :: uint_chars r
  | Decimal.D7 r => digit_char 7 :: uint_chars r
  | Decimal.D8 r => digit_char 8 :: uint_chars r
  | Decimal.D9 r => digit_char 9 :: uint_chars r
  end.

Definition digits_of (n : N) : pystr := uint_chars (N.to_uint n).

(** [str(z)], which is also [f"{z}"]. *)
Definition str_of_Z (z : Z) : pystr :=
  if z <? 0 then 45%N :: digits_of (Z.to_N (- z)) else digits_of (Z.to_N z).

(** Digits in groups of three from the right, joined by commas; [k] digits
    of the current group are already out. *)
Fixpoint group3 (rev_digits : pystr) (k : nat) : pystr :=
  match rev_digits with
  | [] => []
  | d :: r =>
    if Nat.eqb k 2
    then d :: (if nonempty r then 44%N :: group3 r 0 else [])
    else d :: group3 r (S k)
  end.

(** [f"{z:,}"] *)
Definition fmt_comma (z : Z) : pystr :=
  let body n := rev (group3 (rev (digits_of n)) 0) in
  if z <? 0 then 45%N :: body (Z.to_N (- z)) else body (Z.to_N z).

(* ------------------------------------------------------------------ *)
(** ** Python containers *)

(** A [dict]: keys in insertion order, each once. *)
Definition odict (K V : Type) := list (K * V).

(** A [set]. *)
Definition pyset (A : Type) := list A.

Section Containers.
Context {K V : Type} `{Eqb K}.

Fixpoint od_find (k : K) (d : odict K V) : option V :=
  match d with
  | [] => None
  | (k', v) :: r => if keq k k' then Some v else od_find k r
  end.

(** [d.get(k, default)] *)
Definition od_get (k : K) (d : odict K V) (default : V) : V :=
  match od_find k d with Some v => v | None => default end.

(** [d[k] = v]: an existing key keeps its place, a new one goes last. *)
Fixpoint od_set (k : K) (v : V) (d : odict K V) : odict K V :=
  match d with
  | [] => [(k, v)]
  | (k', v') :: r => if keq k k' then (k', v) :: r else (k', v') :: od_set k v r
  end.

(** [x in s] *)
Definition set_in (x : K) (s : pyset K) : bool := existsb (keq x) s.

(** [s.add(x)] *)
Definition set_add (x : K) (s : pyset K) : pyset K :=
  if set_in x s then s else s ++ [x].

End Containers.

(** [c[k] += n] on a [Counter] (a missing key counts 0). *)
Definition counter_add {K} `{Eqb K} (k : K) (n : Z) (c : odict K Z) : odict K Z :=
  od_set k (od_get k c 0 + n) c.

(** [c.update(words)] on a [Counter]. *)
Definition counter_update {K} `{Eqb K} (c : odict K Z) (words : list K) : odict K Z :=
  fold_left (fun c w => counter_add w 1 c) words c.

Fixpoint insert_by {A} (le : A -> A -> bool) (x : A) (l : list A) : list A :=
  match l with
  | [] => [x]
  | y :: r => if le x y then x :: l else y :: insert_by le x r
  end.

(** A stable sort, as [sorted] and [list.sort] are: [le a b] says that [a]
    may stand before [b]; elements that compare equal keep their order. *)
Definition sorted_by {A} (le : A -> A -> bool) (l : list A) : list A :=
  fold_right (insert_by le) [] l.

(** [n] as a sort key, ascending, and descending for [reverse=True]. *)
Definition asc {A} (key : A -> Z) (a b : A) : bool := key a <=? key b.
Definition desc {A} (key : A -> Z) (a b : A) : bool := key b <=? key a.

Fixpoint max_from {A} (key : A -> Z) (best : A) (l : list A) : A :=
  match l with
  | [] => best
  | x :: r => if key best <? key x then max_from key x r else max_from key best r
  end.

(** [max(l, key=key)]: the first of the maximal elements. *)
Definition py_max {A} (key : A -> Z) (l : list A) : option A :=
  match l with
  | [] => None
  | x :: r => Some (max_from key x r)
  end.

(** [Counter.most_common(n)], that is
    [heapq.nlargest(n, c.items(), key=itemgetter(1))], which the library
    documents as [sorted(c.items(), key=..., reverse=True)[:n]]. *)
Definition most_common {K} (n : nat) (c : odict K Z) : odict K Z :=
  firstn n (sorted_by (desc snd) c).

Definition len {A} (l : list A) : Z := Z.of_nat (List.length l).

(* ------------------------------------------------------------------ *)
(** ** Calendar ([datetime.date], [datetime.datetime]) *)

Module Date.
Record t := mk { year : Z; month : Z; day : Z }.
End Date.

Module DateTime.
(** An aware [datetime]; [utcoffset] is in microseconds east of UTC. *)
Record t := mk {
  year : Z; month : Z; day : Z;
  hour : Z; minute : Z; second : Z; microsecond : Z;
  utcoffset : Z
}.
End DateTime.

Definition date_eqb (a b : Date.t) : bool :=
  (Date.year a =? Date.year b) && (Date.month a =? Date.month b)
  && (Date.day a =? Date.day b).

#[export] Instance Eqb_date : Eqb Date.t := {| keq := date_eqb |}.

Definition is_leap (year : Z) : bool :=
  (year mod 4 =? 0) && (negb (year mod 100 =? 0) || (year mod 400 =? 0)).

Definition days_before_year (year : Z) : Z :=
  let y := year - 1 in y * 365 + y / 4 - y / 100 + y / 400.

Definition DAYS_IN_MONTH : list Z :=
  [-1; 31; 28; 31; 30; 31; 30; 31; 31; 30; 31; 30; 31].

Definition DAYS_BEFORE_MONTH : list Z :=
  [-1; 0; 31; 59; 90; 120; 151; 181; 212; 243; 273; 304; 334].

Definition table (l : list Z) (i : Z) : Z := nth (Z.to_nat i) l 0.

Definition days_in_month (year month : Z) : Z :=
  if (month =? 2) && is_leap year then 29 else table DAYS_IN_MONTH month.

Definition days_before_month (year month : Z) : Z :=
  table DAYS_BEFORE_MONTH month
  + (if (2 <? month) && is_leap year then 1 else 0).

Definition ymd2ord (year month day : Z) : Z :=
  days_before_year year + days_before_month year month + day.

(** [d.toordinal()] *)
Definition toordinal (d : Date.t) : Z :=
  ymd2ord (Date.year d) (Date.month d) (Date.day d).

(** [date.fromordinal(n)] *)
Definition fromordinal (n : Z) : Date.t :=
  let n := n - 1 in
  let n400 := n / 146097 in
  let n := n mod 146097 in
  let year := n400 * 400 + 1 in
  let n100 := n / 36524 in
  let n := n mod 36524 in
  let n4 := n / 1461 in
  let n := n mod 1461 in
  let n1 := n / 365 in
  let n := n mod 365 in
  let year := year + n100 * 100 + n4 * 4 + n1 in
  if (n1 =? 4) || (n100 =? 4) then Date.mk (year - 1) 12 31
  else
    let leapyear := (n1 =? 3) && (negb (n4 =? 24) || (n100 =? 3)) in
    let month := Z.shiftr (n + 50) 5 in
    let preceding :=
      table DAYS_BEFORE_MONTH month
      + (if (2 <? month) && leapyear then 1 else 0) in
    if n <? preceding
    then
      let month := month - 1 in
      let preceding :=
        preceding
        - (table DAYS_IN_MONTH month
           + (if (month =? 2) && leapyear then 1 else 0)) in
      Date.mk year month (n - preceding + 1)
    else Date.mk year month (n - preceding + 1).

(** [d - timedelta(days=1)] *)
Definition date_pred (d : Date.t) : Date.t := fromordinal (toordinal d - 1).

(** [dt.date()], the calendar date in the commit's own zone; the source
    takes it through [strftime("%Y-%m-%d")]. *)
Definition date_of (dt : DateTime.t) : Date.t :=
  Date.mk (DateTime.year dt) (DateTime.month dt) (DateTime.day dt).

(** [d.weekday()]: 0 is Monday. *)
Definition weekday (d : Date.t) : Z := (toordinal d + 6) mod 7.

(** [dt.timetuple().tm_yday] *)
Definition tm_yday (d : Date.t) : Z :=
  days_before_month (Date.year d) (Date.month d) + Date.day d.

(** Date order: by (year, month, day). *)
Definition date_leb (a b : Date.t) : bool :=
  if Date.year a <? Date.year b then true
  else if Date.year b <? Date.year a then false
  else if Date.month a <? Date.month b then true
  else if Date.month b <? Date.month a then false
  else Date.day a <=? Date.day b.

(** The instant of an aware [datetime], in microseconds on the UTC line:
    aware datetimes compare by it. *)
Definition utc_micros (dt : DateTime.t) : Z :=
  ((toordinal (date_of dt) * 86400
    + DateTime.hour dt * 3600 + DateTime.minute dt * 60 + DateTime.second dt)
   * 1000000 + DateTime.microsecond dt)
  - DateTime.utcoffset dt.

Fixpoint zero_pad (width : nat) (digits : pystr) : pystr :=
  match width with
  | O => digits
  | S w => if Nat.ltb (List.length digits) width
           then digit_char 0 :: zero_pad w digits
           else digits
  end.

Definition pad (width : nat) (z : Z) : pystr :=
  zero_pad width (str_of_Z z).

(** [strftime("%Y-%m-%d")] *)
Definition strftime_ymd (d : Date.t) : pystr :=
  pad 4 (Date.year d) ++ u "-" ++ pad 2 (Date.month d) ++ u "-"
  ++ pad 2 (Date.day d).

(** [strftime("%Y-%m-%d %H:%M")] *)
Definition strftime_ymd_hm (dt : DateTime.t) : pystr :=
  strftime_ymd (date_of dt) ++ u " " ++ pad 2 (DateTime.hour dt) ++ u ":"
  ++ pad 2 (DateTime.minute dt).

(* ------------------------------------------------------------------ *)
(** ** git_parser.py: the records *)

Module FileDiff.
Record t := mk {
  filename : pystr;
  language : option pystr;
  added_lines : Z;
  deleted_lines : Z;
  empty_lines_added : Z
}.
End FileDiff.

Module CommitInfo.
Record t := mk {
  hash : pystr;
  email : pystr;
  date : DateTime.t;
  message : pystr;
  repo_name : pystr;
  files : list FileDiff.t
}.
End CommitInfo.

Module Path.
(** A [pathlib.Path] with the [name] pathlib derives from it. *)
Record t := mk { text : pystr; name : pystr }.
End Path.

(** What the interpreter's library computes for the code. *)
Class PyLib := {
  (** [str.isalnum] of a character outside ASCII (the regex class [\w]) *)
  uni_isalnum : N -> bool;
  (** [str.lower] of a string that is not all ASCII *)
  uni_lower : pystr -> pystr;
  (** [datetime.fromisoformat]; [None] stands for [ValueError] *)
  fromisoformat : pystr -> option DateTime.t;
  (** [int] of a string; [None] stands for [ValueError] *)
  py_int : pystr -> option Z;
  (** [Path(filename).suffix] *)
  path_suffix : pystr -> pystr
}.

Definition LANGUAGE_MAP : odict pystr pystr := [
  (u ".py", u "Python");
  (u ".js", u "JavaScript");
  (u ".ts", u "TypeScript");
  (u ".jsx", u "JavaScript");
  (u ".tsx", u "TypeScript");
  (u ".java", u "Java");
  (u ".kt", u "Kotlin");
  (u ".swift", u "Swift");
  (u ".go", u "Go");
  (u ".rs", u "Rust");
  (u ".c", u "C");
  (u ".cpp", u "C++");
  (u ".cc", u "C++");
  (u ".h", u "C/C++ Header");
  (u ".hpp", u "C++ Header");
  (u ".cs", u "C#");
  (u ".rb", u "Ruby");
  (u ".php", u "PHP");
  (u ".vue", u "Vue");
  (u ".svelte", u "Svelte");
  (u ".html", u "HTML");
  (u ".css", u "CSS");
  (u ".scss", u "SCSS");
  (u ".sass", u "Sass");
  (u ".less", u "Less");
  (u ".json", u "JSON");
  (u ".yaml", u "YAML");
  (u ".yml", u "YAML");
  (u ".xml", u "XML");
  (u ".sql", u "SQL");
  (u ".sh", u "Shell");
  (u ".bash", u "Bash");
  (u ".zsh", u "Zsh");
  (u ".ps1", u "PowerShell");
  (u ".md", u "Markdown");
  (u ".rst", u "reStructuredText");
  (u ".lua", u "Lua");
  (u ".r", u "R");
  (u ".m", u "Objective-C/MATLAB");
  (u ".dart", u "Dart");
  (u ".scala", u "Scala");
  (u ".groovy", u "Groovy");
  (u ".pl", u "Perl");
  (u ".ex", u "Elixir");
  (u ".exs", u "Elixir");
  (u ".erl", u "Erlang");
  (u ".hs", u "Haskell");
  (u ".ml", u "OCaml");
  (u ".fs", u "F#");
  (u ".clj", u "Clojure");
  (u ".nim", u "Nim");
  (u ".zig", u "Zig");
  (u ".v", u "V");
  (u ".sol", u "Solidity")
].

(** The empty tree of git. *)
Definition EMPTY_TREE : pystr := u "4b825dc642cb6eb9a060e54bf8d69288fbee4904".

(** The binary-content sentinel of [git diff --numstat]. *)
Definition SENTINEL : pystr := u "-".

Section Extractor.
Context {L : PyLib}.

(** [s.lower()]: CPython lowers an all-ASCII string character by
    character and consults the Unicode case mappings otherwise. *)
Definition lower (s : pystr) : pystr :=
  if forallb is_ascii s then map ascii_lower s else uni_lower s.

Definition get_language (filename : pystr) : option pystr :=
  let ext := lower (path_suffix filename) in
  od_find ext LANGUAGE_MAP.

(** The [git] subprocess: [(returncode == 0, stdout)], or [(False, _)] on a
    timeout or a missing executable. *)
Variable run_git_command : Path.t -> list pystr -> bool * pystr.

(** The body of the loop over the records of the log; the state is
    [(commits, seen_hashes)]. *)
Definition log_step (emails : pyset pystr)
    (st : list CommitInfo.t * pyset pystr) (record : pystr)
    : list CommitInfo.t * pyset pystr :=
  let '(commits, seen_hashes) := st in
  let record := strip record in
  if negb (nonempty record) then st
  else
    match splitn [NUL] 3 record with
    | [commit_hash; email; date_str; message] =>
      let email := lower email in
      let commit_hash := lower commit_hash in
      let message := strip message in
      if nonempty emails && negb (set_in email emails) then st
      else if set_in commit_hash seen_hashes then st
      else
        let seen_hashes := set_add commit_hash seen_hashes in
        match fromisoformat (replace_char 90 (u "+00:00") date_str) with
        | None => (commits, seen_hashes)
        | Some date =>
          (commits ++ [CommitInfo.mk commit_hash email date message [] []],
           seen_hashes)
        end
    | _ => st
    end.

Definition parse_git_log (repo_path : Path.t) (year : Z)
    (emails : pyset pystr) : list CommitInfo.t :=
  let start_date := str_of_Z year ++ u "-01-01" in
  let end_date := str_of_Z year ++ u "-12-31" in
  let '(success, output) :=
    run_git_command repo_path
      [u "log"; u "--all";
       u "--after=" ++ start_date;
       u "--before=" ++ end_date ++ u " 23:59:59";
       u "--format=%H%x00%ae%x00%aI%x00%B%x00%x00"] in
  if negb success || negb (nonempty (strip output)) then []
  else
    let records := str_split [NUL; NUL] output in
    fst (fold_left (log_step emails) records ([], [])).

(** A count field of a numstat line: the sentinel reads as 0. *)
Definition count_field (field : pystr) : option Z :=
  if keq field SENTINEL then Some 0 else py_int field.

(** The body of the loop over the lines of the numstat output. *)
Definition diff_step (files : list FileDiff.t) (line : pystr)
    : list FileDiff.t :=
  if negb (nonempty line) then files
  else
    match str_split [TAB] line with
    | added :: deleted :: filename :: _ =>
      match count_field added, count_field deleted with
      | Some added_lines, Some deleted_lines =>
        files ++ [FileDiff.mk filename (get_language filename)
                    added_lines deleted_lines 0]
      | _, _ => files
      end
    | _ => files
    end.

(** The numstat lines of one commit, read in order. *)
Definition numstat_lines (lines : list pystr) : list FileDiff.t :=
  fold_left diff_step lines [].

(** The two queries of [parse_git_diff]: against the first parent and, when
    that fails, against the empty tree. *)
Definition numstat_query (repo_path : Path.t) (commit_hash : pystr)
    : bool * pystr :=
  let '(success, output) :=
    run_git_command repo_path
      [u "diff"; commit_hash ++ u "^!"; u "--numstat"] in
  if negb success
  then run_git_command repo_path
         [u "diff"; u "--numstat"; EMPTY_TREE; commit_hash]
  else (success, output).

Definition parse_git_diff (repo_path : Path.t) (commit_hash : pystr)
    : list FileDiff.t :=
  let '(success, output) := numstat_query repo_path commit_hash in
  if negb success || negb (nonempty (strip output)) then []
  else numstat_lines (str_split [LF] (strip output)).

(** A set comprehension over a list: the elements in the order they are
    first met. *)
Definition set_of (l : list pystr) : pyset pystr :=
  fold_left (fun s x => set_add x s) l [].

Definition get_user_emails (repo_path : Path.t) : pyset pystr :=
  let '(success, output) :=
    run_git_command repo_path [u "config"; u "user.email"] in
  if success && nonempty (strip output) then [lower (strip output)] else [].

Definition get_all_contributor_emails (repo_path : Path.t) : pyset pystr :=
  let '(success, output) :=
    run_git_command repo_path [u "log"; u "--all"; u "--format=%ae"] in
  if success
  then set_of (map lower (filter nonempty (str_split [LF] (strip output))))
  else [].

(* main.py *)

(** [commit.repo_name = repo.name; commit.files = parse_git_diff(...)] *)
Definition with_repo (repo : Path.t) (commit : CommitInfo.t) : CommitInfo.t :=
  CommitInfo.mk (CommitInfo.hash commit) (CommitInfo.email commit)
    (CommitInfo.date commit) (CommitInfo.message commit)
    (Path.name repo)
    (parse_git_diff repo (CommitInfo.hash commit)).

(** The body of the inner loop of [analyze_repos] over one repository's
    commits; the state is [(all_commits, seen_hashes)], and [seen_hashes]
    is the one set shared by all repositories. *)
Definition repo_commit_step (repo : Path.t)
    (st : list CommitInfo.t * pyset pystr) (commit : CommitInfo.t)
    : list CommitInfo.t * pyset pystr :=
  let '(all_commits, seen_hashes) := st in
  if negb (set_in (CommitInfo.hash commit) seen_hashes)
  then
    let seen_hashes := set_add (CommitInfo.hash commit) seen_hashes in
    (all_commits ++ [with_repo repo commit], seen_hashes)
  else st.

Definition repo_step (year : Z) (emails : pyset pystr)
    (st : list CommitInfo.t * pyset pystr) (repo : Path.t)
    : list CommitInfo.t * pyset pystr :=
  let commits := parse_git_log repo year emails in
  fold_left (repo_commit_step repo) commits st.

(** The state of the loop over the repositories when it ends. *)
Definition repos_state (repos : list Path.t) (year : Z)
    (emails : pyset pystr) : list CommitInfo.t * pyset pystr :=
  fold_left (repo_step year emails) repos ([], []).

Definition analyze_repos (repos : list Path.t) (year : Z)
    (emails : pyset pystr) : list CommitInfo.t :=
  fst (repos_state repos year emails).

End Extractor.

(* ------------------------------------------------------------------ *)
(** ** statistics.py: the records *)

Module RepoSummary.
Record t := mk {
  name : pystr;
  commits : Z;
  added_lines : Z;
  deleted_lines : Z;
  languages : odict pystr Z;
  keywords : list pystr;
  main_work : list pystr;
  first_commit : option pystr;
  last_commit : option pystr;
  commit_messages : list (pystr * pystr)
}.
End RepoSummary.

Module YearStats.
Record t := mk {
  year : Z;
  total_commits : Z;
  total_added_lines : Z;
  total_deleted_lines : Z;
  active_days : Z;
  heatmap : odict Z Z;
  languages : odict pystr Z;
  commits_by_hour : odict Z Z;
  commits_by_weekday : odict Z Z;
  weekend_days : Z;
  most_active_date : option pystr;
  most_active_date_commits : Z;
  most_active_month : option Z;
  most_active_month_commits : Z;
  max_streak : Z;
  current_streak : Z;
  commit_words : odict pystr Z;
  repos_count : Z;
  repos_stats : odict pystr Z;
  repo_summaries : list RepoSummary.t;
  achievements : list (pystr * pystr)
}.

(** [YearStats(year=year)]: every other field at its default. *)
Definition init (year : Z) : t :=
  mk year 0 0 0 0 [] [] [] [] 0 None 0 None 0 0 0 [] 0 [] [] [].

Definition with_year (y : Z) (s : t) : t :=
  mk y (total_commits s) (total_added_lines s) (total_deleted_lines s)
    (active_days s) (heatmap s) (languages s) (commits_by_hour s)
    (commits_by_weekday s) (weekend_days s) (most_active_date s)
    (most_active_date_commits s) (most_active_month s)
    (most_active_month_commits s) (max_streak s) (current_streak s)
    (commit_words s) (repos_count s) (repos_stats s) (repo_summaries s)
    (achievements s).

Definition with_current_streak (n : Z) (s : t) : t :=
  mk (year s) (total_commits s) (total_added_lines s) (total_deleted_lines s)
    (active_days s) (heatmap s) (languages s) (commits_by_hour s)
    (commits_by_weekday s) (weekend_days s) (most_active_date s)
    (most_active_date_commits s) (most_active_month s)
    (most_active_month_commits s) (max_streak s) n
    (commit_words s) (repos_count s) (repos_stats s) (repo_summaries s)
    (achievements s).

Definition with_achievements (a : list (pystr * pystr)) (s : t) : t :=
  mk (year s) (total_commits s) (total_added_lines s) (total_deleted_lines s)
    (active_days s) (heatmap s) (languages s) (commits_by_hour s)
    (commits_by_weekday s) (weekend_days s) (most_active_date s)
    (most_active_date_commits s) (most_active_month s)
    (most_active_month_commits s) (max_streak s) (current_streak s)
    (commit_words s) (repos_count s) (repos_stats s) (repo_summaries s)
    a.
End YearStats.

Module Tally.
(** What the loop of [analyze_commits] has accumulated: the fields of
    [stats] it updates and its local dictionaries, sets and counter.  The
    dictionaries and sets the source keys by the ["%Y-%m-%d"] rendering of a
    date are keyed by the date: the rendering of a four-digit year is
    one-to-one ([strftime_ymd_one_to_one] below), and [calculate_streak]
    parses it back ([read_strftime_ymd]). *)
Record t := mk {
  total_commits : Z;
  total_added_lines : Z;
  total_deleted_lines : Z;
  languages : odict pystr Z;
  heatmap : odict Z Z;
  commits_by_hour : odict Z Z;
  commits_by_weekday : odict Z Z;
  commits_by_date : odict Date.t (list CommitInfo.t);
  commits_by_month : odict Z Z;
  active_dates : pyset Date.t;
  weekend_dates : pyset Date.t;
  word_counter : odict pystr Z
}.

Definition init : t := mk 0 0 0 [] [] [] [] [] [] [] [] [].
End Tally.

Module RepoTally.
(** What the loop over one repository's commits has accumulated. *)
Record t := mk {
  added_lines : Z;
  deleted_lines : Z;
  lang_counter : odict pystr Z;
  word_counter : odict pystr Z;
  commit_dates : list DateTime.t;
  commit_messages : list (pystr * pystr)
}.
Definition init : t := mk 0 0 [] [] [] [].
End RepoTally.

Definition DEFAULT_EXCLUDE_LANGUAGES : pyset pystr :=
  [u "Markdown"; u "JSON"; u "YAML"; u "XML"; u "reStructuredText"].

Definition stop_words : pyset pystr := [
  u "the"; u "a"; u "an"; u "is"; u "are"; u "was"; u "were"; u "be"; u "been";
  u "and"; u "or"; u "but"; u "in"; u "on"; u "at"; u "to"; u "for"; u "of"; u "with";
  u "this"; u "that"; u "it"; u "from"; u "by"; u "as"; u "if"; u "not"; u "no";
  u "fix"; u "add"; u "update"; u "remove"; u "change"; u "merge"; u "commit";
  u "wip"; u "todo"; u "fixme"; u "xxx"; u "test"; u "tests"; u "file"; u "files"
].

Definition work_patterns : odict pystr pystr := [
  (u "feat", u "新功能开发");
  (u "feature", u "新功能开发");
  (u "新增", u "新功能开发");
  (u "添加", u "新功能开发");
  (u "fix", u "Bug 修复");
  (u "bugfix", u "Bug 修复");
  (u "修复", u "Bug 修复");
  (u "refactor", u "代码重构");
  (u "重构", u "代码重构");
  (u "优化", u "性能优化");
  (u "perf", u "性能优化");
  (u "docs", u "文档编写");
  (u "文档", u "文档编写");
  (u "test", u "测试相关");
  (u "测试", u "测试相关");
  (u "style", u "代码风格");
  (u "chore", u "工程配置");
  (u "ci", u "CI/CD 配置");
  (u "build", u "构建相关");
  (u "deploy", u "部署相关");
  (u "部署", u "部署相关");
  (u "api", u "API 开发");
  (u "接口", u "API 开发");
  (u "ui", u "UI 开发");
  (u "界面", u "UI 开发");
  (u "database", u "数据库相关");
  (u "数据库", u "数据库相关");
  (u "security", u "安全相关");
  (u "安全", u "安全相关");
  (u "auth", u "认证授权");
  (u "登录", u "认证授权")
].

(** IEEE-754 binary64, for the one float expression of the module. *)
Definition float_of_int (n : Z) : spec_float := binary_normalize 53 1024 n 0 false.

(** The double nearest to 0.8. *)
Definition FLOAT_0_8 : spec_float := S754_finite false 7205759403792794 (-53).

Definition float_mul (x y : spec_float) : spec_float := SFmul 53 1024 x y.

(** [n > x] for an [int] and a [float]: Python compares the exact values. *)
Definition int_gt_float (n : Z) (x : spec_float) : bool :=
  match x with
  | S754_zero _ => 0 <? n
  | S754_infinity s => s
  | S754_nan => false
  | S754_finite s m e =>
    let v := if s then Z.neg m else Z.pos m in
    if 0 <=? e then v * 2 ^ e <? n else v <? n * 2 ^ (- e)
  end.

(* ------------------------------------------------------------------ *)
(** ** statistics.py: the functions *)

Section Aggregation.
Context {L : PyLib}.

(** The regex class [\w]. *)
Definition is_word (c : N) : bool :=
  if is_ascii c then ascii_isalnum c || (c =? 95)%N else uni_isalnum c.

(** A character the substitution [re.sub(r'[^\w\s\u4e00-\u9fff]', ' ', _)]
    leaves in place. *)
Definition kept_char (c : N) : bool :=
  is_word c || is_space c || ((19968 <=? c) && (c <=? 40959))%N.

Definition extract_words (text : pystr) : list pystr :=
  let text := map (fun c => if kept_char c then c else SPACE) (lower text) in
  let words := split_ws text in
  filter (fun w => (2 <? len w) && negb (set_in w stop_words)) words.

(** The body of the loop over the patterns, for one lowered message. *)
Definition work_step (msg_lower : pystr) (work_counter : odict pystr Z)
    (entry : pystr * pystr) : odict pystr Z :=
  let '(pattern, work_type) := entry in
  if contains pattern msg_lower then counter_add work_type 1 work_counter
  else work_counter.

Definition analyze_main_work (commits : list CommitInfo.t) : list pystr :=
  let work_counter :=
    fold_left
      (fun work_counter commit =>
         let msg_lower := lower (CommitInfo.message commit) in
         fold_left (work_step msg_lower) work_patterns work_counter)
      commits [] in
  map fst (most_common 5 work_counter).

(** The scan of adjacent sorted dates; the state is
    [(dates[i-1], current, max_streak)]. *)
Definition streak_step (st : Date.t * Z * Z) (d : Date.t) : Date.t * Z * Z :=
  let '(prev, current, max_streak) := st in
  if toordinal d - toordinal prev =? 1
  then (d, current + 1, Z.max max_streak (current + 1))
  else (d, 1, max_streak).

(** The walk back from today: one turn of the [while] per unit of [fuel].
    Every turn lowers the ordinal of [check_date] by one and a [date] has
    no ordinal below 1, so [toordinal today] turns are all there can be. *)
Fixpoint walk_back (fuel : nat) (check_date : Date.t)
    (active_dates : pyset Date.t) : Z :=
  match fuel with
  | O => 0
  | S k =>
    if set_in check_date active_dates
    then 1 + walk_back k (date_pred check_date) active_dates
    else 0
  end.

(** [today] is what [date.today()] returns when the function runs;
    [active_dates] holds the dates whose renderings the source holds, and
    [sorted_by date_leb] sorts what [strptime] reads back from them. *)
Definition calculate_streak (today : Date.t) (active_dates : pyset Date.t)
    (year : Z) : Z * Z :=
  if negb (nonempty active_dates) then (0, 0)
  else
    let dates := sorted_by date_leb active_dates in
    let max_streak :=
      match dates with
      | [] => 1
      | d0 :: rest => snd (fold_left streak_step rest (d0, 1, 1))
      end in
    let current_streak :=
      walk_back (Z.to_nat (toordinal today)) today active_dates in
    (max_streak, current_streak).

(** [f.language and f.language not in exclude_languages] *)
Definition counts_as_code (exclude_languages : pyset pystr)
    (language : option pystr) : option pystr :=
  match language with
  | Some l => if nonempty l && negb (set_in l exclude_languages)
              then Some l else None
  | None => None
  end.

(* The rules of calculate_achievements, in the order they append. *)

Definition volume_badge (stats : YearStats.t) : list (pystr * pystr) :=
  let score :=
    YearStats.total_commits stats * 10 + YearStats.total_added_lines stats in
  if 100000 <? score then [(u "卷王本王", u "代码量惊人，是团队的核心力量")]
  else if 10000 <? score then [(u "发奋图强", u "持续高产出，令人敬佩")]
  else if 1000 <? score then [(u "勤劳努力", u "稳定输出，值得表扬")]
  else if 500 <? score then [(u "小试牛刀", u "初露锋芒，继续加油")]
  else [(u "休养生息", u "这一年比较轻松呢")].

Definition language_badge (stats : YearStats.t) : list (pystr * pystr) :=
  let n := len (YearStats.languages stats) in
  if 10 <=? n
  then [(u "全栈大神", u "精通 " ++ str_of_Z n ++ u " 种编程语言")]
  else if 6 <=? n
  then [(u "编程语言大师", u "使用了 " ++ str_of_Z n ++ u " 种编程语言")]
  else [].

Definition hour_badge (stats : YearStats.t) : list (pystr * pystr) :=
  match py_max snd (YearStats.commits_by_hour stats) with
  | None => []
  | Some (favorite_hour, _) =>
    if (0 <=? favorite_hour) && (favorite_hour <? 5)
    then [(u "夜猫子", u "凌晨还在写代码，注意休息")]
    else if (5 <=? favorite_hour) && (favorite_hour <? 10)
    then [(u "早睡早起身体好", u "早起的鸟儿有虫吃")]
    else if (10 <=? favorite_hour) && (favorite_hour <? 14)
    then [(u "干饭人干饭魂", u "午间时光也不忘coding")]
    else if (14 <=? favorite_hour) && (favorite_hour <? 17)
    then [(u "下午茶时间", u "下午是你的高效时段")]
    else if (17 <=? favorite_hour) && (favorite_hour <? 19)
    then [(u "晚餐前冲刺", u "抓住晚餐前的黄金时间")]
    else [(u "夜间模式", u "夜晚是你的创作时间")]
  end.

Definition weekend_badge (stats : YearStats.t) : list (pystr * pystr) :=
  let n := YearStats.weekend_days stats in
  if 40 <? n
  then [(u "周末永动机",
         u "周末提交了 " ++ str_of_Z n ++ u " 天，老板看了都流泪")]
  else if 20 <? n
  then [(u "周末战士", u "周末也提交了 " ++ str_of_Z n ++ u " 天")]
  else [].

Definition peak_badge (stats : YearStats.t) : list (pystr * pystr) :=
  let n := YearStats.most_active_date_commits stats in
  if 100 <? n
  then [(u "代码狂人", u "单日最高 " ++ str_of_Z n ++ u " 次提交")]
  else if 50 <? n
  then [(u "Bugfix 制造机", u "单日 " ++ str_of_Z n ++ u " 次提交")]
  else [].

Definition streak_badge (stats : YearStats.t) : list (pystr * pystr) :=
  let n := YearStats.max_streak stats in
  if 30 <=? n
  then [(u "坚持就是胜利", u "连续 " ++ str_of_Z n ++ u " 天提交，毅力惊人")]
  else if 14 <=? n
  then [(u "两周连击", u "连续 " ++ str_of_Z n ++ u " 天提交")]
  else if 7 <=? n
  then [(u "一周达人", u "连续 " ++ str_of_Z n ++ u " 天提交")]
  else [].

Definition active_badge (stats : YearStats.t) : list (pystr * pystr) :=
  let n := YearStats.active_days stats in
  if 300 <=? n
  then [(u "全年无休", u "活跃 " ++ str_of_Z n ++ u " 天，代码就是生活")]
  else if 200 <=? n
  then [(u "劳模本模", u "活跃 " ++ str_of_Z n ++ u " 天")]
  else [].

Definition net_badge (stats : YearStats.t) : list (pystr * pystr) :=
  let net_lines :=
    YearStats.total_added_lines stats - YearStats.total_deleted_lines stats in
  if 1000000 <? net_lines
  then [(u "百万代码", u "净增 " ++ fmt_comma net_lines ++ u " 行代码")]
  else if 100000 <? net_lines
  then [(u "十万行家", u "净增 " ++ fmt_comma net_lines ++ u " 行代码")]
  else if net_lines <? -10000
  then [(u "代码清道夫",
         u "净删除 " ++ fmt_comma (- net_lines) ++ u " 行代码，精简专家")]
  else [].

(** [total_deleted_lines > total_added_lines * 0.8], a float product.
    (Python raises [OverflowError] when the int has no double, from 2^1024
    on; the product here is then an infinity.) *)
Definition refactor_badge (stats : YearStats.t) : list (pystr * pystr) :=
  if int_gt_float (YearStats.total_deleted_lines stats)
       (float_mul (float_of_int (YearStats.total_added_lines stats)) FLOAT_0_8)
  then [(u "重构达人", u "删除的代码量接近新增量，重构高手")]
  else [].

Definition calculate_achievements (stats : YearStats.t)
    : list (pystr * pystr) :=
  volume_badge stats ++ language_badge stats ++ hour_badge stats
  ++ weekend_badge stats ++ peak_badge stats ++ streak_badge stats
  ++ active_badge stats ++ net_badge stats ++ refactor_badge stats.

(** The grouping loop of [generate_repo_summaries]: a commit with an empty
    label joins no group. *)
Definition group_step (repo_commits : odict pystr (list CommitInfo.t))
    (commit : CommitInfo.t) : odict pystr (list CommitInfo.t) :=
  if nonempty (CommitInfo.repo_name commit)
  then od_set (CommitInfo.repo_name commit)
         (od_get (CommitInfo.repo_name commit) repo_commits [] ++ [commit])
         repo_commits
  else repo_commits.

Definition repo_file_step (exclude_languages : pyset pystr)
    (st : Z * Z * odict pystr Z) (f : FileDiff.t) : Z * Z * odict pystr Z :=
  let '(added_lines, deleted_lines, lang_counter) := st in
  (added_lines + FileDiff.added_lines f,
   deleted_lines + FileDiff.deleted_lines f,
   match counts_as_code exclude_languages (FileDiff.language f) with
   | Some l => counter_add l (FileDiff.added_lines f) lang_counter
   | None => lang_counter
   end).

Definition summary_step (exclude_languages : pyset pystr)
    (a : RepoTally.t) (commit : CommitInfo.t) : RepoTally.t :=
  let commit_dates := RepoTally.commit_dates a ++ [CommitInfo.date commit] in
  let date_str := strftime_ymd_hm (CommitInfo.date commit) in
  let commit_messages :=
    RepoTally.commit_messages a ++ [(date_str, CommitInfo.message commit)] in
  let words := extract_words (CommitInfo.message commit) in
  let word_counter := counter_update (RepoTally.word_counter a) words in
  let '(added_lines, deleted_lines, lang_counter) :=
    fold_left (repo_file_step exclude_languages) (CommitInfo.files commit)
      (RepoTally.added_lines a, RepoTally.deleted_lines a,
       RepoTally.lang_counter a) in
  RepoTally.mk added_lines deleted_lines lang_counter word_counter
    commit_dates commit_messages.

(** The body of the loop over the groups: one summary. *)
Definition summarize (exclude_languages : pyset pystr) (repo_name : pystr)
    (repo_commit_list : list CommitInfo.t) : RepoSummary.t :=
  let a :=
    fold_left (summary_step exclude_languages) repo_commit_list
      RepoTally.init in
  let commit_dates := sorted_by (asc utc_micros) (RepoTally.commit_dates a) in
  RepoSummary.mk repo_name (len repo_commit_list)
    (RepoTally.added_lines a) (RepoTally.deleted_lines a)
    (most_common 5 (RepoTally.lang_counter a))
    (map fst (most_common 10 (RepoTally.word_counter a)))
    (analyze_main_work repo_commit_list)
    (option_map (fun d => strftime_ymd (date_of d)) (hd_error commit_dates))
    (option_map (fun d => strftime_ymd (date_of d))
       (hd_error (rev commit_dates)))
    (sorted_by (fun x y => pystr_leb (fst x) (fst y))
       (RepoTally.commit_messages a)).

Definition generate_repo_summaries (commits : list CommitInfo.t)
    (exclude_languages : pyset pystr) : list RepoSummary.t :=
  let repo_commits := fold_left group_step commits [] in
  let summaries :=
    map (fun '(repo_name, repo_commit_list) =>
           summarize exclude_languages repo_name repo_commit_list)
      repo_commits in
  sorted_by (desc RepoSummary.commits) summaries.

(** The loop over the files of one commit in [analyze_commits]; the state
    is [(total_added_lines, total_deleted_lines, languages)]. *)
Definition file_step (exclude_languages : pyset pystr)
    (st : Z * Z * odict pystr Z) (f : FileDiff.t) : Z * Z * odict pystr Z :=
  let '(total_added_lines, total_deleted_lines, languages) := st in
  (total_added_lines + FileDiff.added_lines f,
   total_deleted_lines + FileDiff.deleted_lines f,
   match counts_as_code exclude_languages (FileDiff.language f) with
   | Some l => od_set l (od_get l languages 0 + FileDiff.added_lines f) languages
   | None => languages
   end).

(** The body of the loop over the commits in [analyze_commits]. *)
Definition commit_step (exclude_languages : pyset pystr)
    (a : Tally.t) (commit : CommitInfo.t) : Tally.t :=
  let total_commits := Tally.total_commits a + 1 in
  let '(total_added_lines, total_deleted_lines, languages) :=
    fold_left (file_step exclude_languages) (CommitInfo.files commit)
      (Tally.total_added_lines a, Tally.total_deleted_lines a,
       Tally.languages a) in
  let date_str := date_of (CommitInfo.date commit) in
  let commits_by_date :=
    od_set date_str (od_get date_str (Tally.commits_by_date a) [] ++ [commit])
      (Tally.commits_by_date a) in
  let active_dates := set_add date_str (Tally.active_dates a) in
  let commits_by_month :=
    counter_add (DateTime.month (CommitInfo.date commit)) 1
      (Tally.commits_by_month a) in
  let day_of_year := tm_yday date_str in
  let heatmap :=
    od_set day_of_year (od_get day_of_year (Tally.heatmap a) 0 + 1)
      (Tally.heatmap a) in
  let hour := DateTime.hour (CommitInfo.date commit) in
  let commits_by_hour :=
    od_set hour (od_get hour (Tally.commits_by_hour a) 0 + 1)
      (Tally.commits_by_hour a) in
  let weekday := weekday date_str in
  let commits_by_weekday :=
    od_set weekday (od_get weekday (Tally.commits_by_weekday a) 0 + 1)
      (Tally.commits_by_weekday a) in
  let weekend_dates :=
    if 5 <=? weekday then set_add date_str (Tally.weekend_dates a)
    else Tally.weekend_dates a in
  let words := extract_words (CommitInfo.message commit) in
  let word_counter := counter_update (Tally.word_counter a) words in
  Tally.mk total_commits total_added_lines total_deleted_lines languages
    heatmap commits_by_hour commits_by_weekday commits_by_date
    commits_by_month active_dates weekend_dates word_counter.

(** [today] is the reading of the clock that [calculate_streak] takes;
    [exclude_languages = None] is the default argument.  [dict(...)] of the
    pairs of [most_common], whose keys are distinct, is the list of pairs
    in the same order. *)
Definition analyze_commits (today : Date.t) (commits : list CommitInfo.t)
    (year : Z) (exclude_languages : option (pyset pystr)) : YearStats.t :=
  let exclude_languages :=
    match exclude_languages with
    | None => DEFAULT_EXCLUDE_LANGUAGES
    | Some s => s
    end in
  let stats := YearStats.init year in
  if negb (nonempty commits) then stats
  else
    let a := fold_left (commit_step exclude_languages) commits Tally.init in
    let most_active :=
      py_max (fun x => len (snd x)) (Tally.commits_by_date a) in
    let most_active_month := py_max snd (Tally.commits_by_month a) in
    let '(max_streak, current_streak) :=
      calculate_streak today (Tally.active_dates a) year in
    let repo_summaries := generate_repo_summaries commits exclude_languages in
    let stats :=
      YearStats.mk year
        (Tally.total_commits a) (Tally.total_added_lines a)
        (Tally.total_deleted_lines a)
        (len (Tally.active_dates a))
        (Tally.heatmap a) (Tally.languages a)
        (Tally.commits_by_hour a) (Tally.commits_by_weekday a)
        (len (Tally.weekend_dates a))
        (option_map (fun x => strftime_ymd (fst x)) most_active)
        (match most_active with Some x => len (snd x) | None => 0 end)
        (option_map fst most_active_month)
        (match most_active_month with Some x => snd x | None => 0 end)
        max_streak current_streak
        (most_common 20 (Tally.word_counter a))
        (len repo_summaries) []
        repo_summaries [] in
    YearStats.with_achievements (calculate_achievements stats) stats.

Definition get_time_period_name (hour : Z) : pystr :=
  if (0 <=? hour) && (hour <? 5) then u "凌晨"
  else if (5 <=? hour) && (hour <? 10) then u "早晨"
  else if (10 <=? hour) && (hour <? 14) then u "中午"
  else if (14 <=? hour) && (hour <? 17) then u "下午"
  else if (17 <=? hour) && (hour <? 19) then u "傍晚"
  else u "晚上".

(* scanner.py *)

(** [str(r)] is the text of the path. *)
Definition filter_repos_by_keyword (repos : list Path.t) (keyword : pystr)
    : list Path.t :=
  filter (fun r => negb (contains (lower keyword) (lower (Path.text r)))) repos.

End Aggregation.

(* ------------------------------------------------------------------ *)
(** ** A library instance and sample inputs

    [ascii_lib] is the library cut down to what the sample inputs below
    exercise: decimal ASCII integers, the timestamp format of git's [%aI],
    POSIX path suffixes, and outside ASCII only the CJK ideographs as word
    characters, lowered as ASCII is. *)

Definition digit_val (c : N) : option Z :=
  if ((48 <=? c) && (c <=? 57))%N then Some (Z.of_N (c - 48)) else None.

Fixpoint digits_val (s : pystr) (acc : Z) : option Z :=
  match s with
  | [] => Some acc
  | c :: r =>
    match digit_val c with
    | Some d => digits_val r (acc * 10 + d)
    | None => None
    end
  end.

Definition dec_nat (s : pystr) : option Z :=
  if nonempty s then digits_val s 0 else None.

Definition dec_int (s : pystr) : option Z :=
  match strip s with
  | 45%N :: r => option_map Z.opp (dec_nat r)
  | 43%N :: r => dec_nat r
  | r => dec_nat r
  end.

Definition in_range (lo hi : Z) (v : option Z) : option Z :=
  match v with
  | Some z => if (lo <=? z) && (z <=? hi) then Some z else None
  | None => None
  end.

(** [YYYY-MM-DDTHH:MM:SS+HH:MM], the shape git prints for [%aI]. *)
Definition iso_strict (s : pystr) : option DateTime.t :=
  match s with
  | [y1; y2; y3; y4; d1; m1; m2; d2; a1; a2; t; h1; h2; c1; n1; n2; c2;
     s1; s2; sg; o1; o2; c3; p1; p2] =>
    if ((d1 =? 45) && (d2 =? 45) && (t =? 84) && (c1 =? 58) && (c2 =? 58)
        && (c3 =? 58) && ((sg =? 43) || (sg =? 45)))%N
    then
      match in_range 1 9999 (dec_nat [y1; y2; y3; y4]),
            in_range 1 12 (dec_nat [m1; m2]),
            in_range 0 23 (dec_nat [h1; h2]),
            in_range 0 59 (dec_nat [n1; n2]),
            in_range 0 59 (dec_nat [s1; s2]),
            in_range 0 23 (dec_nat [o1; o2]),
            in_range 0 59 (dec_nat [p1; p2]) with
      | Some y, Some m, Some hh, Some mi, Some ss, Some oh, Some om =>
        match in_range 1 (days_in_month y m) (dec_nat [a1; a2]) with
        | Some d =>
          let off := (oh * 3600 + om * 60) * 1000000 in
          Some (DateTime.mk y m d hh mi ss 0
                  (if (sg =? 45)%N then - off else off))
        | None => None
        end
      | _, _, _, _, _, _, _ => None
      end
    else None
  | _ => None
  end.

Fixpoint last_dot (s : pystr) (i : nat) (found : option nat) : option nat :=
  match s with
  | [] => found
  | c :: r => last_dot r (S i) (if (c =? 46)%N then Some i else found)
  end.

Definition posix_suffix (filename : pystr) : pystr :=
  let parts :=
    filter (fun p => nonempty p && negb (keq p (u ".")))
      (str_split [47%N] filename) in
  let name := last parts [] in
  match last_dot name 0 None with
  | Some i =>
    if Nat.ltb 0 i && Nat.ltb i (List.length name - 1) then skipn i name
    else []
  | None => []
  end.

Definition ascii_lib : PyLib := {|
  uni_isalnum := fun c => ((19968 <=? c) && (c <=? 40959))%N;
  uni_lower := map ascii_lower;
  fromisoformat := iso_strict;
  py_int := dec_int;
  path_suffix := posix_suffix
|}.

(** Two working copies that hold the same commit. *)
Definition repo_app : Path.t := Path.mk (u "/work/app") (u "app").
Definition repo_fork : Path.t := Path.mk (u "/work/app-fork") (u "app-fork").

Definition shared_hash : pystr := u "9fceb02d0ae598e95dc970b74767f19372d61af8".

(** One record of [git log], as the requested format prints it. *)
Definition log_record (hash email date message : pystr) : pystr :=
  hash ++ [NUL] ++ email ++ [NUL] ++ date ++ [NUL] ++ message
  ++ [LF; NUL; NUL; LF].

Definition shared_log : pystr :=
  log_record shared_hash (u "dev@example.com")
    (u "2024-03-01T10:00:00+08:00") (u "Initial import").

Definition numstat_line (added deleted filename : pystr) : pystr :=
  added ++ [TAB] ++ deleted ++ [TAB] ++ filename.

(** A [git] that answers every repository with the same history. *)
Definition two_repo_git (repo : Path.t) (args : list pystr) : bool * pystr :=
  match args with
  | cmd :: _ =>
    if keq cmd (u "log") then (true, shared_log)
    else (true, numstat_line (u "3") (u "1") (u "src/main.py") ++ [LF])
  | [] => (false, [])
  end.

(** A commit whose subject line is indented. *)
Definition indented_git (repo : Path.t) (args : list pystr) : bool * pystr :=
  match args with
  | cmd :: _ =>
    if keq cmd (u "log")
    then (true,
          log_record shared_hash (u "dev@example.com")
            (u "2024-03-01T10:00:00+08:00") (u "  indented subject"))
    else (true, [])
  | [] => (false, [])
  end.

(** A numstat output with a binary file, a source file, a line of two
    fields and a line whose count is no number. *)
Definition mixed_numstat : pystr :=
  numstat_line SENTINEL SENTINEL (u "logo.png") ++ [LF]
  ++ numstat_line (u "10") (u "2") (u "src/a.py") ++ [LF]
  ++ u "garbage" ++ [TAB] ++ u "line" ++ [LF]
  ++ numstat_line (u "x") (u "1") (u "b.py") ++ [LF].

Definition numstat_git (repo : Path.t) (args : list pystr) : bool * pystr :=
  (true, mixed_numstat).

Definition march_1 : DateTime.t := DateTime.mk 2024 3 1 10 0 0 0 28800000000.
Definition march_2 : DateTime.t := DateTime.mk 2024 3 2 23 30 0 0 0.

Definition sample_commit (message repo_name : pystr) (date : DateTime.t)
    (files : list FileDiff.t) : CommitInfo.t :=
  CommitInfo.mk shared_hash (u "dev@example.com") date message repo_name files.

Definition readme_change : FileDiff.t :=
  FileDiff.mk (u "README.md") (Some (u "Markdown")) 40 0 0.

Definition source_change : FileDiff.t :=
  FileDiff.mk (u "src/a.py") (Some (u "Python")) 10 2 0.

(** A snapshot with 50 commits and 100000 added lines, nothing else. *)
Definition stats_50_100000 : YearStats.t :=
  YearStats.mk 2024 50 100000 0 0 [] [] [] [] 0 None 0 None 0 0 0 [] 0 [] [] [].

(** Two readings of the clock. *)
Definition clock_march_1 : Date.t := Date.mk 2024 3 1.
Definition clock_march_3 : Date.t := Date.mk 2024 3 3.

Definition labelled_commit : CommitInfo.t :=
  sample_commit (u "alpha beta") (u "app") march_1
    [source_change; readme_change].

Definition unlabelled_commit : CommitInfo.t :=
  sample_commit (u "beta alpha") [] march_2 [readme_change].

(** What the extraction hands to the aggregation for the two working
    copies. *)
Definition two_repo_input : list CommitInfo.t :=
  analyze_repos (L := ascii_lib) two_repo_git [repo_app; repo_fork] 2024 [].

(** The active dates 2024-01-01, -02, -03 and -10, as a set hands them
    out in some order. *)
Definition january_dates : pyset Date.t :=
  [Date.mk 2024 1 10; Date.mk 2024 1 2; Date.mk 2024 1 1; Date.mk 2024 1 3].

(** Two commits on consecutive days in one repository: a Python file
    (+10/-2), then a Markdown file (+5/-0). *)
Definition scenario_commits : list CommitInfo.t :=
  [CommitInfo.mk (u "a1") (u "dev@example.com") march_1 (u "parser") (u "app")
     [FileDiff.mk (u "src/a.py") (Some (u "Python")) 10 2 0];
   CommitInfo.mk (u "b2") (u "dev@example.com") march_2 (u "notes") (u "app")
     [FileDiff.mk (u "README.md") (Some (u "Markdown")) 5 0 0]].

(** A [git] that knows the working copy [app] only. *)
Definition one_repo_git (repo : Path.t) (args : list pystr) : bool * pystr :=
  if keq (Path.name repo) (u "app") then two_repo_git repo args
  else (false, []).

(** The commit of [shared_log], as [parse_git_log] returns it. *)
Definition parsed_commit : CommitInfo.t :=
  CommitInfo.mk shared_hash (u "dev@example.com") march_1 (u "Initial import")
    [] [].

(** Three commits of two repositories. *)
Definition library_commit : CommitInfo.t :=
  CommitInfo.mk (u "c3") (u "dev@example.com") march_2 (u "feature: parser")
    (u "lib") [source_change].

Definition later_commit : CommitInfo.t :=
  CommitInfo.mk (u "d4") (u "dev@example.com") march_2 (u "fix the parser")
    (u "app") [readme_change].

Definition mixed_commits : list CommitInfo.t :=
  [labelled_commit; library_commit; later_commit].

(** A snapshot whose only commits were made at [hour]. *)
Definition stats_at_hour (hour : Z) : YearStats.t :=
  YearStats.mk 2024 1 0 0 1 [] [] [(hour, 1)] [] 0 None 0 None 0 0 0 [] 0 []
    [] [].

Definition clock_january_3 : Date.t := Date.mk 2024 1 3.

(** The summary of the two commits of [mixed_commits] labelled [app]. *)
Definition app_summary : RepoSummary.t :=
  summarize (L := ascii_lib) DEFAULT_EXCLUDE_LANGUAGES (u "app")
    [labelled_commit; later_commit].

(* ------------------------------------------------------------------ *)
(** ** The vocabulary of the properties *)

Fixpoint sum_Z (l : list Z) : Z :=
  match l with
  | [] => 0
  | x :: r => x + sum_Z r
  end.

(** Every file change of every commit, in order. *)
Definition all_files (commits : list CommitInfo.t) : list FileDiff.t :=
  flat_map CommitInfo.files commits.

(** How often [w] occurs in [l]. *)
Fixpoint occurrences {A} `{Eqb A} (w : A) (l : list A) : Z :=
  match l with
  | [] => 0
  | x :: r => (if keq w x then 1 else 0) + occurrences w r
  end.

(** Where [w] first occurs in [l] (the length of [l] when it does not). *)
Fixpoint first_index {A} `{Eqb A} (w : A) (l : list A) : nat :=
  match l with
  | [] => O
  | x :: r => if keq w x then O else S (first_index w r)
  end.

(** [x] stands before [y] in [l]. *)
Inductive before {A} (x y : A) : list A -> Prop :=
| before_here l : In y l -> before x y (x :: l)
| before_later z l : before x y l -> before x y (z :: l).

(** The tokens of the commit messages, in input order. *)
Definition tokens {L : PyLib} (commits : list CommitInfo.t) : list pystr :=
  flat_map (fun c => extract_words (CommitInfo.message c)) commits.

(** What [Counter.update] keeps true of a counter [c] fed the words [done]:
    its keys are the words seen, each once and in the order of their first
    occurrence, and its values are the numbers of occurrences. *)
Definition counts (done : list pystr) (c : odict pystr Z) : Prop :=
  NoDup (map fst c)
  /\ (forall w, In w (map fst c) <-> In w done)
  /\ (forall w,
        od_find w c
        = if 0 <? occurrences w done then Some (occurrences w done) else None)
  /\ (forall w1 w2,
        before w1 w2 (map fst c) ->
        (first_index w1 done < first_index w2 done)%nat).

(** Sortedness for a boolean order. *)
Definition holds {A} (le : A -> A -> bool) (a b : A) : Prop := le a b = true.

Ltac branch_on_guards :=
  repeat match goal with
         | |- context [if ?b then _ else _] => destruct b
         end.

(** The names of the five volume tiers. *)
Definition VOLUME_TIERS : list pystr :=
  [u "卷王本王"; u "发奋图强"; u "勤劳努力"; u "小试牛刀"; u "休养生息"].

(** The badges of [l] that are volume tiers. *)
Definition volume_badges (l : list (pystr * pystr)) : list (pystr * pystr) :=
  filter (fun b => set_in (fst b) VOLUME_TIERS) l.

(** [commit] with another list of files. *)
Definition with_files (files : list FileDiff.t) (commit : CommitInfo.t)
    : CommitInfo.t :=
  CommitInfo.mk (CommitInfo.hash commit) (CommitInfo.email commit)
    (CommitInfo.date commit) (CommitInfo.message commit)
    (CommitInfo.repo_name commit) files.

(** The distinct repository labels of the commits. *)
Definition distinct_labels (commits : list CommitInfo.t) : pyset pystr :=
  fold_left (fun s c => set_add (CommitInfo.repo_name c) s) commits [].

(** The line totals and the language table of a tally. *)
Definition lines_of (a : Tally.t) : Z * Z * odict pystr Z :=
  (Tally.total_added_lines a, Tally.total_deleted_lines a, Tally.languages a).

(** The exclusion set a call uses. *)
Definition excluded (exclude_languages : option (pyset pystr)) : pyset pystr :=
  match exclude_languages with
  | None => DEFAULT_EXCLUDE_LANGUAGES
  | Some s => s
  end.

(** What the loop of [parse_git_log] keeps true of [(commits, seen_hashes)]:
    no hash twice, and every hash of a commit is a seen one. *)
Definition log_inv (st : list CommitInfo.t * pyset pystr) : Prop :=
  NoDup (map CommitInfo.hash (fst st))
  /\ forall h, In h (map CommitInfo.hash (fst st)) -> In h (snd st).

(** A hash not yet among [hashes]. *)
Definition fresh (hashes : list pystr) (commit : CommitInfo.t) : bool :=
  negb (set_in (CommitInfo.hash commit) hashes).

(** The distinct non-empty repository labels of the commits. *)
Definition nonempty_labels (commits : list CommitInfo.t) : pyset pystr :=
  fold_left
    (fun s c =>
       if nonempty (CommitInfo.repo_name c)
       then set_add (CommitInfo.repo_name c) s else s)
    commits [].

(** The calendar keys of a commit. *)
Definition day_of_year (c : CommitInfo.t) : Z :=
  tm_yday (date_of (CommitInfo.date c)).

Definition hour_of (c : CommitInfo.t) : Z := DateTime.hour (CommitInfo.date c).

Definition weekday_of (c : CommitInfo.t) : Z :=
  weekday (date_of (CommitInfo.date c)).

(** How a set with the empty label and a set without it stand to each
    other when they are fed the same labels. *)
Definition label_sets (s1 s2 : pyset pystr) : Prop :=
  List.length s2
  = (List.length s1 + (if set_in [] s2 then 1 else 0))%nat
  /\ set_in [] s1 = false
  /\ forall x : pystr, x <> [] -> set_in x s1 = set_in x s2.

(** [datetime.strptime(s, "%Y-%m-%d").date()] on the strings that
    [strftime_ymd] writes. *)
Definition read_ymd (s : pystr) : option Date.t :=
  match s with
  | [y1; y2; y3; y4; h1; m1; m2; h2; d1; d2] =>
    if ((h1 =? 45) && (h2 =? 45))%N
    then
      match dec_nat [y1; y2; y3; y4], dec_nat [m1; m2], dec_nat [d1; d2] with
      | Some y, Some m, Some d => Some (Date.mk y m d)
      | _, _, _ => None
      end
    else None
  | _ => None
  end.

(** [pad 4] and [pad 2] write digits that read back. *)
Definition pad4_reads (y : Z) : bool :=
  match pad 4 y with
  | [a; b; c; d] =>
    match dec_nat [a; b; c; d] with Some v => v =? y | None => false end
  | _ => false
  end.

Definition pad2_reads (m : Z) : bool :=
  match pad 2 m with
  | [a; b] => match dec_nat [a; b] with Some v => v =? m | None => false end
  | _ => false
  end.

(** The integers from [lo] up to, not including, [hi]. *)
Definition Z_range (lo hi : Z) : list Z :=
  map (fun k => lo + Z.of_nat k) (seq 0 (Z.to_nat (hi - lo))).

(** The commit [parse_git_log] builds from the four fields of a record. *)
Definition commit_of_fields {L : PyLib} (commit_hash email message : pystr)
    (date : DateTime.t) : CommitInfo.t :=
  CommitInfo.mk (lower commit_hash) (lower email) date (strip message) [] [].

(** The query of [parse_git_log]. *)
Definition log_query (run_git_command : Path.t -> list pystr -> bool * pystr)
    (repo_path : Path.t) (year : Z) : bool * pystr :=
  run_git_command repo_path
    [u "log"; u "--all";
     u "--after=" ++ (str_of_Z year ++ u "-01-01");
     u "--before=" ++ (str_of_Z year ++ u "-12-31") ++ u " 23:59:59";
     u "--format=%H%x00%ae%x00%aI%x00%B%x00%x00"].

(** A count field of a numstat line reads as [n]: the sentinel as 0, any
    other field as [int] reads it. *)
Definition reads_count {L : PyLib} (field : pystr) (n : Z) : Prop :=
  (field = SENTINEL /\ n = 0) \/ (field <> SENTINEL /\ py_int field = Some n).

(** The suffixes [LANGUAGE_MAP] sends to a language of
    [DEFAULT_EXCLUDE_LANGUAGES]. *)
Definition EXCLUDED_SUFFIXES : list pystr :=
  [u ".json"; u ".yaml"; u ".yml"; u ".xml"; u ".md"; u ".rst"].

(** The work types of the patterns that occur in a lowered message, one
    for every pattern that occurs, in the order of [work_patterns]. *)
Definition work_matches (msg_lower : pystr) : list pystr :=
  map snd (filter (fun entry => contains (fst entry) msg_lower) work_patterns).

(** The work types matched by the commit messages, in input order. *)
Definition work_labels {L : PyLib} (commits : list CommitInfo.t) : list pystr :=
  flat_map (fun c => work_matches (lower (CommitInfo.message c))) commits.

(** A CJK unified ideograph, the range the tokenizer names. *)
Definition is_cjk (c : N) : bool := ((19968 <=? c) && (c <=? 40959))%N.

(** The distinct elements of a list, in the order they are first met:
    what a set built by [add] holds. *)
Definition distinct {A} `{Eqb A} (l : list A) : pyset A :=
  fold_left (fun s x => set_add x s) l [].

(** The calendar date and the month of a commit. *)
Definition day_of (c : CommitInfo.t) : Date.t := date_of (CommitInfo.date c).

Definition month_of (c : CommitInfo.t) : Z := DateTime.month (CommitInfo.date c).

(** Saturday or Sunday. *)
Definition is_weekend (d : Date.t) : bool := 5 <=? weekday d.

(** The lines added to files whose language counts as code and is
    [language]. *)
Definition code_lines (exclude_languages : pyset pystr) (language : pystr)
    (files : list FileDiff.t) : Z :=
  sum_Z
    (map FileDiff.added_lines
       (filter
          (fun f =>
             match counts_as_code exclude_languages (FileDiff.language f) with
             | Some l => keq language l
             | None => false
             end)
          files)).

(** A dictionary of lists seen as the counter of their lengths. *)
Definition sizes {K A} (d : odict K (list A)) : odict K Z :=
  map (fun kv => (fst kv, len (snd kv))) d.

(** The commits that carry the label [name], in input order. *)
Definition commits_of (name : pystr) (commits : list CommitInfo.t)
    : list CommitInfo.t :=
  filter (fun c => keq name (CommitInfo.repo_name c)) commits.

(** The non-empty labels of the commits, in input order. *)
Definition labels_of (commits : list CommitInfo.t) : list pystr :=
  filter nonempty (map CommitInfo.repo_name commits).

(** The entry of a commit in the message list of its summary. *)
Definition message_entry (c : CommitInfo.t) : pystr * pystr :=
  (strftime_ymd_hm (CommitInfo.date c), CommitInfo.message c).

(** A date of the proleptic Gregorian calendar. *)
Definition valid_date (d : Date.t) : Prop :=
  1 <= Date.year d
  /\ 1 <= Date.month d <= 12
  /\ 1 <= Date.day d <= days_in_month (Date.year d) (Date.month d).

Definition valid_dateb (d : Date.t) : bool :=
  (1 <=? Date.year d)
  && (1 <=? Date.month d) && (Date.month d <=? 12)
  && (1 <=? Date.day d)
  && (Date.day d <=? days_in_month (Date.year d) (Date.month d)).

(** The month and the day that [fromordinal] reads off the day of the
    year, counted from 0: the estimate [(n + 50) >> 5] and its correction. *)
Definition month_and_day (leapyear : bool) (n : Z) : Z * Z :=
  let month := Z.shiftr (n + 50) 5 in
  let preceding :=
    table DAYS_BEFORE_MONTH month
    + (if (2 <? month) && leapyear then 1 else 0) in
  if n <? preceding
  then
    let month := month - 1 in
    let preceding :=
      preceding
      - (table DAYS_IN_MONTH month
         + (if (month =? 2) && leapyear then 1 else 0)) in
    (month, n - preceding + 1)
  else (month, n - preceding + 1).

(** [month_and_day] answers with a day of a month, the one that is [n]
    days after the first of January. *)
Definition month_and_day_ok (leapyear : bool) (n : Z) : bool :=
  let '(month, day) := month_and_day leapyear n in
  (1 <=? month) && (month <=? 12) && (1 <=? day)
  && (day <=? (if (month =? 2) && leapyear then 29
               else table DAYS_IN_MONTH month))
  && (table DAYS_BEFORE_MONTH month
      + (if (2 <? month) && leapyear then 1 else 0) + day =? n + 1).

(** What the scan of [calculate_streak] keeps true of
    [(dates[i-1], current, max_streak)] when it has read the dates with the
    ordinals [seen], in increasing order: [current] is the length of the
    run of consecutive days that ends at the last date read, and
    [max_streak] the length of the longest run read so far. *)
Definition streak_inv (seen : list Z) (st : Date.t * Z * Z) : Prop :=
  let '(prev, current, max_streak) := st in
  let last := toordinal prev in
  In last seen
  /\ (forall x, In x seen -> x <= last)
  /\ (forall k, 0 <= k < current -> In (last - k) seen)
  /\ ~ In (last - current) seen
  /\ 1 <= current <= max_streak
  /\ max_streak <= len seen
  /\ (exists n, forall k, 0 <= k < max_streak -> In (n + k) seen)
  /\ (forall n j, (forall k, 0 <= k < j -> In (n + k) seen) -> j <= max_streak).

(** Case analysis on a month, and the reading of the calendar tables at a
    given month. *)
Ltac each_month m H :=
  let C := fresh "C" in
  assert (C : m = 1 \/ m = 2 \/ m = 3 \/ m = 4 \/ m = 5 \/ m = 6
              \/ m = 7 \/ m = 8 \/ m = 9 \/ m = 10 \/ m = 11 \/ m = 12)
    by lia;
  clear H;
  repeat (destruct C as [C|C]; [subst m|]); [..|subst m].

Ltac read_tables :=
  repeat match goal with
         | |- context [table ?l ?m] =>
           let v := eval vm_compute in (table l m) in
           change (table l m) with v
         | |- context [Z.eqb (Zpos ?a) (Zpos ?b)] =>
           let v := eval vm_compute in (Z.eqb (Zpos a) (Zpos b)) in
           change (Z.eqb (Zpos a) (Zpos b)) with v
         | |- context [Z.ltb (Zpos ?a) (Zpos ?b)] =>
           let v := eval vm_compute in (Z.ltb (Zpos a) (Zpos b)) in
           change (Z.ltb (Zpos a) (Zpos b)) with v
         end;
  cbv beta iota delta [andb].


(** The query of [get_all_contributor_emails] and that of
    [get_user_emails]. *)
Definition contributors_query
    (run_git_command : Path.t -> list pystr -> bool * pystr)
    (repo_path : Path.t) : bool * pystr :=
  run_git_command repo_path [u "log"; u "--all"; u "--format=%ae"].

Definition user_query
    (run_git_command : Path.t -> list pystr -> bool * pystr)
    (repo_path : Path.t) : bool * pystr :=
  run_git_command repo_path [u "config"; u "user.email"].


(** What it is for the snapshot [s] to count every one of [commits],
    whatever their dates and their labels. *)
Definition counts_every_commit {L : PyLib} (today : Date.t)
    (exclude_languages : pyset pystr) (commits : list CommitInfo.t)
    (s : YearStats.t) : Prop :=
  let files := all_files commits in
  let days := map day_of commits in
  let months := map month_of commits in
  let ordinals := map toordinal days in
  let toks := tokens commits in
  let ws := YearStats.commit_words s in
  (* the totals *)
  YearStats.total_commits s = len commits
  /\ YearStats.total_added_lines s = sum_Z (map FileDiff.added_lines files)
  /\ YearStats.total_deleted_lines s
     = sum_Z (map FileDiff.deleted_lines files)
  (* the language table: its keys and its values *)
  /\ (forall l,
         In l (map fst (YearStats.languages s))
         <-> l <> [] /\ ~ In l exclude_languages
             /\ exists f, In f files /\ FileDiff.language f = Some l)
  /\ (forall l,
         od_get l (YearStats.languages s) 0
         = code_lines exclude_languages l files)
  (* the calendar tables *)
  /\ (forall k,
         od_get k (YearStats.heatmap s) 0
         = occurrences k (map day_of_year commits))
  /\ (forall k,
         od_get k (YearStats.commits_by_hour s) 0
         = occurrences k (map hour_of commits))
  /\ (forall k,
         od_get k (YearStats.commits_by_weekday s) 0
         = occurrences k (map weekday_of commits))
  /\ (forall k,
         In k (map fst (YearStats.heatmap s))
         <-> In k (map day_of_year commits))
  /\ (forall k,
         In k (map fst (YearStats.commits_by_hour s))
         <-> In k (map hour_of commits))
  /\ (forall k,
         In k (map fst (YearStats.commits_by_weekday s))
         <-> In k (map weekday_of commits))
  (* the day counts *)
  /\ YearStats.active_days s = len (distinct days)
  /\ YearStats.weekend_days s = len (distinct (filter is_weekend days))
  (* the busiest month and the busiest day *)
  /\ (commits <> [] ->
      exists m,
        YearStats.most_active_month s = Some m
        /\ In m months
        /\ YearStats.most_active_month_commits s = occurrences m months
        /\ forall m', occurrences m' months <= occurrences m months)
  /\ (commits <> [] ->
      exists d,
        YearStats.most_active_date s = Some (strftime_ymd d)
        /\ In d days
        /\ YearStats.most_active_date_commits s = occurrences d days
        /\ forall d', occurrences d' days <= occurrences d days)
  (* the streaks, over the days of all the commits *)
  /\ ((forall d, In d days -> valid_date d) ->
      valid_date today ->
      (commits <> [] ->
       1 <= YearStats.max_streak s
       /\ exists first_day,
            forall k,
              0 <= k < YearStats.max_streak s -> In (first_day + k) ordinals)
      /\ (forall first_day length,
             (forall k, 0 <= k < length -> In (first_day + k) ordinals) ->
             length <= YearStats.max_streak s)
      /\ 0 <= YearStats.current_streak s <= YearStats.max_streak s
      /\ (forall k,
             0 <= k < YearStats.current_streak s ->
             In (toordinal today - k) ordinals)
      /\ (YearStats.current_streak s = toordinal today
          \/ ~ In (toordinal today - YearStats.current_streak s) ordinals))
  (* the keywords: every token is ranked with its count, or outranked *)
  /\ (List.length ws <= 20)%nat
  /\ (forall w n, In (w, n) ws -> n = occurrences w toks /\ 0 < n)
  /\ (forall w,
         In w toks ->
         In (w, occurrences w toks) ws
         \/ (List.length ws = 20%nat
             /\ forall w' n', In (w', n') ws -> occurrences w toks <= n'))
  (* the summaries: one for each non-empty label, of its commits *)
  /\ (forall name,
         In name (map RepoSummary.name (YearStats.repo_summaries s))
         <-> name <> [] /\ In name (map CommitInfo.repo_name commits))
  /\ (forall r,
         In r (YearStats.repo_summaries s) ->
         let own := commits_of (RepoSummary.name r) commits in
         RepoSummary.commits r = len own
         /\ RepoSummary.added_lines r
            = sum_Z (map FileDiff.added_lines (all_files own))
         /\ RepoSummary.deleted_lines r
            = sum_Z (map FileDiff.deleted_lines (all_files own)))
  /\ YearStats.repos_count s = len (distinct (labels_of commits))
  (* the badges, computed from the fields above *)
  /\ (commits <> [] ->
      YearStats.achievements s = calculate_achievements s).

(* ------------------------------------------------------------------ *)
(** * Properties *)

(** *** Equality tests *)

#[export] Instance EqbLaws_N : @EqbLaws N Eqb_N :=
  Build_EqbLaws N Eqb_N N.eqb_eq.
#[export] Instance EqbLaws_Z : @EqbLaws Z Eqb_Z :=
  Build_EqbLaws Z Eqb_Z Z.eqb_eq.

Lemma list_eqb_spec {A} `{EqbLaws A} (l1 l2 : list A) :
  list_eqb l1 l2 = true <-> l1 = l2.
Proof.
  revert l2; induction l1 as [|a r1 IH]; intros [|b r2]; simpl;
    try (split; congruence).
  rewrite andb_true_iff, keq_spec, IH. split.
  - intros [-> ->]; reflexivity.
  - intros E; injection E; auto.
Qed.

#[export] Instance EqbLaws_list {A} `{EqbLaws A}
  : @EqbLaws (list A) Eqb_list :=
  Build_EqbLaws (list A) Eqb_list list_eqb_spec.

Lemma date_eqb_spec (a b : Date.t) : date_eqb a b = true <-> a = b.
Proof.
  destruct a as [y m d], b as [y' m' d']; unfold date_eqb; simpl.
  rewrite !andb_true_iff, !Z.eqb_eq. split.
  - intros [[-> ->] ->]; reflexivity.
  - intros E; injection E; auto.
Qed.

#[export] Instance EqbLaws_date : @EqbLaws Date.t Eqb_date :=
  Build_EqbLaws Date.t Eqb_date date_eqb_spec.

(** *** Dates as keys *)

Lemma Z_range_In lo hi z : lo <= z < hi -> In z (Z_range lo hi).
Proof.
  intros Hz. unfold Z_range. apply in_map_iff.
  exists (Z.to_nat (z - lo)). split.
  - lia.
  - apply in_seq. lia.
Qed.

Lemma pad4_reads_years : forallb pad4_reads (Z_range 1000 10000) = true.
Proof. vm_compute. reflexivity. Qed.

Lemma pad2_reads_all : forallb pad2_reads (Z_range 0 100) = true.
Proof. vm_compute. reflexivity. Qed.

(** The rendering of a date with a four-digit year reads back as the date:
    the strings the source keeps as keys stand for the dates one to one. *)
Lemma read_strftime_ymd d :
  1000 <= Date.year d <= 9999 ->
  0 <= Date.month d <= 99 ->
  0 <= Date.day d <= 99 ->
  read_ymd (strftime_ymd d) = Some d.
Proof.
  destruct d as [y m dd]. cbn [Date.year Date.month Date.day].
  intros Hy Hm Hd. unfold strftime_ymd. cbn [Date.year Date.month Date.day].
  pose proof (proj1 (forallb_forall _ _) pad4_reads_years y
                (Z_range_In 1000 10000 y ltac:(lia))) as Ey.
  pose proof (proj1 (forallb_forall _ _) pad2_reads_all m
                (Z_range_In 0 100 m ltac:(lia))) as Em.
  pose proof (proj1 (forallb_forall _ _) pad2_reads_all dd
                (Z_range_In 0 100 dd ltac:(lia))) as Ed.
  unfold pad4_reads in Ey. unfold pad2_reads in Em, Ed.
  destruct (pad 4 y) as [|a [|b [|c [|e [|? ?]]]]]; try discriminate Ey.
  destruct (pad 2 m) as [|m1 [|m2 [|? ?]]]; try discriminate Em.
  destruct (pad 2 dd) as [|d1 [|d2 [|? ?]]]; try discriminate Ed.
  change (u "-") with [45%N]. cbn [app read_ymd N.eqb Pos.eqb andb].
  destruct (dec_nat [a; b; c; e]) as [vy|]; [|discriminate Ey].
  destruct (dec_nat [m1; m2]) as [vm|]; [|discriminate Em].
  destruct (dec_nat [d1; d2]) as [vd|]; [|discriminate Ed].
  apply Z.eqb_eq in Ey, Em, Ed. subst. reflexivity.
Qed.

Lemma strftime_ymd_one_to_one d1 d2 :
  1000 <= Date.year d1 <= 9999 -> 0 <= Date.month d1 <= 99 ->
  0 <= Date.day d1 <= 99 ->
  1000 <= Date.year d2 <= 9999 -> 0 <= Date.month d2 <= 99 ->
  0 <= Date.day d2 <= 99 ->
  strftime_ymd d1 = strftime_ymd d2 -> d1 = d2.
Proof.
  intros Hy1 Hm1 Hd1 Hy2 Hm2 Hd2 E.
  pose proof (read_strftime_ymd d1 Hy1 Hm1 Hd1) as R1.
  pose proof (read_strftime_ymd d2 Hy2 Hm2 Hd2) as R2.
  rewrite E, R2 in R1. now injection R1.
Qed.

Section Proofs.
Context {L : PyLib}.
Variable run_git_command : Path.t -> list pystr -> bool * pystr.

(** *** The loops of [analyze_commits] as folds *)

Lemma file_fold_added ex fs a d l :
  fst (fst (fold_left (file_step ex) fs (a, d, l)))
  = a + sum_Z (map FileDiff.added_lines fs).
Proof.
  revert a d l; induction fs as [|f fs IH]; intros a d l; simpl.
  - lia.
  - rewrite IH. lia.
Qed.

Lemma file_fold_deleted ex fs a d l :
  snd (fst (fold_left (file_step ex) fs (a, d, l)))
  = d + sum_Z (map FileDiff.deleted_lines fs).
Proof.
  revert a d l; induction fs as [|f fs IH]; intros a d l; simpl.
  - lia.
  - rewrite IH. lia.
Qed.

Lemma file_fold_languages ex fs a d a' d' l :
  snd (fold_left (file_step ex) fs (a, d, l))
  = snd (fold_left (file_step ex) fs (a', d', l)).
Proof.
  revert a d a' d' l; induction fs as [|f fs IH]; intros; simpl.
  - reflexivity.
  - apply IH.
Qed.

Lemma commit_step_lines ex a c :
  lines_of (commit_step ex a c)
  = fold_left (file_step ex) (CommitInfo.files c) (lines_of a).
Proof.
  unfold commit_step, lines_of.
  destruct (fold_left (file_step ex) (CommitInfo.files c) _) as [[x y] z].
  reflexivity.
Qed.

Lemma commit_fold_lines ex cs a :
  lines_of (fold_left (commit_step ex) cs a)
  = fold_left (file_step ex) (all_files cs) (lines_of a).
Proof.
  revert a; induction cs as [|c cs IH]; intros a; simpl.
  - reflexivity.
  - unfold all_files in *; simpl. rewrite IH, commit_step_lines, fold_left_app.
    reflexivity.
Qed.

Lemma commit_step_count ex a c :
  Tally.total_commits (commit_step ex a c) = Tally.total_commits a + 1.
Proof.
  unfold commit_step.
  destruct (fold_left (file_step ex) (CommitInfo.files c) _) as [[x y] z].
  reflexivity.
Qed.

Lemma commit_fold_count ex cs a :
  Tally.total_commits (fold_left (commit_step ex) cs a)
  = Tally.total_commits a + len cs.
Proof.
  revert a; induction cs as [|c cs IH]; intros a.
  - unfold len; simpl. lia.
  - simpl fold_left. rewrite IH, commit_step_count.
    unfold len; simpl List.length. lia.
Qed.

(** The snapshot of a non-empty input, field by field. *)
Lemma analyze_commits_cons today c cs year exclude_languages :
  let commits := c :: cs in
  let ex := excluded exclude_languages in
  let a := fold_left (commit_step ex) commits Tally.init in
  let most_active := py_max (fun x => len (snd x)) (Tally.commits_by_date a) in
  let most_active_month := py_max snd (Tally.commits_by_month a) in
  let streaks := calculate_streak today (Tally.active_dates a) year in
  let repo_summaries := generate_repo_summaries commits ex in
  let stats :=
    YearStats.mk year
      (Tally.total_commits a) (Tally.total_added_lines a)
      (Tally.total_deleted_lines a)
      (len (Tally.active_dates a))
      (Tally.heatmap a) (Tally.languages a)
      (Tally.commits_by_hour a) (Tally.commits_by_weekday a)
      (len (Tally.weekend_dates a))
      (option_map (fun x => strftime_ymd (fst x)) most_active)
      (match most_active with Some x => len (snd x) | None => 0 end)
      (option_map fst most_active_month)
      (match most_active_month with Some x => snd x | None => 0 end)
      (fst streaks) (snd streaks)
      (most_common 20 (Tally.word_counter a))
      (len repo_summaries) []
      repo_summaries [] in
  analyze_commits today commits year exclude_languages
  = YearStats.with_achievements (calculate_achievements stats) stats.
Proof.
  intros commits ex a most_active most_active_month streaks repo_summaries.
  unfold analyze_commits.
  change (negb (nonempty (c :: cs))) with false. cbv iota.
  fold (excluded exclude_languages). fold ex. fold commits. fold a.
  fold streaks. destruct streaks as [m k]. reflexivity.
Qed.

Lemma analyze_commits_lines today commits year exclude_languages :
  let s := analyze_commits today commits year exclude_languages in
  (YearStats.total_added_lines s, YearStats.total_deleted_lines s,
   YearStats.languages s)
  = fold_left (file_step (excluded exclude_languages)) (all_files commits)
      (0, 0, []).
Proof.
  destruct commits as [|c cs].
  - reflexivity.
  - cbv zeta. rewrite analyze_commits_cons. cbv zeta.
    unfold YearStats.with_achievements; cbn [YearStats.total_added_lines
      YearStats.total_deleted_lines YearStats.languages].
    exact (commit_fold_lines _ (c :: cs) Tally.init).
Qed.

Lemma analyze_commits_count today commits year exclude_languages :
  YearStats.total_commits
    (analyze_commits today commits year exclude_languages)
  = len commits.
Proof.
  destruct commits as [|c cs].
  - reflexivity.
  - rewrite analyze_commits_cons. cbv zeta.
    unfold YearStats.with_achievements; cbn [YearStats.total_commits].
    rewrite commit_fold_count. reflexivity.
Qed.

(** C5: the snapshot's line totals are the sums of the added and of the
    deleted lines over every file change of every commit of the input. *)
Theorem line_totals_are_sums today commits year exclude_languages :
  let s := analyze_commits today commits year exclude_languages in
  YearStats.total_added_lines s
  = sum_Z (map FileDiff.added_lines (all_files commits))
  /\ YearStats.total_deleted_lines s
     = sum_Z (map FileDiff.deleted_lines (all_files commits)).
Proof.
  intros s.
  pose proof (analyze_commits_lines today commits year exclude_languages) as E.
  cbv zeta in E. fold s in E.
  split.
  - apply (f_equal (fun t => fst (fst t))) in E. cbn [fst] in E.
    rewrite E, file_fold_added. lia.
  - apply (f_equal (fun t => snd (fst t))) in E. cbn [fst snd] in E.
    rewrite E, file_fold_deleted. lia.
Qed.

(** The walk back from today ends on a day without commits whenever it
    returns less than its fuel, and then more fuel changes nothing. *)
Lemma walk_back_exits fuel more check_date active_dates :
  walk_back fuel check_date active_dates < Z.of_nat fuel ->
  walk_back (fuel + more) check_date active_dates
  = walk_back fuel check_date active_dates.
Proof.
  revert check_date; induction fuel as [|fuel IH]; intros check_date Hlt.
  - simpl in Hlt. lia.
  - cbn [walk_back Nat.add] in *.
    destruct (set_in check_date active_dates); [|reflexivity].
    rewrite IH; [reflexivity|lia].
Qed.

Lemma max_streak_ignores_clock t1 t2 dates y1 y2 :
  fst (calculate_streak t1 dates y1) = fst (calculate_streak t2 dates y2).
Proof.
  unfold calculate_streak. destruct (negb (nonempty dates)); reflexivity.
Qed.

(** Two calls on the same commits with different years differ in the
    [year] field alone, and the streak computation does not read its year
    argument. *)
Lemma year_labels_only today commits y1 y2 exclude_languages :
  analyze_commits today commits y1 exclude_languages
  = YearStats.with_year y1
      (analyze_commits today commits y2 exclude_languages)
  /\ (forall dates,
        calculate_streak today dates y1 = calculate_streak today dates y2)
  /\ YearStats.total_commits
       (analyze_commits today commits y1 exclude_languages)
     = len commits.
Proof.
  split; [|split].
  - destruct commits as [|c cs]; [reflexivity|].
    rewrite !analyze_commits_cons. reflexivity.
  - reflexivity.
  - apply analyze_commits_count.
Qed.

(** C3, as the code has it: the snapshot is a function of the commits, the
    year and the date the clock shows when [calculate_streak] runs; two
    evaluations at different dates agree on every field but
    [current_streak]. *)
Theorem clock_only_moves_current_streak t1 t2 commits year exclude_languages :
  analyze_commits t1 commits year exclude_languages
  = YearStats.with_current_streak
      (YearStats.current_streak
         (analyze_commits t1 commits year exclude_languages))
      (analyze_commits t2 commits year exclude_languages).
Proof.
  destruct commits as [|c cs]; [reflexivity|].
  rewrite !analyze_commits_cons. cbv zeta.
  set (a := fold_left _ (c :: cs) Tally.init).
  unfold YearStats.with_current_streak, YearStats.with_achievements.
  cbn [YearStats.year YearStats.total_commits YearStats.total_added_lines
       YearStats.total_deleted_lines YearStats.active_days YearStats.heatmap
       YearStats.languages YearStats.commits_by_hour
       YearStats.commits_by_weekday YearStats.weekend_days
       YearStats.most_active_date YearStats.most_active_date_commits
       YearStats.most_active_month YearStats.most_active_month_commits
       YearStats.max_streak YearStats.current_streak YearStats.commit_words
       YearStats.repos_count YearStats.repos_stats YearStats.repo_summaries
       YearStats.achievements].
  rewrite (max_streak_ignores_clock t1 t2 (Tally.active_dates a) year year).
  reflexivity.
Qed.

(** *** Sets and excluded languages *)

Lemma set_in_In {A} `{EqbLaws A} (x : A) (s : pyset A) :
  set_in x s = true <-> In x s.
Proof.
  unfold set_in. rewrite existsb_exists. split.
  - intros [y [Hy E]]. apply keq_spec in E. subst. exact Hy.
  - intros Hx. exists x. split; [exact Hx|]. apply keq_spec. reflexivity.
Qed.

Lemma set_in_false {A} `{EqbLaws A} (x : A) (s : pyset A) :
  set_in x s = false <-> ~ In x s.
Proof.
  rewrite <- set_in_In. destruct (set_in x s); split; congruence.
Qed.

Lemma sum_Z_app l1 l2 : sum_Z (l1 ++ l2) = sum_Z l1 + sum_Z l2.
Proof.
  induction l1 as [|x l1 IH]; simpl; lia.
Qed.

Lemma all_files_app cs1 cs2 :
  all_files (cs1 ++ cs2) = all_files cs1 ++ all_files cs2.
Proof.
  unfold all_files. apply flat_map_app.
Qed.

Lemma file_step_excluded ex a d l f name :
  FileDiff.language f = Some name -> In name ex ->
  file_step ex (a, d, l) f
  = (a + FileDiff.added_lines f, d + FileDiff.deleted_lines f, l).
Proof.
  intros Hl Hin. unfold file_step, counts_as_code. rewrite Hl.
  apply set_in_In in Hin. rewrite Hin.
  rewrite andb_false_r. reflexivity.
Qed.

(** A file change in an excluded language adds its lines to the totals of
    the fold and leaves the language table as it would be without it. *)
Lemma file_fold_excluded ex F1 F2 f name :
  FileDiff.language f = Some name -> In name ex ->
  let t := fold_left (file_step ex) (F1 ++ f :: F2) (0, 0, []) in
  let t' := fold_left (file_step ex) (F1 ++ F2) (0, 0, []) in
  snd t = snd t'
  /\ fst (fst t) = fst (fst t') + FileDiff.added_lines f
  /\ snd (fst t) = snd (fst t') + FileDiff.deleted_lines f.
Proof.
  intros Hl Hin t t'. subst t t'. split; [|split].
  - rewrite !fold_left_app. simpl fold_left.
    destruct (fold_left (file_step ex) F1 (0, 0, [])) as [[a d] l].
    rewrite (file_step_excluded ex a d l f name Hl Hin).
    apply file_fold_languages.
  - rewrite !file_fold_added, !map_app, !sum_Z_app. simpl. lia.
  - rewrite !file_fold_deleted, !map_app, !sum_Z_app. simpl. lia.
Qed.

(** C7: a file change whose language is one of Markdown, JSON, YAML, XML
    and reStructuredText adds its added and deleted lines to the snapshot's
    totals and leaves the [languages] mapping as it is without that file
    change. *)
Theorem excluded_language_counts_lines_only
    today year cs1 c cs2 fs1 f fs2 name :
  FileDiff.language f = Some name ->
  In name DEFAULT_EXCLUDE_LANGUAGES ->
  CommitInfo.files c = fs1 ++ f :: fs2 ->
  let s := analyze_commits today (cs1 ++ c :: cs2) year None in
  let s' :=
    analyze_commits today (cs1 ++ with_files (fs1 ++ fs2) c :: cs2) year None in
  YearStats.languages s = YearStats.languages s'
  /\ YearStats.total_added_lines s
     = YearStats.total_added_lines s' + FileDiff.added_lines f
  /\ YearStats.total_deleted_lines s
     = YearStats.total_deleted_lines s' + FileDiff.deleted_lines f.
Proof.
  intros Hl Hin Hfiles s s'.
  pose proof (analyze_commits_lines today (cs1 ++ c :: cs2) year None) as E.
  pose proof (analyze_commits_lines today
                (cs1 ++ with_files (fs1 ++ fs2) c :: cs2) year None) as E'.
  cbv zeta in E, E'. fold s in E. fold s' in E'.
  rewrite all_files_app in E, E'.
  change (all_files (c :: cs2)) with (CommitInfo.files c ++ all_files cs2) in E.
  change (all_files (with_files (fs1 ++ fs2) c :: cs2))
    with ((fs1 ++ fs2) ++ all_files cs2) in E'.
  rewrite Hfiles in E.
  replace (all_files cs1 ++ (fs1 ++ f :: fs2) ++ all_files cs2)
    with ((all_files cs1 ++ fs1) ++ f :: (fs2 ++ all_files cs2)) in E
    by (rewrite <- !app_assoc; reflexivity).
  replace (all_files cs1 ++ (fs1 ++ fs2) ++ all_files cs2)
    with ((all_files cs1 ++ fs1) ++ (fs2 ++ all_files cs2)) in E'
    by (rewrite <- !app_assoc; reflexivity).
  destruct (file_fold_excluded (excluded None) (all_files cs1 ++ fs1)
              (fs2 ++ all_files cs2) f name Hl Hin) as [H1 [H2 H3]].
  rewrite <- E, <- E' in H1, H2, H3. cbn [fst snd] in H1, H2, H3.
  auto.
Qed.

(** *** The numstat loop *)

Lemma diff_step_appends files line :
  diff_step files line = files ++ diff_step [] line.
Proof.
  unfold diff_step.
  destruct (negb (nonempty line)); [now rewrite app_nil_r|].
  destruct (str_split [TAB] line) as [|a [|d [|n rest]]];
    try now rewrite app_nil_r.
  destruct (count_field a), (count_field d); try now rewrite app_nil_r.
  reflexivity.
Qed.

Lemma diff_fold_appends lines files :
  fold_left diff_step lines files = files ++ numstat_lines lines.
Proof.
  unfold numstat_lines. revert files.
  induction lines as [|line lines IH]; intros files; simpl.
  - now rewrite app_nil_r.
  - rewrite IH, (IH (diff_step [] line)), (diff_step_appends files line).
    now rewrite app_assoc.
Qed.

Lemma numstat_lines_split l1 line l2 :
  numstat_lines (l1 ++ line :: l2)
  = numstat_lines l1 ++ diff_step [] line ++ numstat_lines l2.
Proof.
  unfold numstat_lines at 1. rewrite fold_left_app. simpl fold_left.
  rewrite diff_fold_appends, diff_step_appends.
  fold (numstat_lines l1). now rewrite <- app_assoc.
Qed.

Lemma numstat_lines_app l1 l2 :
  numstat_lines (l1 ++ l2) = numstat_lines l1 ++ numstat_lines l2.
Proof.
  unfold numstat_lines at 1. rewrite fold_left_app, diff_fold_appends.
  reflexivity.
Qed.

Lemma diff_step_binary line filename rest :
  str_split [TAB] line = SENTINEL :: SENTINEL :: filename :: rest ->
  diff_step [] line = [FileDiff.mk filename (get_language filename) 0 0 0].
Proof.
  intros E. unfold diff_step.
  destruct line as [|ch line]; [discriminate E|].
  cbn [nonempty negb]. rewrite E. reflexivity.
Qed.

Lemma diff_step_short line :
  (List.length (str_split [TAB] line) < 3)%nat -> diff_step [] line = [].
Proof.
  intros Hlen. unfold diff_step.
  destruct (negb (nonempty line)); [reflexivity|].
  destruct (str_split [TAB] line) as [|a [|d [|n rest]]]; try reflexivity.
  simpl in Hlen. lia.
Qed.

Lemma count_field_not_a_number field :
  field <> SENTINEL -> py_int field = None -> count_field field = None.
Proof.
  intros Hs Hi. unfold count_field.
  destruct (keq field SENTINEL) eqn:E; [|exact Hi].
  apply keq_spec in E. contradiction.
Qed.

Lemma diff_step_not_a_number line added deleted filename rest :
  str_split [TAB] line = added :: deleted :: filename :: rest ->
  (added <> SENTINEL /\ py_int added = None)
  \/ (deleted <> SENTINEL /\ py_int deleted = None) ->
  diff_step [] line = [].
Proof.
  intros E Hbad. unfold diff_step.
  destruct (negb (nonempty line)); [reflexivity|].
  rewrite E.
  destruct Hbad as [[Hs Hi]|[Hs Hi]];
    rewrite (count_field_not_a_number _ Hs Hi).
  - reflexivity.
  - destruct (count_field added); reflexivity.
Qed.

Lemma parse_git_diff_lines repo_path commit_hash output :
  numstat_query run_git_command repo_path commit_hash = (true, output) ->
  parse_git_diff run_git_command repo_path commit_hash
  = numstat_lines (str_split [LF] (strip output)).
Proof.
  intros Hq. unfold parse_git_diff. rewrite Hq.
  destruct (strip output) as [|ch s]; reflexivity.
Qed.

(** C8: a numstat line whose two counts are the binary sentinel yields a
    file change with 0 added and 0 deleted lines, in its place in the
    commit's list; a line of fewer than three fields, and a line with a
    count that is neither the sentinel nor a number, yield nothing. *)
Theorem numstat_binary_kept_malformed_skipped
    repo_path commit_hash output l1 line l2 :
  numstat_query run_git_command repo_path commit_hash = (true, output) ->
  str_split [LF] (strip output) = l1 ++ line :: l2 ->
  let files := parse_git_diff run_git_command repo_path commit_hash in
  (forall filename rest,
      str_split [TAB] line = SENTINEL :: SENTINEL :: filename :: rest ->
      files
      = numstat_lines l1
        ++ FileDiff.mk filename (get_language filename) 0 0 0
        :: numstat_lines l2)
  /\ ((List.length (str_split [TAB] line) < 3)%nat ->
      files = numstat_lines (l1 ++ l2))
  /\ (forall added deleted filename rest,
         str_split [TAB] line = added :: deleted :: filename :: rest ->
         (added <> SENTINEL /\ py_int added = None)
         \/ (deleted <> SENTINEL /\ py_int deleted = None) ->
         files = numstat_lines (l1 ++ l2)).
Proof.
  intros Hq Hlines files. subst files.
  rewrite (parse_git_diff_lines _ _ _ Hq), Hlines, numstat_lines_split.
  split; [|split].
  - intros filename rest E. rewrite (diff_step_binary _ _ _ E). reflexivity.
  - intros Hlen. rewrite (diff_step_short _ Hlen), numstat_lines_app.
    reflexivity.
  - intros added deleted filename rest E Hbad.
    rewrite (diff_step_not_a_number _ _ _ _ _ E Hbad), numstat_lines_app.
    reflexivity.
Qed.

(** *** Deduplication by hash *)

Lemma set_add_In {A} `{EqbLaws A} (x y : A) (s : pyset A) :
  In y (set_add x s) <-> y = x \/ In y s.
Proof.
  unfold set_add. destruct (set_in x s) eqn:E.
  - apply set_in_In in E. split; [auto|]. intros [->|Hy]; assumption.
  - rewrite in_app_iff. simpl. split.
    + intros [Hy|[->|[]]]; auto.
    + intros [->|Hy]; auto.
Qed.

Lemma set_add_new {A} `{EqbLaws A} (x : A) (s : pyset A) :
  set_in x s = false -> set_add x s = s ++ [x].
Proof.
  intros E. unfold set_add. now rewrite E.
Qed.

Lemma NoDup_snoc {A} (l : list A) (x : A) :
  NoDup l -> ~ In x l -> NoDup (l ++ [x]).
Proof.
  intros Hl Hx. apply NoDup_app; [exact Hl|repeat constructor; auto|].
  intros a Ha [<-|[]]. contradiction.
Qed.

Lemma log_step_inv emails st record :
  log_inv st -> log_inv (log_step emails st record).
Proof.
  intros Hinv. unfold log_step. destruct st as [commits seen].
  destruct (negb (nonempty (strip record))); [exact Hinv|].
  destruct (splitn [NUL] 3 (strip record)) as [|h [|e [|d [|m [|x r]]]]];
    try exact Hinv.
  destruct (nonempty emails && negb (set_in (lower e) emails));
    [exact Hinv|].
  destruct (set_in (lower h) seen) eqn:Eseen; [exact Hinv|].
  destruct Hinv as [Hnd Hsub]; simpl in Hnd, Hsub.
  destruct (fromisoformat _) as [date|]; unfold log_inv; simpl.
  - rewrite map_app; simpl. split.
    + apply NoDup_snoc; [exact Hnd|].
      intros Hin. apply Hsub in Hin. apply set_in_false in Eseen.
      contradiction.
    + intros k Hk. apply set_add_In. apply in_app_iff in Hk.
      destruct Hk as [Hk|[<-|[]]]; auto.
  - split; [exact Hnd|]. intros k Hk. apply set_add_In. auto.
Qed.

Lemma log_fold_inv emails records st :
  log_inv st -> log_inv (fold_left (log_step emails) records st).
Proof.
  revert st; induction records as [|r records IH]; intros st Hinv; simpl.
  - exact Hinv.
  - apply IH, log_step_inv, Hinv.
Qed.

(** Within one repository no hash is emitted twice. *)
Lemma parse_git_log_NoDup repo_path year emails :
  NoDup (map CommitInfo.hash
           (parse_git_log run_git_command repo_path year emails)).
Proof.
  unfold parse_git_log.
  destruct (run_git_command repo_path _) as [success output].
  destruct (negb success || negb (nonempty (strip output))).
  - constructor.
  - apply (log_fold_inv emails (str_split [NUL; NUL] output) ([], [])).
    split; [constructor|]. intros h [].
Qed.

Lemma with_repo_hash repo commit :
  CommitInfo.hash (with_repo run_git_command repo commit)
  = CommitInfo.hash commit.
Proof. reflexivity. Qed.

Lemma fresh_snoc hashes h c :
  CommitInfo.hash c <> h -> fresh (hashes ++ [h]) c = fresh hashes c.
Proof.
  intros Hne. unfold fresh, set_in. rewrite existsb_app. cbn [existsb].
  destruct (keq (CommitInfo.hash c) h) eqn:E.
  - apply keq_spec in E. contradiction.
  - now rewrite !orb_false_r.
Qed.

(** The inner loop of [analyze_repos] keeps, of one repository's commits,
    those whose hash no earlier repository has brought. *)
Lemma repo_commit_fold repo cs all :
  NoDup (map CommitInfo.hash cs) ->
  let kept :=
    all ++ map (with_repo run_git_command repo)
             (filter (fresh (map CommitInfo.hash all)) cs) in
  fold_left (repo_commit_step run_git_command repo) cs
    (all, map CommitInfo.hash all)
  = (kept, map CommitInfo.hash kept).
Proof.
  cbv zeta. revert all; induction cs as [|c cs IH]; intros all Hnd.
  - cbn. now rewrite app_nil_r.
  - inversion Hnd as [|h hs Hc Hcs]; subst.
    cbn [fold_left filter]. unfold repo_commit_step at 2.
    assert (Hfresh : fresh (map CommitInfo.hash all) c
                     = negb (set_in (CommitInfo.hash c)
                               (map CommitInfo.hash all)))
      by reflexivity.
    destruct (set_in (CommitInfo.hash c) (map CommitInfo.hash all)) eqn:E;
      rewrite Hfresh; cbn [negb].
    + apply IH, Hcs.
    + rewrite (set_add_new _ _ E).
      replace (map CommitInfo.hash all ++ [CommitInfo.hash c])
        with (map CommitInfo.hash (all ++ [with_repo run_git_command repo c]))
        by (now rewrite map_app).
      rewrite (IH _ Hcs).
      assert (Hf : filter
                     (fresh (map CommitInfo.hash
                               (all ++ [with_repo run_git_command repo c])))
                     cs
                   = filter (fresh (map CommitInfo.hash all)) cs).
      { apply filter_ext_in. intros c' Hc'. rewrite map_app.
        apply fresh_snoc. intros Heq. apply Hc.
        change (CommitInfo.hash (with_repo run_git_command repo c))
          with (CommitInfo.hash c) in Heq.
        rewrite <- Heq. now apply in_map. }
      rewrite Hf. cbn [map]. rewrite <- !app_assoc. reflexivity.
Qed.

Lemma repos_state_snoc repos repo year emails :
  repos_state run_git_command (repos ++ [repo]) year emails
  = fold_left (repo_commit_step run_git_command repo)
      (parse_git_log run_git_command repo year emails)
      (repos_state run_git_command repos year emails).
Proof.
  unfold repos_state. rewrite fold_left_app. reflexivity.
Qed.

Lemma repos_state_seen repos year emails :
  snd (repos_state run_git_command repos year emails)
  = map CommitInfo.hash (fst (repos_state run_git_command repos year emails)).
Proof.
  induction repos as [|repo repos IH] using rev_ind; [reflexivity|].
  rewrite repos_state_snoc.
  remember (repos_state run_git_command repos year emails) as st eqn:Est.
  clear Est. destruct st as [all seen]. simpl in IH. subst seen.
  pose proof (repo_commit_fold repo _ all
                (parse_git_log_NoDup repo year emails)) as H.
  cbv zeta in H.
  etransitivity; [exact (f_equal snd H)|].
  cbn [snd]. f_equal. symmetry. exact (f_equal fst H).
Qed.

(** One more repository adds the commits whose hash is new, and no other. *)
Lemma analyze_repos_snoc repos repo year emails :
  analyze_repos run_git_command (repos ++ [repo]) year emails
  = let earlier := analyze_repos run_git_command repos year emails in
    earlier
    ++ map (with_repo run_git_command repo)
         (filter (fresh (map CommitInfo.hash earlier))
            (parse_git_log run_git_command repo year emails)).
Proof.
  unfold analyze_repos. rewrite repos_state_snoc.
  pose proof (repos_state_seen repos year emails) as Hseen.
  remember (repos_state run_git_command repos year emails) as st eqn:Est.
  clear Est. destruct st as [all seen]. simpl in Hseen. subst seen.
  pose proof (repo_commit_fold repo _ all
                (parse_git_log_NoDup repo year emails)) as H.
  cbv zeta in H. exact (f_equal fst H).
Qed.

Lemma filter_fresh_NoDup hashes cs :
  NoDup (map CommitInfo.hash cs) ->
  NoDup (map CommitInfo.hash (filter (fresh hashes) cs)).
Proof.
  induction cs as [|c cs IH]; intros Hnd; simpl; [constructor|].
  inversion Hnd as [|h hs Hc Hcs]; subst.
  destruct (fresh hashes c); [|now apply IH].
  simpl. constructor; [|now apply IH].
  intros Hin. apply Hc. apply in_map_iff in Hin.
  destruct Hin as [c' [Heq Hc']]. apply filter_In in Hc'.
  rewrite <- Heq. apply in_map. tauto.
Qed.

Lemma analyze_repos_NoDup repos year emails :
  NoDup (map CommitInfo.hash
           (analyze_repos run_git_command repos year emails)).
Proof.
  induction repos as [|repo repos IH] using rev_ind; [constructor|].
  rewrite analyze_repos_snoc. cbv zeta. rewrite map_app, map_map.
  apply NoDup_app.
  - exact IH.
  - rewrite (map_ext _ CommitInfo.hash (with_repo_hash repo)).
    apply filter_fresh_NoDup, parse_git_log_NoDup.
  - intros h Hh Hin.
    rewrite (map_ext _ CommitInfo.hash (with_repo_hash repo)) in Hin.
    apply in_map_iff in Hin. destruct Hin as [c [Heq Hc]].
    apply filter_In in Hc. destruct Hc as [_ Hfresh].
    unfold fresh in Hfresh. apply negb_true_iff, set_in_false in Hfresh.
    subst h. contradiction.
Qed.

Lemma analyze_repos_covers repos year emails repo c :
  In repo repos ->
  In c (parse_git_log run_git_command repo year emails) ->
  In (CommitInfo.hash c)
     (map CommitInfo.hash (analyze_repos run_git_command repos year emails)).
Proof.
  induction repos as [|r repos IH] using rev_ind; intros Hrepo Hc.
  - destruct Hrepo.
  - rewrite analyze_repos_snoc. cbv zeta. rewrite map_app.
    apply in_app_iff.
    destruct (set_in (CommitInfo.hash c)
                (map CommitInfo.hash
                   (analyze_repos run_git_command repos year emails)))
      eqn:E.
    + left. now apply set_in_In.
    + apply in_app_iff in Hrepo. destruct Hrepo as [Hrepo|[->|[]]].
      * left. now apply IH.
      * right. rewrite map_map.
        rewrite (map_ext _ CommitInfo.hash (with_repo_hash repo)).
        apply in_map. apply filter_In. split; [exact Hc|].
        unfold fresh. now rewrite E.
Qed.

(** C1, as the code has it: the set of seen hashes of [analyze_repos] is
    shared by all repositories.  A hash counts once however many
    repositories hold it: the hashes of the aggregation input are pairwise
    distinct, every hash of every repository's log is among them, a later
    repository adds only the commits whose hash no earlier one brought, and
    the snapshot counts one commit per distinct hash. *)
Theorem commits_deduplicated_across_repositories repos year emails :
  let out := analyze_repos run_git_command repos year emails in
  NoDup (map CommitInfo.hash out)
  /\ (forall repo c,
         In repo repos ->
         In c (parse_git_log run_git_command repo year emails) ->
         In (CommitInfo.hash c) (map CommitInfo.hash out))
  /\ (forall earlier_repos repo,
         repos = earlier_repos ++ [repo] ->
         let earlier :=
           analyze_repos run_git_command earlier_repos year emails in
         out
         = earlier
           ++ map (with_repo run_git_command repo)
                (filter (fresh (map CommitInfo.hash earlier))
                   (parse_git_log run_git_command repo year emails)))
  /\ (forall today exclude_languages,
         YearStats.total_commits
           (analyze_commits today out year exclude_languages)
         = len out).
Proof.
  intros out. subst out. split; [|split; [|split]].
  - apply analyze_repos_NoDup.
  - intros repo c. apply analyze_repos_covers.
  - intros earlier_repos repo ->. apply analyze_repos_snoc.
  - intros today ex. apply analyze_commits_count.
Qed.

(** *** The volume rule among the achievement rules *)

Lemma volume_badges_app l1 l2 :
  volume_badges (l1 ++ l2) = volume_badges l1 ++ volume_badges l2.
Proof.
  apply filter_app.
Qed.

Lemma volume_badge_is_volume stats :
  volume_badges (volume_badge stats) = volume_badge stats.
Proof.
  unfold volume_badge. branch_on_guards; reflexivity.
Qed.

Lemma language_badge_not_volume stats :
  volume_badges (language_badge stats) = [].
Proof.
  unfold language_badge. branch_on_guards; reflexivity.
Qed.

Lemma hour_badge_not_volume stats :
  volume_badges (hour_badge stats) = [].
Proof.
  unfold hour_badge.
  destruct (py_max snd (YearStats.commits_by_hour stats)) as [[h n]|];
    [|reflexivity].
  branch_on_guards; reflexivity.
Qed.

Lemma weekend_badge_not_volume stats :
  volume_badges (weekend_badge stats) = [].
Proof.
  unfold weekend_badge. branch_on_guards; reflexivity.
Qed.

Lemma peak_badge_not_volume stats :
  volume_badges (peak_badge stats) = [].
Proof.
  unfold peak_badge. branch_on_guards; reflexivity.
Qed.

Lemma streak_badge_not_volume stats :
  volume_badges (streak_badge stats) = [].
Proof.
  unfold streak_badge. branch_on_guards; reflexivity.
Qed.

Lemma active_badge_not_volume stats :
  volume_badges (active_badge stats) = [].
Proof.
  unfold active_badge. branch_on_guards; reflexivity.
Qed.

Lemma net_badge_not_volume stats :
  volume_badges (net_badge stats) = [].
Proof.
  unfold net_badge. branch_on_guards; reflexivity.
Qed.

Lemma refactor_badge_not_volume stats :
  volume_badges (refactor_badge stats) = [].
Proof.
  unfold refactor_badge. branch_on_guards; reflexivity.
Qed.

(** The volume badges of a snapshot are what the volume rule emits. *)
Lemma volume_badges_of_achievements stats :
  volume_badges (calculate_achievements stats) = volume_badge stats.
Proof.
  unfold calculate_achievements. rewrite !volume_badges_app.
  rewrite volume_badge_is_volume, language_badge_not_volume,
    hour_badge_not_volume, weekend_badge_not_volume, peak_badge_not_volume,
    streak_badge_not_volume, active_badge_not_volume, net_badge_not_volume,
    refactor_badge_not_volume.
  now rewrite app_nil_r.
Qed.

(** C2, as the code has it: with 50 commits and 100000 added lines the
    score is 100500, above the 100000 of the top tier, so the one volume
    badge emitted is that of the top tier, and no other volume tier is. *)
Theorem volume_badge_at_score_100500 stats :
  YearStats.total_commits stats = 50 ->
  YearStats.total_added_lines stats = 100000 ->
  volume_badges (calculate_achievements stats)
  = [(u "卷王本王", u "代码量惊人，是团队的核心力量")].
Proof.
  intros Hc Ha. rewrite volume_badges_of_achievements.
  unfold volume_badge. rewrite Hc, Ha. reflexivity.
Qed.

(** *** Order of the elements of a list *)

Lemma before_In {A} (x y : A) l : before x y l -> In x l /\ In y l.
Proof.
  induction 1 as [l Hy|z l Hb [IHx IHy]]; simpl; auto.
Qed.

Lemma before_nth {A} (l : list A) i j x y :
  (i < j)%nat -> nth_error l i = Some x -> nth_error l j = Some y ->
  before x y l.
Proof.
  revert i j; induction l as [|a l IH]; intros i j Hij Hi Hj.
  - destruct i; discriminate.
  - destruct j as [|j]; [lia|]. destruct i as [|i]; simpl in Hi, Hj.
    + injection Hi as ->. apply before_here. eapply nth_error_In, Hj.
    + apply before_later. apply (IH i j); [lia|assumption|assumption].
Qed.

Lemma In_firstn {A} n (l : list A) x : In x (firstn n l) -> In x l.
Proof.
  revert n; induction l as [|a l IH]; intros [|n]; simpl; try tauto.
  intros [->|H]; eauto.
Qed.

Lemma before_firstn {A} n (l : list A) x y :
  before x y (firstn n l) -> before x y l.
Proof.
  revert n; induction l as [|a l IH]; intros [|n] H; simpl in H;
    try (inversion H; fail).
  inversion H as [l' Hy|z l' Hb]; subst.
  - apply before_here. eapply In_firstn, Hy.
  - apply before_later. eapply IH, Hb.
Qed.

Lemma before_across {A} (l1 l2 : list A) x y :
  In x l1 -> In y l2 -> before x y (l1 ++ l2).
Proof.
  induction l1 as [|a l1 IH]; intros Hx Hy; [destruct Hx|].
  destruct Hx as [->|Hx]; simpl.
  - apply before_here. apply in_app_iff. auto.
  - apply before_later. auto.
Qed.

Lemma before_map {A B} (f : A -> B) x y l :
  before x y l -> before (f x) (f y) (map f l).
Proof.
  induction 1 as [l Hy|z l Hb IH]; simpl.
  - apply before_here. now apply in_map.
  - now apply before_later.
Qed.

Lemma before_snoc_inv {A} (l : list A) t x y :
  before x y (l ++ [t]) -> before x y l \/ (In x l /\ y = t).
Proof.
  induction l as [|a l IH]; simpl; intros H.
  - inversion H as [l' Hy|z l' Hb]; subst; [destruct Hy|inversion Hb].
  - inversion H as [l' Hy|z l' Hb]; subst.
    + apply in_app_iff in Hy. destruct Hy as [Hy|[<-|[]]].
      * left. now apply before_here.
      * right. auto.
    + destruct (IH Hb) as [Hl|[Hx ->]].
      * left. now apply before_later.
      * right. auto.
Qed.

(** *** The stable sort *)

Lemma In_insert_by {A} (le : A -> A -> bool) z l x :
  In x (insert_by le z l) <-> x = z \/ In x l.
Proof.
  induction l as [|a l IH]; simpl.
  - intuition auto.
  - destruct (le z a); simpl; rewrite ?IH; intuition auto.
Qed.

Lemma In_sorted_by {A} (le : A -> A -> bool) l x :
  In x (sorted_by le l) <-> In x l.
Proof.
  induction l as [|a l IH]; simpl; [tauto|].
  rewrite In_insert_by, IH. intuition auto.
Qed.

Lemma length_insert_by {A} (le : A -> A -> bool) z l :
  List.length (insert_by le z l) = S (List.length l).
Proof.
  induction l as [|a l IH]; simpl; [reflexivity|].
  destruct (le z a); simpl; auto.
Qed.

Lemma length_sorted_by {A} (le : A -> A -> bool) l :
  List.length (sorted_by le l) = List.length l.
Proof.
  induction l as [|a l IH]; simpl; [reflexivity|].
  now rewrite length_insert_by, IH.
Qed.

Section Sorting.
Context {A : Type} (le : A -> A -> bool).
Hypothesis le_total : forall a b, le a b = false -> le b a = true.
Hypothesis le_trans :
  forall a b c, le a b = true -> le b c = true -> le a c = true.

Lemma insert_by_sorted z l :
  StronglySorted (holds le) l -> StronglySorted (holds le) (insert_by le z l).
Proof.
  induction 1 as [|a l Hs IH Ha]; simpl.
  - repeat constructor.
  - destruct (le z a) eqn:E.
    + constructor; [now constructor|].
      constructor; [exact E|].
      rewrite Forall_forall in *. intros b Hb.
      exact (le_trans _ _ _ E (Ha b Hb)).
    + constructor; [exact IH|].
      rewrite Forall_forall in *. intros b Hb.
      apply In_insert_by in Hb. destruct Hb as [->|Hb].
      * now apply le_total.
      * now apply Ha.
Qed.

Lemma sorted_by_sorted l : StronglySorted (holds le) (sorted_by le l).
Proof.
  induction l as [|a l IH]; simpl; [constructor|].
  now apply insert_by_sorted.
Qed.

Lemma sorted_before l x y :
  StronglySorted (holds le) l -> before x y l -> le x y = true.
Proof.
  intros Hs Hb. induction Hb as [l Hy|z l Hb IH].
  - apply StronglySorted_inv in Hs. destruct Hs as [_ Hf].
    rewrite Forall_forall in Hf. now apply Hf.
  - apply StronglySorted_inv in Hs. now apply IH.
Qed.

End Sorting.

Lemma before_insert_inv {A} (le : A -> A -> bool) z l x y :
  before x y (insert_by le z l) ->
  before x y l \/ (x = z /\ In y l) \/ (y = z /\ le z x = false).
Proof.
  induction l as [|a l IH]; simpl; intros H.
  - inversion H as [l' Hy|z' l' Hb]; subst; [destruct Hy|inversion Hb].
  - destruct (le z a) eqn:E.
    + inversion H as [l' Hy|z' l' Hb]; subst; auto.
    + inversion H as [l' Hy|z' l' Hb]; subst.
      * apply In_insert_by in Hy. destruct Hy as [->|Hy]; auto.
        left. now apply before_here.
      * destruct (IH Hb) as [Hl|[[-> Hy]|[-> Hle]]].
        -- left. now apply before_later.
        -- right. left. simpl. auto.
        -- right. right. auto.
Qed.

(** Stability: elements that the order does not tell apart keep the order
    they had. *)
Lemma sorted_by_stable {A} (le : A -> A -> bool) l x y :
  before x y (sorted_by le l) -> le y x = true -> before x y l.
Proof.
  induction l as [|a l IH]; simpl; intros Hb Htie.
  - inversion Hb.
  - destruct (before_insert_inv le a _ x y Hb) as [Hl|[[-> Hy]|[-> Hle]]].
    + apply before_later. auto.
    + apply before_here. now apply In_sorted_by in Hy.
    + congruence.
Qed.

Lemma desc_total {A} (key : A -> Z) a b :
  desc key a b = false -> desc key b a = true.
Proof.
  unfold desc. rewrite Z.leb_gt, Z.leb_le. lia.
Qed.

Lemma desc_trans {A} (key : A -> Z) a b c :
  desc key a b = true -> desc key b c = true -> desc key a c = true.
Proof.
  unfold desc. rewrite !Z.leb_le. lia.
Qed.

(** In a ranking by descending key an earlier element has the larger key,
    or the same key and an earlier place in the list that was ranked. *)
Lemma ranking_order {A} (key : A -> Z) l x y :
  before x y (sorted_by (desc key) l) ->
  key y <= key x /\ (key x = key y -> before x y l).
Proof.
  intros Hb. split.
  - apply Z.leb_le.
    exact (sorted_before (desc key) _ x y
             (sorted_by_sorted (desc key) (desc_total key) (desc_trans key) l)
             Hb).
  - intros Heq. apply (sorted_by_stable (desc key) l x y Hb).
    unfold desc. apply Z.leb_le. lia.
Qed.

(** *** Counters *)

Lemma keq_refl {A} `{EqbLaws A} (x : A) : keq x x = true.
Proof. now apply keq_spec. Qed.

Lemma keq_false {A} `{EqbLaws A} (x y : A) : keq x y = false <-> x <> y.
Proof.
  rewrite <- keq_spec. destruct (keq x y); split; congruence.
Qed.

Lemma od_find_od_set {K V} `{EqbLaws K} (w t : K) (v : V) (d : odict K V) :
  od_find w (od_set t v d) = if keq w t then Some v else od_find w d.
Proof.
  induction d as [|[k' v'] r IH]; simpl.
  - reflexivity.
  - destruct (keq t k') eqn:Et; simpl.
    + apply keq_spec in Et. subst k'. destruct (keq w t); reflexivity.
    + rewrite IH. destruct (keq w k') eqn:Ew; [|reflexivity].
      apply keq_spec in Ew. subst k'.
      destruct (keq w t) eqn:Ewt; [|reflexivity].
      apply keq_spec in Ewt. subst t. rewrite keq_refl in Et. discriminate.
Qed.

Lemma keys_od_set {K V} `{EqbLaws K} (t : K) (v : V) (d : odict K V) :
  map fst (od_set t v d)
  = if set_in t (map fst d) then map fst d else map fst d ++ [t].
Proof.
  induction d as [|[k' v'] r IH]; simpl.
  - reflexivity.
  - unfold set_in in *. simpl. destruct (keq t k'); simpl.
    + reflexivity.
    + rewrite IH. destruct (existsb (keq t) (map fst r)); reflexivity.
Qed.

Lemma od_find_In {K V} `{EqbLaws K} (k : K) (v : V) (d : odict K V) :
  NoDup (map fst d) -> In (k, v) d -> od_find k d = Some v.
Proof.
  induction d as [|[k' v'] r IH]; simpl; intros Hnd Hin; [destruct Hin|].
  inversion Hnd as [|x xs Hk Hr]; subst.
  destruct Hin as [E|Hin].
  - injection E as -> ->. now rewrite keq_refl.
  - destruct (keq k k') eqn:E.
    + apply keq_spec in E. subst k'. exfalso. apply Hk.
      change k with (fst (k, v)). now apply in_map.
    + now apply IH.
Qed.

Lemma occurrences_nonneg {A} `{EqbLaws A} (w : A) l : 0 <= occurrences w l.
Proof.
  induction l as [|x l IH]; simpl; [lia|]. destruct (keq w x); lia.
Qed.

Lemma occurrences_pos {A} `{EqbLaws A} (w : A) l :
  0 < occurrences w l <-> In w l.
Proof.
  induction l as [|x l IH]; simpl; [split; [lia|tauto]|].
  pose proof (occurrences_nonneg w l).
  destruct (keq w x) eqn:E.
  - apply keq_spec in E. subst. split; [auto|lia].
  - apply keq_false in E. rewrite <- IH. split.
    + intros; right; lia.
    + intros [->|Hp]; [congruence|lia].
Qed.

Lemma occurrences_app {A} `{EqbLaws A} (w : A) l1 l2 :
  occurrences w (l1 ++ l2) = occurrences w l1 + occurrences w l2.
Proof.
  induction l1 as [|x l1 IH]; simpl; [reflexivity|]. rewrite IH. lia.
Qed.

Lemma first_index_lt {A} `{EqbLaws A} (w : A) l :
  In w l -> (first_index w l < List.length l)%nat.
Proof.
  induction l as [|x l IH]; simpl; intros Hin; [destruct Hin|].
  destruct (keq w x) eqn:E; [lia|].
  apply keq_false in E. destruct Hin as [->|Hin]; [congruence|].
  apply IH in Hin. lia.
Qed.

Lemma first_index_app {A} `{EqbLaws A} (w : A) l r :
  In w l -> first_index w (l ++ r) = first_index w l.
Proof.
  induction l as [|x l IH]; simpl; intros Hin; [destruct Hin|].
  destruct (keq w x) eqn:E; [reflexivity|].
  apply keq_false in E. destruct Hin as [->|Hin]; [congruence|].
  now rewrite IH.
Qed.

Lemma first_index_new {A} `{EqbLaws A} (w : A) l r :
  ~ In w l -> first_index w (l ++ w :: r) = List.length l.
Proof.
  induction l as [|x l IH]; simpl; intros Hn.
  - now rewrite keq_refl.
  - destruct (keq w x) eqn:E.
    + apply keq_spec in E. subst. tauto.
    + rewrite IH; tauto.
Qed.

Lemma counts_nil : counts [] [].
Proof.
  repeat split; simpl; try tauto; try constructor.
  intros w1 w2 Hb. inversion Hb.
Qed.

Lemma counts_step done c t :
  counts done c -> counts (done ++ [t]) (counter_add t 1 c).
Proof.
  intros (Hnd & Hkeys & Hfind & Horder). unfold counter_add.
  assert (Ekeys : map fst (od_set t (od_get t c 0 + 1) c)
                  = if set_in t (map fst c) then map fst c
                    else map fst c ++ [t]) by apply keys_od_set.
  repeat split.
  - rewrite Ekeys. destruct (set_in t (map fst c)) eqn:E; [exact Hnd|].
    apply NoDup_snoc; [exact Hnd|]. now apply set_in_false.
  - rewrite Ekeys, in_app_iff.
    destruct (set_in t (map fst c)) eqn:E.
    + rewrite Hkeys. tauto.
    + rewrite in_app_iff, Hkeys. tauto.
  - rewrite Ekeys, in_app_iff. simpl.
    destruct (set_in t (map fst c)) eqn:E.
    + apply set_in_In in E. rewrite Hkeys.
      intros [Hw|[<-|[]]]; [exact Hw|]. now apply Hkeys.
    + rewrite in_app_iff, Hkeys. simpl. tauto.
  - intros w. rewrite od_find_od_set, occurrences_app. simpl.
    pose proof (occurrences_nonneg w done) as Hnn.
    destruct (keq w t) eqn:E.
    + apply keq_spec in E. subst t. unfold od_get. rewrite Hfind.
      destruct (0 <? occurrences w done) eqn:Epos.
      * apply Z.ltb_lt in Epos.
        replace (0 <? occurrences w done + (1 + 0)) with true
          by (symmetry; apply Z.ltb_lt; lia).
        f_equal; lia.
      * apply Z.ltb_ge in Epos.
        replace (0 <? occurrences w done + (1 + 0)) with true
          by (symmetry; apply Z.ltb_lt; lia).
        f_equal; lia.
    + rewrite Hfind. now rewrite !Z.add_0_r.
  - intros w1 w2 Hb. rewrite Ekeys in Hb.
    destruct (set_in t (map fst c)) eqn:E.
    + destruct (before_In _ _ _ Hb) as [H1 H2].
      apply Hkeys in H1. apply Hkeys in H2.
      rewrite !first_index_app by assumption. now apply Horder.
    + apply before_snoc_inv in Hb. destruct Hb as [Hb|[H1 ->]].
      * destruct (before_In _ _ _ Hb) as [H1 H2].
        apply Hkeys in H1. apply Hkeys in H2.
        rewrite !first_index_app by assumption. now apply Horder.
      * apply Hkeys in H1. rewrite (first_index_app w1) by assumption.
        apply set_in_false in E.
        rewrite first_index_new by (now rewrite <- Hkeys).
        now apply first_index_lt.
Qed.

Lemma counter_update_app {K} `{EqbLaws K} (c : odict K Z) l1 l2 :
  counter_update c (l1 ++ l2) = counter_update (counter_update c l1) l2.
Proof.
  unfold counter_update. apply fold_left_app.
Qed.

Lemma counts_update done c ws :
  counts done c -> counts (done ++ ws) (counter_update c ws).
Proof.
  revert done c; induction ws as [|t ws IH]; intros done c Hc.
  - now rewrite app_nil_r.
  - change (t :: ws) with ([t] ++ ws).
    rewrite app_assoc, counter_update_app. apply IH.
    now apply counts_step.
Qed.

(** The loop of [analyze_commits] feeds the counter the tokens of the
    messages in input order. *)
Lemma commit_step_words ex a c :
  Tally.word_counter (commit_step ex a c)
  = counter_update (Tally.word_counter a)
      (extract_words (CommitInfo.message c)).
Proof.
  unfold commit_step.
  destruct (fold_left (file_step ex) (CommitInfo.files c) _) as [[x y] z].
  reflexivity.
Qed.

Lemma commit_fold_words ex cs a :
  Tally.word_counter (fold_left (commit_step ex) cs a)
  = counter_update (Tally.word_counter a) (tokens cs).
Proof.
  revert a; induction cs as [|c cs IH]; intros a.
  - reflexivity.
  - simpl fold_left. rewrite IH, commit_step_words.
    unfold tokens. simpl flat_map. now rewrite counter_update_app.
Qed.

Lemma analyze_commits_words today commits year exclude_languages :
  YearStats.commit_words
    (analyze_commits today commits year exclude_languages)
  = most_common 20 (counter_update [] (tokens commits)).
Proof.
  destruct commits as [|c cs]; [reflexivity|].
  rewrite analyze_commits_cons. cbv zeta.
  unfold YearStats.with_achievements; cbn [YearStats.commit_words].
  now rewrite commit_fold_words.
Qed.

Lemma counts_In done c w n :
  counts done c -> In (w, n) c -> n = occurrences w done /\ 0 < n.
Proof.
  intros (Hnd & _ & Hfind & _) Hin.
  pose proof (od_find_In w n c Hnd Hin) as E. rewrite Hfind in E.
  destruct (0 <? occurrences w done) eqn:Epos; [|discriminate].
  apply Z.ltb_lt in Epos. injection E as <-. auto.
Qed.

Lemma counts_key done c w :
  counts done c -> In w done -> In (w, occurrences w done) c.
Proof.
  intros Hc Hin. pose proof Hc as (_ & Hkeys & _ & _).
  apply Hkeys in Hin. apply in_map_iff in Hin.
  destruct Hin as [[w' n] [E Hin]]. simpl in E. subst w'.
  destruct (counts_In _ _ _ _ Hc Hin) as [-> _]. exact Hin.
Qed.

(** Two entries of a ranking of a counter: the earlier one is the more
    frequent, or as frequent and first seen earlier. *)
Lemma ranking_of_counts done c w1 n1 w2 n2 :
  counts done c ->
  before (w1, n1) (w2, n2) (sorted_by (desc snd) c) ->
  n2 <= n1
  /\ (n1 = n2 -> (first_index w1 done < first_index w2 done)%nat).
Proof.
  intros Hc Hb. destruct (ranking_order snd c _ _ Hb) as [Hle Htie].
  split; [exact Hle|]. intros Heq.
  destruct Hc as (_ & _ & _ & Horder). apply Horder.
  exact (before_map fst _ _ _ (Htie Heq)).
Qed.

(** C6: the keyword ranking of the snapshot holds at most 20 words with
    their numbers of occurrences among the tokens of the messages, in
    descending frequency; of two words as frequent as each other the one
    whose first occurrence comes earlier ranks higher; a word left out is
    no more frequent than any word kept and, if as frequent, first seen
    later.  For the messages ["alpha beta"; "beta alpha"] the ranking is
    alpha, then beta. *)
Theorem keyword_ranking_ties_by_first_seen
    today commits year exclude_languages :
  let ws :=
    YearStats.commit_words
      (analyze_commits today commits year exclude_languages) in
  let toks := tokens commits in
  (List.length ws <= 20)%nat
  /\ (forall w n, In (w, n) ws -> n = occurrences w toks /\ 0 < n)
  /\ (forall i j wi ni wj nj,
         (i < j)%nat ->
         nth_error ws i = Some (wi, ni) ->
         nth_error ws j = Some (wj, nj) ->
         nj <= ni
         /\ (ni = nj -> (first_index wi toks < first_index wj toks)%nat))
  /\ (forall w,
         In w toks -> ~ In w (map fst ws) ->
         List.length ws = 20%nat
         /\ forall w' n',
              In (w', n') ws ->
              occurrences w toks <= n'
              /\ (occurrences w toks = n' ->
                  (first_index w' toks < first_index w toks)%nat))
  /\ (forall c1 c2,
         commits = [c1; c2] ->
         CommitInfo.message c1 = u "alpha beta" ->
         CommitInfo.message c2 = u "beta alpha" ->
         ws = [(u "alpha", 2); (u "beta", 2)]).
Proof.
  intros ws toks. subst ws. rewrite analyze_commits_words. fold toks.
  unfold most_common.
  set (c := counter_update [] toks).
  assert (Hc : counts toks c)
    by exact (counts_update [] [] toks counts_nil).
  set (ranking := sorted_by (desc snd) c).
  split; [|split; [|split; [|split]]].
  - apply firstn_le_length.
  - intros w n Hin. apply In_firstn in Hin. apply In_sorted_by in Hin.
    exact (counts_In _ _ _ _ Hc Hin).
  - intros i j wi ni wj nj Hij Hi Hj.
    apply (ranking_of_counts toks c wi ni wj nj Hc).
    apply (before_firstn 20). exact (before_nth _ i j _ _ Hij Hi Hj).
  - intros w Hw Hout.
    pose proof (counts_key _ _ _ Hc Hw) as Hin.
    apply (In_sorted_by (desc snd)) in Hin. fold ranking in Hin.
    rewrite <- (firstn_skipn 20 ranking) in Hin.
    apply in_app_iff in Hin. destruct Hin as [Hin|Hin].
    { exfalso. apply Hout.
      change w with (fst (w, occurrences w toks)). now apply in_map. }
    split.
    + apply firstn_length_le.
      destruct (Nat.le_gt_cases 20 (List.length ranking)) as [Hlen|Hlen];
        [exact Hlen|].
      rewrite skipn_all2 in Hin by lia. destruct Hin.
    + intros w' n' Hin'.
      assert (Hb : before (w', n') (w, occurrences w toks) ranking).
      { rewrite <- (firstn_skipn 20 ranking). now apply before_across. }
      destruct (ranking_of_counts toks c _ _ _ _ Hc Hb) as [Hle Htie].
      split; [exact Hle|]. intros Heq. apply Htie. now symmetry.
  - intros c1 c2 -> H1 H2. subst ranking c toks. unfold tokens.
    simpl flat_map. rewrite H1, H2. vm_compute. reflexivity.
Qed.

(** *** Calendar counters *)

Lemma counter_update_get {K} `{EqbLaws K} (k : K) (keys : list K) (d : odict K Z) :
  od_get k (counter_update d keys) 0 = od_get k d 0 + occurrences k keys.
Proof.
  revert d; induction keys as [|t keys IH]; intros d; simpl.
  - lia.
  - unfold counter_update in *. simpl fold_left. rewrite IH.
    unfold counter_add, od_get at 1. rewrite od_find_od_set.
    destruct (keq k t) eqn:E.
    + apply keq_spec in E. subst t. lia.
    + unfold od_get. lia.
Qed.

Lemma commit_step_calendar ex a c :
  Tally.heatmap (commit_step ex a c)
  = counter_add (day_of_year c) 1 (Tally.heatmap a)
  /\ Tally.commits_by_hour (commit_step ex a c)
     = counter_add (hour_of c) 1 (Tally.commits_by_hour a)
  /\ Tally.commits_by_weekday (commit_step ex a c)
     = counter_add (weekday_of c) 1 (Tally.commits_by_weekday a).
Proof.
  unfold commit_step.
  destruct (fold_left (file_step ex) (CommitInfo.files c) _) as [[x y] z].
  repeat split.
Qed.

Lemma commit_fold_calendar ex cs a :
  Tally.heatmap (fold_left (commit_step ex) cs a)
  = counter_update (Tally.heatmap a) (map day_of_year cs)
  /\ Tally.commits_by_hour (fold_left (commit_step ex) cs a)
     = counter_update (Tally.commits_by_hour a) (map hour_of cs)
  /\ Tally.commits_by_weekday (fold_left (commit_step ex) cs a)
     = counter_update (Tally.commits_by_weekday a) (map weekday_of cs).
Proof.
  revert a; induction cs as [|c cs IH]; intros a.
  - repeat split.
  - simpl fold_left. destruct (IH (commit_step ex a c)) as (H1 & H2 & H3).
    destruct (commit_step_calendar ex a c) as (E1 & E2 & E3).
    rewrite H1, H2, H3, E1, E2, E3. repeat split.
Qed.

Lemma analyze_commits_calendar today commits year exclude_languages k :
  let s := analyze_commits today commits year exclude_languages in
  od_get k (YearStats.heatmap s) 0 = occurrences k (map day_of_year commits)
  /\ od_get k (YearStats.commits_by_hour s) 0
     = occurrences k (map hour_of commits)
  /\ od_get k (YearStats.commits_by_weekday s) 0
     = occurrences k (map weekday_of commits).
Proof.
  destruct commits as [|c cs]; [repeat split|].
  cbv zeta. rewrite analyze_commits_cons. cbv zeta.
  unfold YearStats.with_achievements;
    cbn [YearStats.heatmap YearStats.commits_by_hour
         YearStats.commits_by_weekday].
  destruct (commit_fold_calendar (excluded exclude_languages) (c :: cs)
              Tally.init) as (H1 & H2 & H3).
  rewrite H1, H2, H3, !counter_update_get. repeat split.
Qed.

(** *** Repository summaries *)

Lemma analyze_commits_summaries today commits year exclude_languages :
  let s := analyze_commits today commits year exclude_languages in
  YearStats.repo_summaries s
  = generate_repo_summaries commits (excluded exclude_languages)
  /\ YearStats.repos_count s = len (YearStats.repo_summaries s).
Proof.
  destruct commits as [|c cs]; [split; reflexivity|].
  cbv zeta. rewrite analyze_commits_cons. cbv zeta. split; reflexivity.
Qed.

Lemma group_step_unlabelled d c :
  CommitInfo.repo_name c = [] -> group_step d c = d.
Proof.
  intros E. unfold group_step. now rewrite E.
Qed.

Lemma group_fold_unlabelled cs1 c cs2 d :
  CommitInfo.repo_name c = [] ->
  fold_left group_step (cs1 ++ c :: cs2) d
  = fold_left group_step (cs1 ++ cs2) d.
Proof.
  intros E. rewrite !fold_left_app. simpl fold_left.
  now rewrite group_step_unlabelled.
Qed.

Lemma group_fold_keys cs d :
  map fst (fold_left group_step cs d)
  = fold_left
      (fun s c =>
         if nonempty (CommitInfo.repo_name c)
         then set_add (CommitInfo.repo_name c) s else s)
      cs (map fst d).
Proof.
  revert d; induction cs as [|c cs IH]; intros d; simpl; [reflexivity|].
  rewrite IH. f_equal. unfold group_step.
  destruct (nonempty (CommitInfo.repo_name c)); [|reflexivity].
  rewrite keys_od_set. reflexivity.
Qed.

Lemma summaries_names commits ex :
  map RepoSummary.name
    (map (fun '(repo_name, repo_commit_list) =>
            summarize ex repo_name repo_commit_list)
       (fold_left group_step commits []))
  = nonempty_labels commits.
Proof.
  rewrite map_map. unfold nonempty_labels.
  change (@nil pystr) with (map fst (@nil (pystr * list CommitInfo.t))).
  rewrite <- group_fold_keys. apply map_ext. intros [k l]. reflexivity.
Qed.

Lemma summaries_count commits ex :
  len (generate_repo_summaries commits ex) = len (nonempty_labels commits).
Proof.
  unfold generate_repo_summaries, len.
  rewrite length_sorted_by, <- (summaries_names commits ex), !length_map.
  reflexivity.
Qed.

Lemma set_in_snoc {A} `{EqbLaws A} (x y : A) (s : pyset A) :
  set_in x (s ++ [y]) = set_in x s || keq x y.
Proof.
  unfold set_in. rewrite existsb_app. simpl. now rewrite orb_false_r.
Qed.

Lemma set_in_set_add {A} `{EqbLaws A} (x y : A) (s : pyset A) :
  set_in x (set_add y s) = set_in x s || keq x y.
Proof.
  unfold set_add. destruct (set_in y s) eqn:E.
  - destruct (keq x y) eqn:Exy; [|now rewrite orb_false_r].
    apply keq_spec in Exy. subst. now rewrite E.
  - apply set_in_snoc.
Qed.

Lemma length_set_add {A} `{EqbLaws A} (y : A) (s : pyset A) :
  List.length (set_add y s)
  = (List.length s + (if set_in y s then 0 else 1))%nat.
Proof.
  unfold set_add. destruct (set_in y s).
  - lia.
  - rewrite length_app. reflexivity.
Qed.

Lemma label_sets_step s1 s2 (name : pystr) :
  label_sets s1 s2 ->
  label_sets (if nonempty name then set_add name s1 else s1)
             (set_add name s2).
Proof.
  intros (Hlen & Hno & Hsame). destruct name as [|ch name]; simpl nonempty.
  - repeat split.
    + rewrite length_set_add, set_in_set_add, keq_refl, orb_true_r.
      rewrite Hlen. unfold pystr in *. destruct (set_in [] s2); lia.
    + exact Hno.
    + intros x Hx. rewrite set_in_set_add, (Hsame x Hx).
      apply keq_false in Hx. now rewrite Hx, orb_false_r.
  - assert (Hne : ch :: name <> []) by discriminate.
    assert (Hk : keq (@nil N) (ch :: name) = false)
      by (apply keq_false; congruence).
    repeat split.
    + rewrite !length_set_add, set_in_set_add, Hk, orb_false_r.
      rewrite (Hsame _ Hne), Hlen. unfold pystr in *.
      destruct (set_in (ch :: name) s2); lia.
    + now rewrite set_in_set_add, Hno, Hk.
    + intros x Hx. rewrite !set_in_set_add, (Hsame x Hx). reflexivity.
Qed.

Lemma label_sets_fold cs s1 s2 :
  label_sets s1 s2 ->
  label_sets
    (fold_left
       (fun s c =>
          if nonempty (CommitInfo.repo_name c)
          then set_add (CommitInfo.repo_name c) s else s)
       cs s1)
    (fold_left (fun s c => set_add (CommitInfo.repo_name c) s) cs s2).
Proof.
  revert s1 s2; induction cs as [|c cs IH]; intros s1 s2 H; simpl.
  - exact H.
  - apply IH. now apply label_sets_step.
Qed.

Lemma labels_pair commits :
  label_sets (nonempty_labels commits) (distinct_labels commits).
Proof.
  apply label_sets_fold. repeat split.
Qed.

Lemma distinct_labels_has cs s c :
  (In c cs \/ set_in (CommitInfo.repo_name c) s = true) ->
  set_in (CommitInfo.repo_name c)
    (fold_left (fun s c => set_add (CommitInfo.repo_name c) s) cs s) = true.
Proof.
  revert s; induction cs as [|a cs IH]; intros s H; simpl.
  - destruct H as [[]|H]; exact H.
  - apply IH. destruct H as [[->|H]|H].
    + right. now rewrite set_in_set_add, keq_refl, orb_true_r.
    + now left.
    + right. now rewrite set_in_set_add, H.
Qed.

Lemma tokens_app cs1 cs2 : tokens (cs1 ++ cs2) = tokens cs1 ++ tokens cs2.
Proof.
  unfold tokens. apply flat_map_app.
Qed.

Lemma tokens_cons c cs :
  tokens (c :: cs) = extract_words (CommitInfo.message c) ++ tokens cs.
Proof. reflexivity. Qed.

Lemma len_app {A} (l1 l2 : list A) : len (l1 ++ l2) = len l1 + len l2.
Proof.
  unfold len. rewrite length_app. lia.
Qed.

Lemma summaries_named commits ex r :
  In r (generate_repo_summaries commits ex) -> RepoSummary.name r <> [].
Proof.
  unfold generate_repo_summaries. intros Hin Hname.
  apply In_sorted_by in Hin.
  apply (in_map RepoSummary.name) in Hin.
  rewrite summaries_names, Hname in Hin.
  destruct (labels_pair commits) as (_ & Hno & _).
  apply set_in_In in Hin. unfold pystr in *. congruence.
Qed.

(** What a commit with an empty repository label adds to the totals, the
    heatmap, the hours and the keywords, and that it adds nothing to the
    summaries. *)
Lemma unlabelled_commit_frame
    today cs1 c cs2 year exclude_languages :
  CommitInfo.repo_name c = [] ->
  let commits := cs1 ++ c :: cs2 in
  let others := cs1 ++ cs2 in
  let s := analyze_commits today commits year exclude_languages in
  YearStats.total_commits s = len others + 1
  /\ YearStats.total_added_lines s
     = sum_Z (map FileDiff.added_lines (all_files others))
       + sum_Z (map FileDiff.added_lines (CommitInfo.files c))
  /\ YearStats.total_deleted_lines s
     = sum_Z (map FileDiff.deleted_lines (all_files others))
       + sum_Z (map FileDiff.deleted_lines (CommitInfo.files c))
  /\ (forall k,
         od_get k (YearStats.heatmap s) 0
         = occurrences k (map day_of_year others)
           + (if keq k (day_of_year c) then 1 else 0))
  /\ (forall k,
         od_get k (YearStats.commits_by_hour s) 0
         = occurrences k (map hour_of others)
           + (if keq k (hour_of c) then 1 else 0))
  /\ (forall w n,
         In (w, n) (YearStats.commit_words s) ->
         n = occurrences w (tokens others)
             + occurrences w (extract_words (CommitInfo.message c)))
  /\ YearStats.repo_summaries s
     = generate_repo_summaries others (excluded exclude_languages)
  /\ (forall r, In r (YearStats.repo_summaries s) -> RepoSummary.name r <> [])
  /\ YearStats.repos_count s = len (nonempty_labels others)
  /\ YearStats.repos_count s + 1 = len (distinct_labels commits).
Proof.
  intros Hname commits others s.
  pose proof (analyze_commits_lines today commits year exclude_languages)
    as Hlines.
  destruct (analyze_commits_summaries today commits year exclude_languages)
    as [Hsum Hcount].
  cbv zeta in Hlines. fold s in Hlines, Hsum, Hcount.
  assert (Hsame : generate_repo_summaries commits (excluded exclude_languages)
                  = generate_repo_summaries others
                      (excluded exclude_languages)).
  { unfold generate_repo_summaries, commits, others.
    now rewrite group_fold_unlabelled. }
  assert (Hfiles : all_files commits
                   = all_files cs1 ++ CommitInfo.files c ++ all_files cs2).
  { unfold commits. rewrite all_files_app. reflexivity. }
  repeat match goal with |- _ /\ _ => split end.
  - unfold s. rewrite analyze_commits_count. unfold commits, others, len.
    rewrite !length_app. simpl. lia.
  - apply (f_equal (fun t => fst (fst t))) in Hlines. cbn [fst] in Hlines.
    rewrite Hlines, file_fold_added, Hfiles. unfold others.
    rewrite all_files_app, !map_app, !sum_Z_app. lia.
  - apply (f_equal (fun t => snd (fst t))) in Hlines. cbn [fst snd] in Hlines.
    rewrite Hlines, file_fold_deleted, Hfiles. unfold others.
    rewrite all_files_app, !map_app, !sum_Z_app. lia.
  - intros k.
    destruct (analyze_commits_calendar today commits year exclude_languages k)
      as (H1 & _ & _). fold s in H1. rewrite H1. unfold commits, others.
    rewrite !map_app, !occurrences_app. simpl. lia.
  - intros k.
    destruct (analyze_commits_calendar today commits year exclude_languages k)
      as (_ & H2 & _). fold s in H2. rewrite H2. unfold commits, others.
    rewrite !map_app, !occurrences_app. simpl. lia.
  - intros w n Hin. unfold s in Hin. rewrite analyze_commits_words in Hin.
    apply In_firstn, In_sorted_by in Hin.
    destruct (counts_In _ _ _ _
                (counts_update [] [] (tokens commits) counts_nil) Hin)
      as [-> _].
    unfold commits, others.
    rewrite !tokens_app, tokens_cons, !occurrences_app.
    cbn [app occurrences]. lia.
  - now rewrite Hsum.
  - intros r Hr. rewrite Hsum in Hr. exact (summaries_named _ _ r Hr).
  - now rewrite Hcount, Hsum, Hsame, summaries_count.
  - rewrite Hcount, Hsum, summaries_count.
    destruct (labels_pair commits) as (Hlen & _ & _).
    assert (Hin : set_in (CommitInfo.repo_name c) (distinct_labels commits)
                  = true).
    { apply distinct_labels_has. left. unfold commits.
      apply in_app_iff. simpl. auto. }
    rewrite Hname in Hin. unfold pystr in *. rewrite Hin in Hlen.
    unfold len. lia.
Qed.

End Proofs.

(* ------------------------------------------------------------------ *)
(** * The properties on the sample inputs *)

(** C1, the claim as stated fails: the same hash is in the log of both
    working copies, yet the aggregation input holds one commit, labelled
    with the first of them, and the snapshot counts one. *)
Lemma cross_repository_duplicate_dropped :
  In shared_hash
    (map CommitInfo.hash
       (parse_git_log (L := ascii_lib) two_repo_git repo_app 2024 []))
  /\ In shared_hash
       (map CommitInfo.hash
          (parse_git_log (L := ascii_lib) two_repo_git repo_fork 2024 []))
  /\ map CommitInfo.repo_name two_repo_input = [u "app"]
  /\ ~ In (u "app-fork") (map CommitInfo.repo_name two_repo_input)
  /\ YearStats.total_commits
       (analyze_commits (L := ascii_lib) clock_march_1 two_repo_input 2024 None)
     = 1.
Proof.
  repeat split.
  - left. reflexivity.
  - left. reflexivity.
  - vm_compute. intros [H|[]]. discriminate H.
Qed.

(** C2, the claim as stated fails: at 50 commits and 100000 added lines
    the volume badges are not the one of the second tier. *)
Lemma volume_badge_not_second_tier :
  volume_badges (calculate_achievements stats_50_100000)
  <> [(u "发奋图强", u "持续高产出，令人敬佩")].
Proof.
  vm_compute. discriminate.
Qed.

(** The snapshot with 50 commits and 100000 added lines gets the top tier. *)
Lemma volume_badge_at_score_100500_witness :
  YearStats.total_commits stats_50_100000 = 50
  /\ YearStats.total_added_lines stats_50_100000 = 100000
  /\ volume_badges (calculate_achievements stats_50_100000)
     = [(u "卷王本王", u "代码量惊人，是团队的核心力量")].
Proof.
  split; [reflexivity|]. split; [reflexivity|].
  apply (volume_badge_at_score_100500 stats_50_100000); reflexivity.
Defined.

(** C3, the claim as stated fails: the same commits and year, evaluated on
    the day of the commit and two days later, give different snapshots. *)
Lemma snapshot_depends_on_clock :
  analyze_commits (L := ascii_lib) clock_march_1 [labelled_commit] 2024 None
  <> analyze_commits (L := ascii_lib) clock_march_3 [labelled_commit] 2024 None.
Proof.
  intros H. apply (f_equal YearStats.current_streak) in H.
  vm_compute in H. discriminate H.
Qed.

(** C4, on a commit whose subject line is indented: the message of the
    record is the subject with its two leading spaces, and the extractor
    returns it without them. *)
Lemma parse_git_log_strips_leading_whitespace :
  map CommitInfo.message
    (parse_git_log (L := ascii_lib) indented_git repo_app 2024 [])
  = [u "indented subject"]
  /\ u "indented subject" <> u "  indented subject".
Proof.
  split.
  - vm_compute. reflexivity.
  - vm_compute. discriminate.
Qed.

(** The messages "alpha beta" and "beta alpha": alpha ranks first. *)
Lemma keyword_ranking_witness :
  YearStats.commit_words
    (analyze_commits (L := ascii_lib) clock_march_1
       [labelled_commit; unlabelled_commit] 2024 None)
  = [(u "alpha", 2); (u "beta", 2)].
Proof.
  pose proof (keyword_ranking_ties_by_first_seen (L := ascii_lib)
                clock_march_1 [labelled_commit; unlabelled_commit] 2024 None)
    as H.
  cbv zeta in H. destruct H as (_ & _ & _ & _ & H).
  exact (H labelled_commit unlabelled_commit eq_refl eq_refl eq_refl).
Defined.

(** A Markdown file change of 40 added lines next to a Python one. *)
Lemma excluded_language_witness :
  FileDiff.language readme_change = Some (u "Markdown")
  /\ FileDiff.added_lines readme_change = 40
  /\ YearStats.languages
       (analyze_commits (L := ascii_lib) clock_march_1 [labelled_commit]
          2024 None)
     = YearStats.languages
         (analyze_commits (L := ascii_lib) clock_march_1
            [with_files [source_change] labelled_commit] 2024 None)
  /\ YearStats.total_added_lines
       (analyze_commits (L := ascii_lib) clock_march_1 [labelled_commit]
          2024 None)
     = YearStats.total_added_lines
         (analyze_commits (L := ascii_lib) clock_march_1
            [with_files [source_change] labelled_commit] 2024 None)
       + 40.
Proof.
  split; [reflexivity|]. split; [reflexivity|].
  pose proof (excluded_language_counts_lines_only (L := ascii_lib)
                clock_march_1 2024 [] labelled_commit [] [source_change]
                readme_change [] (u "Markdown") eq_refl
                (or_introl eq_refl) eq_refl) as H.
  cbv zeta in H. destruct H as [Hl [Ha _]].
  split; [exact Hl|exact Ha].
Defined.

(** Of the four lines of [mixed_numstat] the binary file and the source
    file are recorded, the other two are skipped. *)
Lemma numstat_witness :
  parse_git_diff (L := ascii_lib) numstat_git repo_app shared_hash
  = [FileDiff.mk (u "logo.png") None 0 0 0;
     FileDiff.mk (u "src/a.py") (Some (u "Python")) 10 2 0].
Proof.
  rewrite (proj1 (numstat_binary_kept_malformed_skipped (L := ascii_lib)
                    numstat_git repo_app shared_hash mixed_numstat []
                    (numstat_line SENTINEL SENTINEL (u "logo.png"))
                    [numstat_line (u "10") (u "2") (u "src/a.py");
                     u "garbage" ++ [TAB] ++ u "line";
                     numstat_line (u "x") (u "1") (u "b.py")]
                    eq_refl eq_refl)
             (u "logo.png") [] eq_refl).
  vm_compute. reflexivity.
Defined.

(** The longest run of the January dates is the three days 1 to 3, whatever
    the clock shows. *)
Example longest_streak_of_january_dates today year :
  fst (calculate_streak today january_dates year) = 3.
Proof.
  vm_compute. reflexivity.
Qed.

(** Two commits on consecutive days, a Python file and a Markdown file. *)
Example two_commit_scenario today :
  let s := analyze_commits (L := ascii_lib) today scenario_commits 2024 None in
  YearStats.total_commits s = 2
  /\ YearStats.total_added_lines s = 15
  /\ YearStats.total_deleted_lines s = 2
  /\ YearStats.active_days s = 2
  /\ YearStats.languages s = [(u "Python", 10)]
  /\ YearStats.max_streak s = 2.
Proof.
  vm_compute. repeat split.
Qed.

(** No commits: the snapshot is the zero-valued one. *)
Example empty_input_snapshot {L : PyLib} today year exclude_languages :
  analyze_commits today [] year exclude_languages = YearStats.init year.
Proof. reflexivity. Qed.

(* ------------------------------------------------------------------ *)
(** * Further properties of the extraction and the aggregation *)

Section Coverage.
Context {L : PyLib}.
Variable run_git_command : Path.t -> list pystr -> bool * pystr.

(** *** Stripping *)

Lemma lstrip_suffix s : exists sp, s = sp ++ lstrip s.
Proof.
  induction s as [|c r [sp E]]; simpl.
  - exists []. reflexivity.
  - destruct (is_space c).
    + exists (c :: sp). simpl. now rewrite <- E.
    + exists []. reflexivity.
Qed.

Lemma lstrip_head s c r : lstrip s = c :: r -> is_space c = false.
Proof.
  induction s as [|a s IH]; simpl; [discriminate|].
  destruct (is_space a) eqn:E; [exact IH|].
  intros H; injection H as -> _. exact E.
Qed.

Lemma lstrip_fixed c r : is_space c = false -> lstrip (c :: r) = c :: r.
Proof. intros E. simpl. now rewrite E. Qed.

Lemma strip_strip s : strip (strip s) = strip s.
Proof.
  unfold strip, rstrip.
  set (t := lstrip s).
  destruct (lstrip (rev t)) as [|c r] eqn:Er.
  - reflexivity.
  - destruct (lstrip_suffix (rev t)) as [sp E]. rewrite Er in E.
    assert (Et : t = rev (c :: r) ++ rev sp).
    { rewrite <- rev_app_distr, <- E, rev_involutive. reflexivity. }
    assert (Hc : is_space c = false) by exact (lstrip_head _ _ _ Er).
    destruct (rev (c :: r)) as [|a q] eqn:Eq.
    + apply (f_equal (@List.length N)) in Eq. rewrite length_rev in Eq.
      discriminate Eq.
    + assert (Ha : is_space a = false).
      { apply (lstrip_head s a (q ++ rev sp)). fold t. now rewrite Et. }
      rewrite (lstrip_fixed a q Ha), <- Eq, rev_involutive.
      now rewrite (lstrip_fixed c r Hc).
Qed.

(** *** The records of the log *)

Lemma log_step_cases emails st record :
  fst (log_step emails st record) = fst st
  \/ exists h e d m date,
       splitn [NUL] 3 (strip record) = [h; e; d; m]
       /\ (nonempty emails = true -> set_in (lower e) emails = true)
       /\ set_in (lower h) (snd st) = false
       /\ fromisoformat (replace_char 90 (u "+00:00") d) = Some date
       /\ fst (log_step emails st record)
          = fst st ++ [commit_of_fields h e m date].
Proof.
  destruct st as [commits seen]. unfold log_step. cbn [fst snd].
  destruct (negb (nonempty (strip record))); [now left|].
  destruct (splitn [NUL] 3 (strip record)) as [|h [|e [|d [|m [|? ?]]]]];
    try now left.
  destruct (nonempty emails && negb (set_in (lower e) emails)) eqn:Ef;
    [now left|].
  destruct (set_in (lower h) seen) eqn:Es; [now left|].
  destruct (fromisoformat (replace_char 90 (u "+00:00") d)) as [date|] eqn:Ed;
    [|now left].
  right. exists h, e, d, m, date. repeat split; auto.
  intros Hn. rewrite Hn in Ef. simpl in Ef.
  now destruct (set_in (lower e) emails).
Qed.

Lemma log_fold_reads emails (P : CommitInfo.t -> Prop) records st :
  (forall c, In c (fst st) -> P c) ->
  (forall record h e d m date,
      In record records ->
      splitn [NUL] 3 (strip record) = [h; e; d; m] ->
      (nonempty emails = true -> set_in (lower e) emails = true) ->
      fromisoformat (replace_char 90 (u "+00:00") d) = Some date ->
      P (commit_of_fields h e m date)) ->
  forall c, In c (fst (fold_left (log_step emails) records st)) -> P c.
Proof.
  revert st; induction records as [|record records IH]; intros st H0 HP;
    simpl.
  - exact H0.
  - apply IH.
    + destruct (log_step_cases emails st record)
        as [E|(h & e & d & m & date & Es & Hf & _ & Ed & E)];
        rewrite E; [exact H0|].
      intros c Hc. apply in_app_iff in Hc. destruct Hc as [Hc|[<-|[]]].
      * now apply H0.
      * apply (HP record h e d m date); auto. now left.
    + intros record' h e d m date Hin. apply HP. now right.
Qed.

Lemma log_fold_length emails records st :
  (List.length (fst (fold_left (log_step emails) records st))
   <= List.length (fst st) + List.length records)%nat.
Proof.
  revert st; induction records as [|record records IH]; intros st; simpl.
  - lia.
  - specialize (IH (log_step emails st record)).
    destruct (log_step_cases emails st record)
      as [E|(h & e & d & m & date & _ & _ & _ & _ & E)];
      rewrite E in IH; [lia|].
    rewrite length_app in IH. simpl in IH. lia.
Qed.

(** X1. Every commit [parse_git_log] returns is read from one record of
    the output of [git log]: the record, stripped, has four NUL-separated
    fields; the hash and the e-mail are lower-cased, the message is
    stripped (stripping it again changes nothing), the date is what
    [fromisoformat] reads once [Z] is replaced by [+00:00], and the commit
    has no label and no files yet.  No hash is returned twice, and there
    are at most as many commits as records. *)
Theorem parse_git_log_reads_records repo_path year emails :
  let output := snd (log_query run_git_command repo_path year) in
  let records := str_split [NUL; NUL] output in
  let commits := parse_git_log run_git_command repo_path year emails in
  NoDup (map CommitInfo.hash commits)
  /\ (List.length commits <= List.length records)%nat
  /\ (forall c,
         In c commits ->
         exists record h e d m date,
           In record records
           /\ splitn [NUL] 3 (strip record) = [h; e; d; m]
           /\ fromisoformat (replace_char 90 (u "+00:00") d) = Some date
           /\ c = CommitInfo.mk (lower h) (lower e) date (strip m) [] []
           /\ strip (CommitInfo.message c) = CommitInfo.message c).
Proof.
  cbv zeta. split; [apply parse_git_log_NoDup|].
  unfold parse_git_log, log_query.
  destruct (run_git_command _ _) as [success output]. cbn [snd].
  destruct (negb success || negb (nonempty (strip output))).
  - split; [simpl; lia|intros c []].
  - split.
    + apply (log_fold_length emails (str_split [NUL; NUL] output) ([], [])).
    + apply (log_fold_reads emails); [intros c []|].
      intros record h e d m date Hin Es _ Ed.
      exists record, h, e, d, m, date. repeat split; auto.
      unfold commit_of_fields. cbn [CommitInfo.message]. apply strip_strip.
Qed.

(** X2. With a non-empty set of e-mails, [parse_git_log] returns only
    commits whose lower-cased author e-mail is in the set. *)
Theorem parse_git_log_author_filter repo_path year emails c :
  emails <> [] ->
  In c (parse_git_log run_git_command repo_path year emails) ->
  In (CommitInfo.email c) emails.
Proof.
  intros Hne. unfold parse_git_log.
  destruct (run_git_command _ _) as [success output].
  destruct (negb success || negb (nonempty (strip output))); [intros []|].
  revert c. apply (log_fold_reads emails); [intros c []|].
  intros record h e d m date _ _ Hf _. cbn [commit_of_fields CommitInfo.email].
  apply set_in_In. apply Hf. now destruct emails.
Qed.

Lemma parse_git_log_failed repo_path year emails :
  fst (log_query run_git_command repo_path year) = false
  \/ strip (snd (log_query run_git_command repo_path year)) = [] ->
  parse_git_log run_git_command repo_path year emails = [].
Proof.
  unfold parse_git_log, log_query.
  destruct (run_git_command _ _) as [success output]. cbn [fst snd].
  intros [-> | ->]; [reflexivity|]. now rewrite orb_true_r.
Qed.

(** *** The lines of the numstat output *)

Lemma count_field_reads field n :
  count_field field = Some n <-> reads_count field n.
Proof.
  unfold count_field, reads_count.
  destruct (keq field SENTINEL) eqn:E.
  - apply keq_spec in E. split.
    + intros H; injection H as <-. now left.
    + intros [[_ ->]|[H _]]; [reflexivity|contradiction].
  - apply keq_false in E. split.
    + intros H. now right.
    + intros [[H _]|[_ H]]; [contradiction|exact H].
Qed.

Lemma diff_step_cases line :
  diff_step [] line = []
  \/ exists added deleted filename rest x y,
       str_split [TAB] line = added :: deleted :: filename :: rest
       /\ count_field added = Some x /\ count_field deleted = Some y
       /\ diff_step [] line
          = [FileDiff.mk filename (get_language filename) x y 0].
Proof.
  unfold diff_step.
  destruct (negb (nonempty line)); [now left|].
  destruct (str_split [TAB] line) as [|a [|d [|name rest]]]; try now left.
  destruct (count_field a) as [x|] eqn:Ea; [|now left].
  destruct (count_field d) as [y|] eqn:Ed; [|now left].
  right. exists a, d, name, rest, x, y. auto.
Qed.

Lemma diff_step_counts line added deleted filename rest x y :
  str_split [TAB] line = added :: deleted :: filename :: rest ->
  count_field added = Some x -> count_field deleted = Some y ->
  diff_step [] line = [FileDiff.mk filename (get_language filename) x y 0].
Proof.
  intros Es Ea Ed. unfold diff_step.
  destruct line as [|c line]; [discriminate Es|].
  cbn [nonempty negb]. now rewrite Es, Ea, Ed.
Qed.

Lemma numstat_lines_reads lines f :
  In f (numstat_lines lines) ->
  exists line added deleted filename rest,
    In line lines
    /\ str_split [TAB] line = added :: deleted :: filename :: rest
    /\ count_field added = Some (FileDiff.added_lines f)
    /\ count_field deleted = Some (FileDiff.deleted_lines f)
    /\ f = FileDiff.mk filename (get_language filename)
             (FileDiff.added_lines f) (FileDiff.deleted_lines f) 0.
Proof.
  induction lines as [|line lines IH] using rev_ind.
  - intros [].
  - rewrite numstat_lines_split, app_nil_r. intros Hin.
    apply in_app_iff in Hin. destruct Hin as [Hin|Hin].
    + destruct (IH Hin) as (l & a & d & n & r & Hl & H).
      exists l, a, d, n, r. split; [apply in_app_iff; now left|exact H].
    + destruct (diff_step_cases line)
        as [E|(a & d & n & r & x & y & Es & Ea & Ed & E)];
        rewrite E in Hin; [destruct Hin|destruct Hin as [<-|[]]].
      exists line, a, d, n, r. cbn [FileDiff.added_lines FileDiff.deleted_lines].
      split; [apply in_app_iff; right; now left|auto].
Qed.

Lemma numstat_lines_length lines :
  (List.length (numstat_lines lines) <= List.length lines)%nat.
Proof.
  induction lines as [|line lines IH] using rev_ind; [simpl; lia|].
  rewrite numstat_lines_split, app_nil_r, !length_app. simpl.
  destruct (diff_step_cases line)
    as [E|(a & d & n & r & x & y & _ & _ & _ & E)]; rewrite E; simpl; lia.
Qed.

(** X3. Every [FileDiff] that [parse_git_diff] returns is read from one
    line of the numstat output: the line has at least three tab-separated
    fields, the third is the file name, the language is [get_language] of
    that name, each count is 0 for the sentinel [-] and what [int] reads
    otherwise, and [empty_lines_added] is 0.  There are at most as many
    records as lines. *)
Theorem parse_git_diff_reads_lines repo_path commit_hash :
  let output := snd (numstat_query run_git_command repo_path commit_hash) in
  let lines := str_split [LF] (strip output) in
  let files := parse_git_diff run_git_command repo_path commit_hash in
  (List.length files <= List.length lines)%nat
  /\ forall f,
       In f files ->
       exists line added deleted filename rest,
         In line lines
         /\ str_split [TAB] line = added :: deleted :: filename :: rest
         /\ reads_count added (FileDiff.added_lines f)
         /\ reads_count deleted (FileDiff.deleted_lines f)
         /\ FileDiff.filename f = filename
         /\ FileDiff.language f = get_language filename
         /\ FileDiff.empty_lines_added f = 0.
Proof.
  cbv zeta. unfold parse_git_diff.
  destruct (numstat_query run_git_command repo_path commit_hash)
    as [success output]. cbn [snd].
  destruct (negb success || negb (nonempty (strip output))).
  - split; [simpl; lia|intros f []].
  - split; [apply numstat_lines_length|].
    intros f Hin.
    destruct (numstat_lines_reads _ f Hin)
      as (line & a & d & n & r & Hl & Es & Ea & Ed & Ef).
    exists line, a, d, n, r. rewrite <- !count_field_reads.
    repeat split; auto; rewrite Ef; reflexivity.
Qed.

(** X4. A numstat line whose two counts read as numbers (the sentinel as
    0) gives, in its place, the record of its third field with those
    counts; fields after the third are ignored. *)
Theorem numstat_line_with_counts_kept
    repo_path commit_hash output l1 line l2 added deleted filename rest x y :
  numstat_query run_git_command repo_path commit_hash = (true, output) ->
  str_split [LF] (strip output) = l1 ++ line :: l2 ->
  str_split [TAB] line = added :: deleted :: filename :: rest ->
  reads_count added x ->
  reads_count deleted y ->
  parse_git_diff run_git_command repo_path commit_hash
  = numstat_lines l1
    ++ FileDiff.mk filename (get_language filename) x y 0
    :: numstat_lines l2.
Proof.
  intros Hq Hs Hf Ha Hd.
  rewrite (parse_git_diff_lines _ _ _ _ Hq), Hs, numstat_lines_split.
  apply count_field_reads in Ha, Hd.
  now rewrite (diff_step_counts _ _ _ _ _ _ _ Hf Ha Hd).
Qed.

(** *** Languages *)

Lemma od_find_Some_In {K V} `{EqbLaws K} (k : K) (v : V) (d : odict K V) :
  od_find k d = Some v -> In (k, v) d.
Proof.
  induction d as [|[k' v'] d IH]; simpl; [discriminate|].
  destruct (keq k k') eqn:E.
  - apply keq_spec in E. intros H1; injection H1 as ->. subst. now left.
  - intros H1. right. auto.
Qed.

(** X6. [get_language] answers with a language of
    [DEFAULT_EXCLUDE_LANGUAGES] exactly for the file names whose
    lower-cased suffix is one of [.json .yaml .yml .xml .md .rst]; any
    language it answers with is a value of [LANGUAGE_MAP]. *)
Theorem get_language_excluded_suffixes filename :
  ((exists l, get_language filename = Some l
              /\ In l DEFAULT_EXCLUDE_LANGUAGES)
   <-> In (lower (path_suffix filename)) EXCLUDED_SUFFIXES)
  /\ (forall l, get_language filename = Some l ->
                In (lower (path_suffix filename), l) LANGUAGE_MAP).
Proof.
  unfold get_language. split; [split|].
  - intros (l & Hf & Hl). apply od_find_Some_In in Hf.
    assert (Hall :
      forallb (fun kv => implb (set_in (snd kv) DEFAULT_EXCLUDE_LANGUAGES)
                               (set_in (fst kv) EXCLUDED_SUFFIXES))
              LANGUAGE_MAP = true) by (vm_compute; reflexivity).
    pose proof (proj1 (forallb_forall _ _) Hall _ Hf) as Hi.
    cbn [fst snd] in Hi. apply set_in_In in Hl. rewrite Hl in Hi.
    apply set_in_In. exact Hi.
  - intros Hin.
    repeat (destruct Hin as [<-|Hin];
            [eexists; split; [vm_compute; reflexivity|];
             apply set_in_In; vm_compute; reflexivity|]).
    destruct Hin.
  - intros l. apply od_find_Some_In.
Qed.

(** *** The loop over the repositories *)

Lemma analyze_repos_nil year emails :
  analyze_repos run_git_command [] year emails = [].
Proof. reflexivity. Qed.

Lemma analyze_repos_from repos year emails c :
  In c (analyze_repos run_git_command repos year emails) ->
  exists repo c0,
    In repo repos
    /\ In c0 (parse_git_log run_git_command repo year emails)
    /\ c = with_repo run_git_command repo c0.
Proof.
  induction repos as [|repo repos IH] using rev_ind; [intros []|].
  rewrite analyze_repos_snoc. cbv zeta. intros Hin.
  apply in_app_iff in Hin. destruct Hin as [Hin|Hin].
  - destruct (IH Hin) as (r & c0 & Hr & Hc & E).
    exists r, c0. split; [apply in_app_iff; now left|auto].
  - apply in_map_iff in Hin. destruct Hin as (c0 & <- & Hf).
    apply filter_In in Hf. exists repo, c0.
    split; [apply in_app_iff; right; now left|tauto].
Qed.

Lemma analyze_repos_grows repos more year emails c :
  In c (analyze_repos run_git_command repos year emails) ->
  In c (analyze_repos run_git_command (repos ++ more) year emails).
Proof.
  intros Hin. induction more as [|r more IH] using rev_ind.
  - now rewrite app_nil_r.
  - rewrite app_assoc, analyze_repos_snoc. cbv zeta.
    apply in_app_iff. now left.
Qed.

Lemma NoDup_map_eq {A B} (f : A -> B) (l : list A) a b :
  NoDup (map f l) -> In a l -> In b l -> f a = f b -> a = b.
Proof.
  induction l as [|x l IH]; simpl; [intros _ []|].
  intros Hnd Ha Hb E. inversion Hnd as [|? ? Hx Hnd']; subst.
  destruct Ha as [->|Ha], Hb as [->|Hb]; auto.
  - exfalso. apply Hx. rewrite E. now apply in_map.
  - exfalso. apply Hx. rewrite <- E. now apply in_map.
Qed.

(** X7. Where the commits of [analyze_repos] come from.  Every commit it
    returns is a commit of the log of one of the repositories, labelled
    with that repository's name and carrying the files [parse_git_diff]
    reads for its hash there.  A hash that several repositories hold is
    labelled by the first of them in the order of the list. *)
Theorem analyze_repos_labels_by_first_repository repos year emails :
  let out := analyze_repos run_git_command repos year emails in
  (forall c,
      In c out ->
      exists repo c0,
        In repo repos
        /\ In c0 (parse_git_log run_git_command repo year emails)
        /\ CommitInfo.hash c = CommitInfo.hash c0
        /\ CommitInfo.email c = CommitInfo.email c0
        /\ CommitInfo.date c = CommitInfo.date c0
        /\ CommitInfo.message c = CommitInfo.message c0
        /\ CommitInfo.repo_name c = Path.name repo
        /\ CommitInfo.files c
           = parse_git_diff run_git_command repo (CommitInfo.hash c))
  /\ (forall earlier repo later c0,
         repos = earlier ++ repo :: later ->
         In c0 (parse_git_log run_git_command repo year emails) ->
         (forall r c1,
             In r earlier ->
             In c1 (parse_git_log run_git_command r year emails) ->
             CommitInfo.hash c1 <> CommitInfo.hash c0) ->
         forall c,
           In c out -> CommitInfo.hash c = CommitInfo.hash c0 ->
           CommitInfo.repo_name c = Path.name repo
           /\ CommitInfo.files c
              = parse_git_diff run_git_command repo (CommitInfo.hash c0)).
Proof.
  cbv zeta. split.
  - intros c Hin. destruct (analyze_repos_from _ _ _ _ Hin)
      as (repo & c0 & Hr & Hc & ->).
    exists repo, c0. repeat split; auto.
  - intros earlier repo later c0 -> Hc0 Hfirst c Hin Eh.
    assert (Hw : In (with_repo run_git_command repo c0)
                    (analyze_repos run_git_command
                       (earlier ++ repo :: later) year emails)).
    { change (earlier ++ repo :: later) with (earlier ++ [repo] ++ later).
      rewrite app_assoc. apply analyze_repos_grows.
      rewrite analyze_repos_snoc. cbv zeta. apply in_app_iff. right.
      apply in_map. apply filter_In. split; [exact Hc0|].
      unfold fresh. apply negb_true_iff. apply set_in_false.
      intros Hh. apply in_map_iff in Hh. destruct Hh as (c' & Eh' & Hc').
      destruct (analyze_repos_from _ _ _ _ Hc') as (r & c1 & Hr & Hc1 & ->).
      rewrite with_repo_hash in Eh'. exact (Hfirst r c1 Hr Hc1 Eh'). }
    assert (E : c = with_repo run_git_command repo c0).
    { apply (NoDup_map_eq CommitInfo.hash _ _ _
               (analyze_repos_NoDup run_git_command _ year emails) Hin Hw).
      now rewrite with_repo_hash. }
    subst c. split; reflexivity.
Qed.

Lemma repo_step_failed year emails st repo :
  parse_git_log run_git_command repo year emails = [] ->
  repo_step run_git_command year emails st repo = st.
Proof. intros E. unfold repo_step. now rewrite E. Qed.

(** X8. A repository whose [git log] fails, or prints only whitespace,
    is passed over without an error: the commits [analyze_repos] returns
    are those of the other repositories. *)
Theorem failed_log_skips_repository earlier repo later year emails :
  fst (log_query run_git_command repo year) = false
  \/ strip (snd (log_query run_git_command repo year)) = [] ->
  analyze_repos run_git_command (earlier ++ repo :: later) year emails
  = analyze_repos run_git_command (earlier ++ later) year emails.
Proof.
  intros Hq. unfold analyze_repos, repos_state.
  rewrite !fold_left_app. cbn [fold_left].
  now rewrite (repo_step_failed _ _ _ _ (parse_git_log_failed _ _ _ Hq)).
Qed.

(** *** Tokens *)

Lemma split_ws_go_pieces s cur w :
  (forall c, In c cur -> is_space c = false) ->
  In w (split_ws_go s cur) ->
  w <> [] /\ forall c, In c w -> is_space c = false /\ (In c s \/ In c cur).
Proof.
  revert cur; induction s as [|a s IH]; intros cur Hcur;
    cbn [split_ws_go].
  - destruct cur as [|b cur]; cbn [nonempty]; [intros []|].
    intros [<-|[]]. split.
    + intros E. apply (f_equal (@List.length N)) in E.
      rewrite length_rev in E. discriminate E.
    + intros c Hc. apply in_rev in Hc. split; [auto|now right].
  - destruct (is_space a) eqn:Ea.
    + assert (Hrest : In w (split_ws_go s []) ->
                      w <> [] /\ forall c, In c w ->
                        is_space c = false /\ (In c (a :: s) \/ In c cur)).
      { intros Hin. destruct (IH [] (fun c (H : In c []) => match H with end) Hin)
          as [Hne Hall].
        split; [exact Hne|]. intros c Hc. destruct (Hall c Hc) as [Hs [H|[]]].
        split; [exact Hs|]. left. now right. }
      destruct cur as [|b cur]; cbn [nonempty]; [exact Hrest|].
      intros [<-|Hin]; [|exact (Hrest Hin)]. split.
      * intros E. apply (f_equal (@List.length N)) in E.
        rewrite length_rev in E. discriminate E.
      * intros c Hc. apply in_rev in Hc. split; [auto|now right].
    + intros Hin.
      assert (Hcur' : forall c, In c (a :: cur) -> is_space c = false).
      { intros c [<-|Hc]; auto. }
      destruct (IH (a :: cur) Hcur' Hin) as [Hne Hall].
      split; [exact Hne|]. intros c Hc. destruct (Hall c Hc) as [Hs H].
      split; [exact Hs|]. destruct H as [H|[<-|H]]; auto.
      * left. now right.
      * left. now left.
Qed.

Lemma extract_words_chars text w c :
  In w (extract_words text) -> In c w ->
  In c (lower text) /\ is_space c = false
  /\ (is_word c = true \/ is_cjk c = true).
Proof.
  unfold extract_words. intros Hw Hc. apply filter_In in Hw.
  destruct Hw as [Hw _]. unfold split_ws in Hw.
  destruct (split_ws_go_pieces _ [] w
              (fun c (H : In c []) => match H with end) Hw) as [_ Hall].
  destruct (Hall c Hc) as [Hs [Hin|[]]].
  apply in_map_iff in Hin. destruct Hin as (c0 & E & Hin).
  destruct (kept_char c0) eqn:Ek.
  - subst c0. split; [exact Hin|]. split; [exact Hs|].
    unfold kept_char in Ek. rewrite Hs, orb_false_r in Ek.
    apply orb_true_iff in Ek. exact Ek.
  - subst c. discriminate Hs.
Qed.

(** X9. The tokens of [extract_words]: each is longer than two
    characters and is no stop word, and each of its characters is a
    character of the lower-cased text that is no whitespace and is a word
    character or a CJK ideograph (punctuation never reaches a token). *)
Theorem extract_words_tokens text w :
  In w (extract_words text) ->
  2 < len w
  /\ ~ In w stop_words
  /\ forall c,
       In c w ->
       In c (lower text) /\ is_space c = false
       /\ (is_word c = true \/ is_cjk c = true).
Proof.
  intros Hw. split; [|split].
  - unfold extract_words in Hw. apply filter_In in Hw. destruct Hw as [_ H].
    apply andb_true_iff in H. destruct H as [H _]. now apply Z.ltb_lt in H.
  - unfold extract_words in Hw. apply filter_In in Hw. destruct Hw as [_ H].
    apply andb_true_iff in H. destruct H as [_ H].
    apply negb_true_iff in H. now apply set_in_false in H.
  - intros c. now apply extract_words_chars.
Qed.

(** *** The work types *)

Lemma work_fold msg patterns counter :
  fold_left (work_step msg) patterns counter
  = counter_update counter
      (map snd (filter (fun entry => contains (fst entry) msg) patterns)).
Proof.
  revert counter; induction patterns as [|[p t] patterns IH]; intros counter;
    simpl; [reflexivity|].
  rewrite IH. destruct (contains p msg); reflexivity.
Qed.

Lemma fold_counter_flat {A} (f : A -> list pystr)
    (step : odict pystr Z -> A -> odict pystr Z) :
  (forall c x, step c x = counter_update c (f x)) ->
  forall l c, fold_left step l c = counter_update c (flat_map f l).
Proof.
  intros Hstep. induction l as [|x l IH]; intros c; simpl; [reflexivity|].
  rewrite IH, Hstep. symmetry. apply counter_update_app.
Qed.

Lemma work_counter_labels commits counter :
  fold_left
    (fun work_counter commit =>
       let msg_lower := lower (CommitInfo.message commit) in
       fold_left (work_step msg_lower) work_patterns work_counter)
    commits counter
  = counter_update counter (work_labels commits).
Proof.
  apply fold_counter_flat. intros c x. apply work_fold.
Qed.

Lemma insert_by_perm {A} (le : A -> A -> bool) x l :
  Permutation (x :: l) (insert_by le x l).
Proof.
  induction l as [|y l IH]; simpl; [reflexivity|].
  destruct (le x y); [reflexivity|].
  rewrite perm_swap. now apply perm_skip.
Qed.

Lemma sorted_by_perm {A} (le : A -> A -> bool) l :
  Permutation l (sorted_by le l).
Proof.
  induction l as [|x l IH]; simpl; [reflexivity|].
  rewrite <- insert_by_perm. now apply perm_skip.
Qed.

Lemma NoDup_firstn {A} n (l : list A) : NoDup l -> NoDup (firstn n l).
Proof.
  intros H. rewrite <- (firstn_skipn n l) in H.
  exact (NoDup_app_remove_r _ _ H).
Qed.

Lemma nth_error_map_fst {A B} (l : list (A * B)) i a :
  nth_error (map fst l) i = Some a -> exists b, nth_error l i = Some (a, b).
Proof.
  rewrite nth_error_map. destruct (nth_error l i) as [[a' b]|]; simpl;
    [|discriminate].
  intros E; injection E as <-. now exists b.
Qed.

(** X10. [analyze_main_work] ranks the work types by the number of
    (commit, pattern) matches: a message counts once for every pattern of
    [work_patterns] it contains, so twice for a type two of whose patterns
    occur in it.  The result has at most five types, each matched at
    least once and none twice, in descending order of matches, ties in the
    order of first match; a matched type that is left out is outranked by
    the five that are kept. *)
Theorem main_work_ranked_by_pattern_matches commits :
  let ranked := analyze_main_work commits in
  let labels := work_labels commits in
  (List.length ranked <= 5)%nat
  /\ NoDup ranked
  /\ (forall t, In t ranked -> In t labels)
  /\ (forall i j ti tj,
         (i < j)%nat ->
         nth_error ranked i = Some ti ->
         nth_error ranked j = Some tj ->
         occurrences tj labels <= occurrences ti labels
         /\ (occurrences ti labels = occurrences tj labels ->
             (first_index ti labels < first_index tj labels)%nat))
  /\ (forall t,
         In t labels -> ~ In t ranked ->
         List.length ranked = 5%nat
         /\ forall t',
              In t' ranked ->
              occurrences t labels <= occurrences t' labels
              /\ (occurrences t labels = occurrences t' labels ->
                  (first_index t' labels < first_index t labels)%nat)).
Proof.
  cbv zeta. unfold analyze_main_work. rewrite work_counter_labels.
  set (labels := work_labels commits).
  set (c := counter_update [] labels).
  assert (Hc : counts labels c)
    by exact (counts_update [] [] labels counts_nil).
  unfold most_common. set (ranking := sorted_by (desc snd) c).
  assert (Hval : forall t n, In (t, n) ranking -> n = occurrences t labels).
  { intros t n Hin. apply In_sorted_by in Hin.
    exact (proj1 (counts_In _ _ _ _ Hc Hin)). }
  split; [|split; [|split; [|split]]].
  - rewrite length_map. apply firstn_le_length.
  - rewrite <- firstn_map. apply NoDup_firstn.
    apply (Permutation_NoDup (Permutation_map fst (sorted_by_perm _ c))).
    exact (proj1 Hc).
  - intros t Hin. apply in_map_iff in Hin. destruct Hin as ([t' n] & <- & Hin).
    apply In_firstn in Hin. apply In_sorted_by in Hin.
    destruct Hc as (_ & Hkeys & _). apply Hkeys.
    change (fst (t', n)) with (fst (t', n)). now apply (in_map fst) in Hin.
  - intros i j ti tj Hij Hi Hj.
    apply nth_error_map_fst in Hi, Hj.
    destruct Hi as [ni Hi], Hj as [nj Hj].
    assert (Hb : before (ti, ni) (tj, nj) ranking).
    { apply (before_firstn 5). exact (before_nth _ i j _ _ Hij Hi Hj). }
    destruct (before_In _ _ _ Hb) as [Hini Hinj].
    rewrite <- (Hval _ _ Hini), <- (Hval _ _ Hinj).
    exact (ranking_of_counts labels c ti ni tj nj Hc Hb).
  - intros t Ht Hout.
    pose proof (counts_key _ _ _ Hc Ht) as Hin.
    apply (In_sorted_by (desc snd)) in Hin. fold ranking in Hin.
    rewrite <- (firstn_skipn 5 ranking) in Hin.
    apply in_app_iff in Hin. destruct Hin as [Hin|Hin].
    { exfalso. apply Hout.
      change t with (fst (t, occurrences t labels)). now apply in_map. }
    split.
    + rewrite length_map. apply firstn_length_le.
      destruct (Nat.le_gt_cases 5 (List.length ranking)) as [Hlen|Hlen];
        [exact Hlen|].
      rewrite skipn_all2 in Hin by lia. destruct Hin.
    + intros t' Hin'. apply in_map_iff in Hin'.
      destruct Hin' as ([t'' n'] & E & Hin'). cbn [fst] in E. subst t''.
      assert (Hb : before (t', n') (t, occurrences t labels) ranking).
      { rewrite <- (firstn_skipn 5 ranking). now apply before_across. }
      rewrite <- (Hval t' n' (In_firstn _ _ _ Hin')).
      destruct (ranking_of_counts labels c _ _ _ _ Hc Hb) as [Hle Htie].
      split; [exact Hle|]. intros Heq. apply Htie. now symmetry.
Qed.

(** *** Sets built by [add] *)

Lemma distinct_snoc {A} `{Eqb A} (l : list A) x :
  distinct (l ++ [x]) = set_add x (distinct l).
Proof. unfold distinct. now rewrite fold_left_app. Qed.

Lemma distinct_NoDup {A} `{EqbLaws A} (l : list A) : NoDup (distinct l).
Proof.
  induction l as [|x l IH] using rev_ind; [constructor|].
  rewrite distinct_snoc. unfold set_add.
  destruct (set_in x (distinct l)) eqn:E; [exact IH|].
  apply NoDup_snoc; [exact IH|]. now apply set_in_false.
Qed.

Lemma distinct_In {A} `{EqbLaws A} (l : list A) x :
  In x (distinct l) <-> In x l.
Proof.
  induction l as [|y l IH] using rev_ind; [reflexivity|].
  rewrite distinct_snoc, set_add_In, in_app_iff, IH. simpl.
  split; [intros [->|Hx]; auto|intros [Hx|[->|[]]]; auto].
Qed.

Lemma distinct_order {A} `{EqbLaws A} (l : list A) x y :
  before x y (distinct l) -> (first_index x l < first_index y l)%nat.
Proof.
  revert x y; induction l as [|t l IH] using rev_ind; intros x y Hb.
  - inversion Hb.
  - rewrite distinct_snoc in Hb. unfold set_add in Hb.
    destruct (set_in t (distinct l)) eqn:E.
    + destruct (before_In _ _ _ Hb) as [H1 H2].
      apply (proj1 (distinct_In _ _)) in H1. apply (proj1 (distinct_In _ _)) in H2.
      rewrite !first_index_app by assumption. now apply IH.
    + apply before_snoc_inv in Hb. destruct Hb as [Hb|[H1 ->]].
      * destruct (before_In _ _ _ Hb) as [H1 H2].
        apply (proj1 (distinct_In _ _)) in H1. apply (proj1 (distinct_In _ _)) in H2.
        rewrite !first_index_app by assumption. now apply IH.
      * apply (proj1 (distinct_In _ _)) in H1. rewrite (first_index_app x) by assumption.
        apply set_in_false in E. rewrite distinct_In in E.
        rewrite first_index_new by assumption.
        now apply first_index_lt.
Qed.

Lemma distinct_length {A} `{EqbLaws A} (l : list A) :
  (List.length (distinct l) <= List.length l)%nat.
Proof.
  induction l as [|x l IH] using rev_ind; [simpl; lia|].
  rewrite distinct_snoc, length_set_add, length_app. simpl.
  destruct (set_in x (distinct l)); lia.
Qed.

Lemma set_fold_from {A} `{EqbLaws A} (l : list A) (s : pyset A) x :
  In x (fold_left (fun s x => set_add x s) l s) <-> In x s \/ In x l.
Proof.
  revert s; induction l as [|y l IH]; intros s; simpl; [tauto|].
  rewrite IH, set_add_In.
  split; [intros [[->|Hx]|Hx]; auto|intros [Hx|[->|Hx]]; auto].
Qed.

(** *** Counters and their keys *)

Lemma counter_keys {K} `{EqbLaws K} (c : odict K Z) keys :
  map fst (counter_update c keys)
  = fold_left (fun s x => set_add x s) keys (map fst c).
Proof.
  revert c; induction keys as [|k keys IH]; intros c; [reflexivity|].
  change (counter_update c (k :: keys))
    with (counter_update (counter_add k 1 c) keys).
  rewrite IH. cbn [fold_left]. f_equal.
  unfold counter_add. now rewrite keys_od_set.
Qed.

Lemma counter_keys_distinct {K} `{EqbLaws K} (keys : list K) :
  map fst (counter_update [] keys) = distinct keys.
Proof. exact (counter_keys (@nil (K * Z)) keys). Qed.

Lemma od_get_In {K} `{EqbLaws K} (k : K) (n : Z) (c : odict K Z) :
  NoDup (map fst c) -> In (k, n) c -> od_get k c 0 = n.
Proof. intros Hnd Hin. unfold od_get. now rewrite (od_find_In k n c Hnd Hin). Qed.

Lemma counter_value {K} `{EqbLaws K} (keys : list K) k n :
  In (k, n) (counter_update [] keys) ->
  n = occurrences k keys /\ In k keys.
Proof.
  intros Hin. split.
  - rewrite <- (od_get_In k n (counter_update [] keys)).
    + now rewrite counter_update_get.
    + rewrite counter_keys_distinct. apply distinct_NoDup.
    + exact Hin.
  - apply distinct_In. rewrite <- counter_keys_distinct.
    change k with (fst (k, n)). now apply in_map.
Qed.

Lemma sum_counter_add {K} `{EqbLaws K} (k : K) (n : Z) (c : odict K Z) :
  sum_Z (map snd (counter_add k n c)) = sum_Z (map snd c) + n.
Proof.
  unfold counter_add, od_get.
  induction c as [|[k' v'] c IH]; simpl; [lia|].
  destruct (keq k k'); simpl; lia.
Qed.

Lemma sum_counter_update {K} `{EqbLaws K} (c : odict K Z) keys :
  sum_Z (map snd (counter_update c keys)) = sum_Z (map snd c) + len keys.
Proof.
  revert c; induction keys as [|k keys IH]; intros c.
  - unfold len. simpl. lia.
  - unfold counter_update in *. simpl fold_left.
    rewrite IH, sum_counter_add. unfold len. simpl List.length. lia.
Qed.

Lemma occurrences_In_pos {K} `{EqbLaws K} (k : K) keys :
  In k keys -> 1 <= occurrences k keys.
Proof. intros Hin. apply occurrences_pos in Hin. lia. Qed.

(** *** [max] over the items of a dictionary *)

Lemma max_from_split {A} (key : A -> Z) best l :
  exists l1 l2,
    best :: l = l1 ++ max_from key best l :: l2
    /\ (forall y, In y l1 -> key y < key (max_from key best l))
    /\ (forall y, In y l2 -> key y <= key (max_from key best l)).
Proof.
  revert best; induction l as [|x l IH]; intros best; simpl.
  - exists [], []. repeat split; intros y [].
  - destruct (key best <? key x) eqn:E.
    + apply Z.ltb_lt in E.
      destruct (IH x) as (l1 & l2 & El & H1 & H2).
      remember (max_from key x l) as r eqn:Er. clear Er.
      assert (Hx : key x <= key r).
      { assert (Hin : In x (l1 ++ r :: l2)) by (rewrite <- El; now left).
        apply in_app_iff in Hin. destruct Hin as [Hin|[Ex|Hin]].
        - specialize (H1 _ Hin). lia.
        - rewrite Ex. lia.
        - now apply H2. }
      exists (best :: l1), l2. split; [now rewrite El|].
      split; [|exact H2].
      intros y [Ey|Hy]; [rewrite <- Ey; lia|now apply H1].
    + apply Z.ltb_ge in E.
      destruct (IH best) as (l1 & l2 & El & H1 & H2).
      remember (max_from key best l) as r eqn:Er. clear Er.
      destruct l1 as [|b l1].
      * simpl in El. injection El as Eb El.
        exists [], (x :: l2). split; [simpl; now rewrite <- Eb, El|].
        split; [intros y []|].
        intros y [Ey|Hy]; [rewrite <- Ey, <- Eb; exact E|now apply H2].
      * simpl in El. injection El as Eb El. subst b.
        exists (best :: x :: l1), l2. split; [simpl; now rewrite El|].
        split; [|exact H2].
        assert (Hb : key best < key r) by (apply H1; now left).
        intros y [Ey|[Ey|Hy]];
          [rewrite <- Ey; exact Hb|rewrite <- Ey; lia|apply H1; now right].
Qed.

Lemma py_max_split {A} (key : A -> Z) l x :
  py_max key l = Some x ->
  exists l1 l2,
    l = l1 ++ x :: l2
    /\ (forall y, In y l1 -> key y < key x)
    /\ (forall y, In y l2 -> key y <= key x).
Proof.
  destruct l as [|b l]; simpl; [discriminate|].
  intros E; injection E as <-. apply max_from_split.
Qed.

Lemma max_from_map {A B} (f : A -> B) (key : B -> Z) best l :
  max_from key (f best) (map f l) = f (max_from (fun x => key (f x)) best l).
Proof.
  revert best; induction l as [|x l IH]; intros best; simpl; [reflexivity|].
  destruct (key (f best) <? key (f x)); apply IH.
Qed.

Lemma py_max_map {A B} (f : A -> B) (key : B -> Z) l :
  py_max key (map f l) = option_map f (py_max (fun x => key (f x)) l).
Proof.
  destruct l as [|b l]; simpl; [reflexivity|]. now rewrite max_from_map.
Qed.

Lemma before_split {A} (l1 l2 : list A) x y :
  In y l2 -> before x y (l1 ++ x :: l2).
Proof.
  intros Hy. induction l1 as [|z l1 IH]; simpl.
  - now apply before_here.
  - now apply before_later.
Qed.

(** The first of the most frequent keys. *)
Lemma counter_max {K} `{EqbLaws K} (keys : list K) k n :
  py_max snd (counter_update [] keys) = Some (k, n) ->
  In k keys
  /\ n = occurrences k keys
  /\ forall k',
       occurrences k' keys <= occurrences k keys
       /\ (occurrences k' keys = occurrences k keys ->
           (first_index k keys <= first_index k' keys)%nat).
Proof.
  intros Hmax. destruct (py_max_split _ _ _ Hmax) as (l1 & l2 & El & H1 & H2).
  set (c := counter_update [] keys) in *.
  assert (Hin : In (k, n) c) by (rewrite El; apply in_app_iff; right; now left).
  destruct (counter_value keys k n Hin) as [En Hk].
  split; [exact Hk|]. split; [exact En|].
  intros k'.
  assert (Hdec : In k' keys \/ ~ In k' keys).
  { destruct (set_in k' keys) eqn:E;
      [left; now apply set_in_In|right; now apply set_in_false]. }
  destruct Hdec as [Hk'|Hk'].
  - assert (Hin' : In k' (map fst c)).
    { unfold c. rewrite counter_keys_distinct. now apply distinct_In. }
    apply in_map_iff in Hin'. destruct Hin' as ([k'' n'] & E & Hin').
    cbn [fst] in E. subst k''.
    destruct (counter_value keys k' n' Hin') as [En' _].
    rewrite El in Hin'. apply in_app_iff in Hin'.
    destruct Hin' as [Hin'|[E|Hin']].
    + specialize (H1 _ Hin'). cbn [snd] in H1. split; lia.
    + injection E as -> ->. split; lia.
    + specialize (H2 _ Hin'). cbn [snd] in H2. split; [lia|].
      intros _. apply Nat.lt_le_incl. apply distinct_order.
      rewrite <- counter_keys_distinct. fold c. rewrite El, map_app.
      cbn [map fst]. apply before_split.
      change k' with (fst (k', n')). now apply in_map.
  - assert (E0 : occurrences k' keys = 0).
    { pose proof (occurrences_nonneg k' keys) as Hnn.
      pose proof (proj1 (occurrences_pos k' keys)) as Hpos.
      destruct (Z.eq_dec (occurrences k' keys) 0) as [E|E]; [exact E|].
      exfalso. apply Hk'. apply Hpos. lia. }
    pose proof (occurrences_In_pos k keys Hk). split; lia.
Qed.

(** *** The calendar fields of the tally *)

Lemma commit_step_dates ex a c :
  Tally.active_dates (commit_step ex a c)
  = set_add (day_of c) (Tally.active_dates a)
  /\ Tally.weekend_dates (commit_step ex a c)
     = (if is_weekend (day_of c)
        then set_add (day_of c) (Tally.weekend_dates a)
        else Tally.weekend_dates a)
  /\ Tally.commits_by_month (commit_step ex a c)
     = counter_add (month_of c) 1 (Tally.commits_by_month a)
  /\ Tally.commits_by_date (commit_step ex a c)
     = od_set (day_of c)
         (od_get (day_of c) (Tally.commits_by_date a) [] ++ [c])
         (Tally.commits_by_date a).
Proof.
  unfold commit_step.
  destruct (fold_left (file_step ex) (CommitInfo.files c) _) as [[x y] z].
  repeat split.
Qed.

Lemma sizes_od_set {K A} `{EqbLaws K} (k : K) (v : list A) d :
  sizes (od_set k v d) = od_set k (len v) (sizes d).
Proof.
  unfold sizes. induction d as [|[k' v'] d IH]; simpl; [reflexivity|].
  destruct (keq k k'); simpl; [reflexivity|]. now rewrite IH.
Qed.

Lemma sizes_od_get {K A} `{EqbLaws K} (k : K) (d : odict K (list A)) :
  od_get k (sizes d) 0 = len (od_get k d []).
Proof.
  unfold sizes, od_get. induction d as [|[k' v'] d IH]; simpl; [reflexivity|].
  destruct (keq k k'); [reflexivity|exact IH].
Qed.

Lemma commit_fold_dates ex cs a :
  Tally.active_dates (fold_left (commit_step ex) cs a)
  = fold_left (fun s x => set_add x s) (map day_of cs) (Tally.active_dates a)
  /\ Tally.weekend_dates (fold_left (commit_step ex) cs a)
     = fold_left (fun s x => set_add x s)
         (filter is_weekend (map day_of cs)) (Tally.weekend_dates a)
  /\ Tally.commits_by_month (fold_left (commit_step ex) cs a)
     = counter_update (Tally.commits_by_month a) (map month_of cs)
  /\ sizes (Tally.commits_by_date (fold_left (commit_step ex) cs a))
     = counter_update (sizes (Tally.commits_by_date a)) (map day_of cs).
Proof.
  revert a; induction cs as [|c cs IH]; intros a.
  - repeat split.
  - cbn [fold_left map]. destruct (IH (commit_step ex a c)) as (H1 & H2 & H3 & H4).
    destruct (commit_step_dates ex a c) as (E1 & E2 & E3 & E4).
    rewrite H1, H2, H3, H4, E1, E2, E3, E4. cbn [filter].
    split; [reflexivity|]. split; [|split; [reflexivity|]].
    + destruct (is_weekend (day_of c)); reflexivity.
    + rewrite sizes_od_set, len_app, <- sizes_od_get. reflexivity.
Qed.

(** The tables and the day counts of the snapshot, the empty input
    included. *)
Lemma analyze_commits_tables today commits year exclude_languages :
  let s := analyze_commits today commits year exclude_languages in
  YearStats.heatmap s = counter_update [] (map day_of_year commits)
  /\ YearStats.commits_by_hour s = counter_update [] (map hour_of commits)
  /\ YearStats.commits_by_weekday s
     = counter_update [] (map weekday_of commits)
  /\ YearStats.active_days s = len (distinct (map day_of commits))
  /\ YearStats.weekend_days s
     = len (distinct (filter is_weekend (map day_of commits))).
Proof.
  destruct commits as [|c cs]; [repeat split|].
  cbv zeta. rewrite analyze_commits_cons. cbv zeta.
  unfold YearStats.with_achievements;
    cbn [YearStats.heatmap YearStats.commits_by_hour
         YearStats.commits_by_weekday YearStats.active_days
         YearStats.weekend_days].
  destruct (commit_fold_calendar (excluded exclude_languages) (c :: cs)
              Tally.init) as (H1 & H2 & H3).
  destruct (commit_fold_dates (excluded exclude_languages) (c :: cs)
              Tally.init) as (D1 & D2 & _ & _).
  rewrite H1, H2, H3, D1, D2. repeat split.
Qed.

Lemma distinct_map_length {A B} `{EqbLaws A} `{EqbLaws B} (f : A -> B) l :
  (List.length (distinct (map f l)) <= List.length (distinct l))%nat.
Proof.
  rewrite <- (length_map f (distinct l)).
  apply NoDup_incl_length; [apply distinct_NoDup|].
  intros y Hy. apply (proj1 (distinct_In _ _)) in Hy.
  apply in_map_iff in Hy. destruct Hy as (x & <- & Hx).
  apply in_map. now apply distinct_In.
Qed.

Lemma distinct_filter_length {A} `{EqbLaws A} (p : A -> bool) l :
  (List.length (distinct (filter p l)) <= List.length (distinct l))%nat.
Proof.
  apply NoDup_incl_length; [apply distinct_NoDup|].
  intros y Hy. apply (proj1 (distinct_In _ _)) in Hy.
  apply filter_In in Hy. apply distinct_In. tauto.
Qed.

Lemma counter_positive {K} `{EqbLaws K} (keys : list K) k n :
  In (k, n) (counter_update [] keys) -> 1 <= n.
Proof.
  intros Hin. destruct (counter_value keys k n Hin) as [-> Hk].
  now apply occurrences_In_pos.
Qed.

Lemma len_map {A B} (f : A -> B) l : len (map f l) = len l.
Proof. unfold len. now rewrite length_map. Qed.

(** X11. The calendar tables account for every commit.  The counts of
    the heatmap, of the hours and of the weekdays each add up to
    [total_commits], and no table holds a count below 1.  [active_days] is
    the number of distinct commit dates and [weekend_days] the number of
    those that fall on a Saturday or Sunday, so
    [weekend_days <= active_days <= total_commits]; the heatmap, keyed by
    the day of the year alone, has at most [active_days] entries. *)
Theorem calendar_tables_account_for_every_commit
    today commits year exclude_languages :
  let s := analyze_commits today commits year exclude_languages in
  sum_Z (map snd (YearStats.heatmap s)) = YearStats.total_commits s
  /\ sum_Z (map snd (YearStats.commits_by_hour s)) = YearStats.total_commits s
  /\ sum_Z (map snd (YearStats.commits_by_weekday s))
     = YearStats.total_commits s
  /\ (forall k n,
         In (k, n) (YearStats.heatmap s)
         \/ In (k, n) (YearStats.commits_by_hour s)
         \/ In (k, n) (YearStats.commits_by_weekday s) ->
         1 <= n)
  /\ YearStats.active_days s = len (distinct (map day_of commits))
  /\ YearStats.weekend_days s
     = len (distinct (filter is_weekend (map day_of commits)))
  /\ len (YearStats.heatmap s) <= YearStats.active_days s
  /\ YearStats.active_days s <= YearStats.total_commits s
  /\ YearStats.weekend_days s <= YearStats.active_days s.
Proof.
  cbv zeta.
  destruct (analyze_commits_tables today commits year exclude_languages)
    as (H1 & H2 & H3 & H4 & H5).
  rewrite H1, H2, H3, H4, H5, analyze_commits_count.
  rewrite !sum_counter_update, !len_map. cbn [map sum_Z].
  split; [lia|]. split; [lia|]. split; [lia|].
  split; [|split; [reflexivity|split; [reflexivity|split; [|split]]]].
  - intros k n [H|[H|H]]; exact (counter_positive _ _ _ H).
  - rewrite <- (len_map fst), counter_keys_distinct. unfold len.
    apply inj_le.
    change (map day_of_year commits) with (map day_of_year commits).
    replace (map day_of_year commits) with (map tm_yday (map day_of commits))
      by (rewrite map_map; reflexivity).
    apply distinct_map_length.
  - unfold len. apply inj_le.
    rewrite <- (length_map day_of commits). apply distinct_length.
  - unfold len. apply inj_le. apply distinct_filter_length.
Qed.

(** The first of the busiest months and the first of the busiest days. *)
Lemma busiest_month_and_day
    today commits year exclude_languages :
  commits <> [] ->
  let s := analyze_commits today commits year exclude_languages in
  let months := map month_of commits in
  let days := map day_of commits in
  (exists m,
      YearStats.most_active_month s = Some m
      /\ In m months
      /\ YearStats.most_active_month_commits s = occurrences m months
      /\ forall m',
           occurrences m' months <= occurrences m months
           /\ (occurrences m' months = occurrences m months ->
               (first_index m months <= first_index m' months)%nat))
  /\ (exists d,
         YearStats.most_active_date s = Some (strftime_ymd d)
         /\ In d days
         /\ YearStats.most_active_date_commits s = occurrences d days
         /\ forall d',
              occurrences d' days <= occurrences d days
              /\ (occurrences d' days = occurrences d days ->
                  (first_index d days <= first_index d' days)%nat)).
Proof.
  intros Hne. destruct commits as [|c cs]; [contradiction|].
  cbv zeta. rewrite analyze_commits_cons. cbv zeta.
  unfold YearStats.with_achievements;
    cbn [YearStats.most_active_month YearStats.most_active_month_commits
         YearStats.most_active_date YearStats.most_active_date_commits].
  destruct (commit_fold_dates (excluded exclude_languages) (c :: cs)
              Tally.init) as (_ & _ & Hm & Hd).
  change (sizes (Tally.commits_by_date Tally.init)) with (@nil (Date.t * Z))
    in Hd.
  change (Tally.commits_by_month Tally.init) with (@nil (Z * Z)) in Hm.
  set (a := fold_left (commit_step (excluded exclude_languages)) (c :: cs)
              Tally.init) in *.
  split.
  - rewrite Hm.
    destruct (py_max snd (counter_update [] (map month_of (c :: cs))))
      as [[m n]|] eqn:E.
    + exists m. destruct (counter_max _ _ _ E) as (Hin & En & Hall).
      cbn [option_map fst snd]. auto.
    + exfalso. cbn [map] in E. unfold py_max in E.
      destruct (counter_update [] (month_of c :: map month_of cs)) eqn:Ec;
        [|discriminate E].
      apply (f_equal (map fst)) in Ec.
      rewrite counter_keys_distinct in Ec.
      assert (Hin : In (month_of c) (distinct (month_of c :: map month_of cs)))
        by (apply distinct_In; now left).
      rewrite Ec in Hin. destruct Hin.
  - pose proof (py_max_map
                  (fun kv : Date.t * list CommitInfo.t =>
                     (fst kv, len (snd kv)))
                  snd (Tally.commits_by_date a)) as Hmap.
    fold (sizes (Tally.commits_by_date a)) in Hmap. rewrite Hd in Hmap.
    cbn [snd] in Hmap.
    destruct (py_max (fun x => len (snd x)) (Tally.commits_by_date a))
      as [[d l]|] eqn:E.
    + cbn [option_map fst snd] in Hmap |- *.
      exists d. destruct (counter_max _ _ _ Hmap) as (Hin & En & Hall). auto.
    + exfalso. cbn [option_map] in Hmap. cbn [map] in Hmap.
      unfold py_max in Hmap.
      destruct (counter_update [] (day_of c :: map day_of cs)) eqn:Ec;
        [|discriminate Hmap].
      apply (f_equal (map fst)) in Ec.
      rewrite counter_keys_distinct in Ec.
      assert (Hin : In (day_of c) (distinct (day_of c :: map day_of cs)))
        by (apply distinct_In; now left).
      rewrite Ec in Hin. destruct Hin.
Qed.

(** X12. The busiest day and month.  For a non-empty input,
    [most_active_month] is a month with the largest number of commits
    and [most_active_month_commits] is that number; among the months
    that share it, the one whose first commit comes first in the input
    is named.  [most_active_date] and [most_active_date_commits] are
    chosen among the commit dates by the same rule. *)
Theorem most_active_day_and_month_first_maximal
    today commits year exclude_languages :
  commits <> [] ->
  let s := analyze_commits today commits year exclude_languages in
  let months := map month_of commits in
  let days := map day_of commits in
  (exists m,
      YearStats.most_active_month s = Some m
      /\ In m months
      /\ YearStats.most_active_month_commits s = occurrences m months
      /\ forall m',
           occurrences m' months <= occurrences m months
           /\ (occurrences m' months = occurrences m months ->
               (first_index m months <= first_index m' months)%nat))
  /\ (exists d,
         YearStats.most_active_date s = Some (strftime_ymd d)
         /\ In d days
         /\ YearStats.most_active_date_commits s = occurrences d days
         /\ forall d',
              occurrences d' days <= occurrences d days
              /\ (occurrences d' days = occurrences d days ->
                  (first_index d days <= first_index d' days)%nat)).
Proof.
  exact (busiest_month_and_day today commits year exclude_languages).
Qed.

(** *** The language table *)

Lemma counts_as_code_Some ex language l :
  counts_as_code ex language = Some l
  <-> language = Some l /\ l <> [] /\ ~ In l ex.
Proof.
  unfold counts_as_code. destruct language as [l'|].
  - destruct (nonempty l') eqn:En; destruct (set_in l' ex) eqn:E;
      cbn [andb negb].
    + apply (proj1 (set_in_In _ _)) in E. split; [discriminate|].
      intros (E' & _ & Hex). injection E' as <-. contradiction.
    + apply (proj1 (set_in_false _ _)) in E. split.
      * intros E'; injection E' as <-. repeat split; auto.
        intros ->. discriminate En.
      * intros (E' & _). exact E'.
    + split; [discriminate|]. intros (E' & Hne & _). injection E' as <-.
      destruct l'; [now contradiction Hne|discriminate En].
    + split; [discriminate|]. intros (E' & Hne & _). injection E' as <-.
      destruct l'; [now contradiction Hne|discriminate En].
  - split; [discriminate|]. intros (E & _). discriminate E.
Qed.

Lemma od_get_od_set {K V} `{EqbLaws K} (w t : K) (v default : V) d :
  od_get w (od_set t v d) default
  = if keq w t then v else od_get w d default.
Proof. unfold od_get. rewrite od_find_od_set. now destruct (keq w t). Qed.

Lemma file_fold_table ex fs a d table l :
  od_get l (snd (fold_left (file_step ex) fs (a, d, table))) 0
  = od_get l table 0 + code_lines ex l fs.
Proof.
  revert a d table; induction fs as [|f fs IH]; intros a d table.
  - unfold code_lines. simpl. lia.
  - cbn [fold_left]. unfold file_step at 2. rewrite IH.
    unfold code_lines. cbn [filter].
    destruct (counts_as_code ex (FileDiff.language f)) as [l'|].
    + rewrite od_get_od_set. destruct (keq l l') eqn:E.
      * apply keq_spec in E. subst l'. cbn [map sum_Z]. lia.
      * lia.
    + lia.
Qed.

Lemma file_fold_keys ex fs a d table l :
  In l (map fst (snd (fold_left (file_step ex) fs (a, d, table))))
  <-> In l (map fst table)
      \/ exists f, In f fs /\ counts_as_code ex (FileDiff.language f) = Some l.
Proof.
  revert a d table; induction fs as [|f fs IH]; intros a d table.
  - simpl. split; [auto|]. intros [H|(f & [] & _)]. exact H.
  - cbn [fold_left]. unfold file_step at 2. rewrite IH.
    destruct (counts_as_code ex (FileDiff.language f)) as [l'|] eqn:E.
    + rewrite keys_od_set.
      change (if set_in l' (map fst table) then map fst table
              else map fst table ++ [l'])
        with (set_add l' (map fst table)).
      rewrite set_add_In. split.
      * intros [[->|H]|(f' & Hf' & E')].
        -- right. exists f. split; [now left|exact E].
        -- now left.
        -- right. exists f'. split; [now right|exact E'].
      * intros [H|(f' & [<-|Hf'] & E')].
        -- left. now right.
        -- left. left. rewrite E in E'. now injection E'.
        -- right. now exists f'.
    + split.
      * intros [H|(f' & Hf' & E')]; [now left|].
        right. exists f'. split; [now right|exact E'].
      * intros [H|(f' & [<-|Hf'] & E')]; [now left| |].
        -- rewrite E in E'. discriminate E'.
        -- right. now exists f'.
Qed.

Lemma file_fold_NoDup ex fs a d table :
  NoDup (map fst table) ->
  NoDup (map fst (snd (fold_left (file_step ex) fs (a, d, table)))).
Proof.
  revert a d table; induction fs as [|f fs IH]; intros a d table Hnd.
  - exact Hnd.
  - cbn [fold_left]. unfold file_step at 2. apply IH.
    destruct (counts_as_code ex (FileDiff.language f)) as [l'|];
      [|exact Hnd].
    rewrite keys_od_set. destruct (set_in l' (map fst table)) eqn:E;
      [exact Hnd|].
    apply NoDup_snoc; [exact Hnd|]. now apply set_in_false.
Qed.

(** X13. The language table.  Its keys are exactly the non-empty
    languages outside the exclusion set that some file of some commit
    carries (a file that adds no line still brings its language in), each
    key once; the value of a language is the sum of the added lines of
    the files in that language. *)
Theorem languages_table_sums_added_lines
    today commits year exclude_languages :
  let s := analyze_commits today commits year exclude_languages in
  let ex := excluded exclude_languages in
  let files := all_files commits in
  NoDup (map fst (YearStats.languages s))
  /\ (forall l,
         In l (map fst (YearStats.languages s))
         <-> l <> [] /\ ~ In l ex
             /\ exists f, In f files /\ FileDiff.language f = Some l)
  /\ (forall l,
         od_get l (YearStats.languages s) 0 = code_lines ex l files).
Proof.
  cbv zeta.
  pose proof (analyze_commits_lines today commits year exclude_languages)
    as Hl. cbv zeta in Hl. apply (f_equal snd) in Hl. cbn [snd] in Hl.
  rewrite Hl. split; [|split].
  - apply file_fold_NoDup. constructor.
  - intros l. rewrite file_fold_keys. split.
    + intros [[]|(f & Hf & E)]. apply counts_as_code_Some in E.
      destruct E as (E & Hne & Hex). repeat split; auto. now exists f.
    + intros (Hne & Hex & f & Hf & E). right. exists f. split; [exact Hf|].
      apply counts_as_code_Some. auto.
  - intros l. rewrite file_fold_table. reflexivity.
Qed.

(** *** The groups of [generate_repo_summaries] *)

Lemma nonempty_labels_distinct commits :
  nonempty_labels commits = distinct (labels_of commits).
Proof.
  unfold nonempty_labels, distinct, labels_of.
  generalize (@nil pystr). induction commits as [|c commits IH]; intros s;
    [reflexivity|].
  cbn [fold_left map filter].
  destruct (nonempty (CommitInfo.repo_name c)); cbn [fold_left]; apply IH.
Qed.

Lemma keq_nil_false (name : pystr) : name <> [] -> keq name (@nil N) = false.
Proof. intros Hne. apply keq_false. exact Hne. Qed.

Lemma group_fold_get cs d (name : pystr) :
  name <> [] ->
  od_get name (fold_left group_step cs d) []
  = od_get name d [] ++ commits_of name cs.
Proof.
  intros Hne. revert d; induction cs as [|c cs IH]; intros d.
  - simpl. now rewrite app_nil_r.
  - cbn [fold_left]. rewrite IH. unfold group_step, commits_of.
    cbn [filter].
    destruct (nonempty (CommitInfo.repo_name c)) eqn:En.
    + rewrite od_get_od_set.
      destruct (keq name (CommitInfo.repo_name c)) eqn:E.
      * apply keq_spec in E. rewrite <- E, <- app_assoc. reflexivity.
      * reflexivity.
    + destruct (CommitInfo.repo_name c); [|discriminate En].
      now rewrite (keq_nil_false name Hne).
Qed.

Lemma groups_NoDup commits :
  NoDup (map fst (fold_left group_step commits [])).
Proof.
  rewrite group_fold_keys. change (map fst []) with (@nil pystr).
  fold (nonempty_labels commits). rewrite nonempty_labels_distinct.
  apply distinct_NoDup.
Qed.

Lemma groups_keys commits :
  map fst (fold_left group_step commits []) = distinct (labels_of commits).
Proof.
  rewrite group_fold_keys. change (map fst []) with (@nil pystr).
  fold (nonempty_labels commits). apply nonempty_labels_distinct.
Qed.

Lemma labels_of_In commits name :
  In name (labels_of commits)
  <-> name <> [] /\ In name (map CommitInfo.repo_name commits).
Proof.
  unfold labels_of. rewrite filter_In. split.
  - intros [Hin Hn]. split; [|exact Hin]. intros ->. discriminate Hn.
  - intros [Hne Hin]. split; [exact Hin|]. now destruct name.
Qed.

Lemma groups_entry commits name l :
  In (name, l) (fold_left group_step commits []) ->
  name <> [] /\ l = commits_of name commits.
Proof.
  intros Hin.
  assert (Hname : name <> []).
  { apply (in_map fst) in Hin. rewrite groups_keys in Hin. cbn [fst] in Hin.
    apply (proj1 (distinct_In _ _)) in Hin.
    now apply labels_of_In in Hin. }
  split; [exact Hname|].
  pose proof (group_fold_get commits [] name Hname) as Hget.
  unfold od_get at 1 in Hget.
  rewrite (od_find_In name l _ (groups_NoDup commits) Hin) in Hget.
  exact Hget.
Qed.

Lemma sizes_groups cs d :
  sizes (fold_left group_step cs d) = counter_update (sizes d) (labels_of cs).
Proof.
  revert d; induction cs as [|c cs IH]; intros d; [reflexivity|].
  cbn [fold_left]. rewrite IH. unfold labels_of. cbn [map filter].
  unfold group_step.
  destruct (nonempty (CommitInfo.repo_name c)); [|reflexivity].
  rewrite sizes_od_set, len_app, <- sizes_od_get. reflexivity.
Qed.

(** *** One summary *)

Lemma repo_file_fold_lines ex fs a d l :
  fst (fst (fold_left (repo_file_step ex) fs (a, d, l)))
  = a + sum_Z (map FileDiff.added_lines fs)
  /\ snd (fst (fold_left (repo_file_step ex) fs (a, d, l)))
     = d + sum_Z (map FileDiff.deleted_lines fs).
Proof.
  revert a d l; induction fs as [|f fs IH]; intros a d l; simpl.
  - split; lia.
  - destruct (IH (a + FileDiff.added_lines f) (d + FileDiff.deleted_lines f)
                (match counts_as_code ex (FileDiff.language f) with
                 | Some l0 => counter_add l0 (FileDiff.added_lines f) l
                 | None => l
                 end)) as [H1 H2].
    rewrite H1, H2. split; lia.
Qed.

Lemma summary_step_fields ex a c :
  RepoTally.added_lines (summary_step ex a c)
  = RepoTally.added_lines a + sum_Z (map FileDiff.added_lines (CommitInfo.files c))
  /\ RepoTally.deleted_lines (summary_step ex a c)
     = RepoTally.deleted_lines a
       + sum_Z (map FileDiff.deleted_lines (CommitInfo.files c))
  /\ RepoTally.commit_dates (summary_step ex a c)
     = RepoTally.commit_dates a ++ [CommitInfo.date c]
  /\ RepoTally.commit_messages (summary_step ex a c)
     = RepoTally.commit_messages a ++ [message_entry c].
Proof.
  unfold summary_step.
  destruct (repo_file_fold_lines ex (CommitInfo.files c)
              (RepoTally.added_lines a) (RepoTally.deleted_lines a)
              (RepoTally.lang_counter a)) as [H1 H2].
  destruct (fold_left (repo_file_step ex) (CommitInfo.files c) _)
    as [[x y] z].
  cbn [fst snd] in H1, H2. subst x y. repeat split.
Qed.

Lemma summary_fold_fields ex cs a :
  let t := fold_left (summary_step ex) cs a in
  RepoTally.added_lines t
  = RepoTally.added_lines a + sum_Z (map FileDiff.added_lines (all_files cs))
  /\ RepoTally.deleted_lines t
     = RepoTally.deleted_lines a
       + sum_Z (map FileDiff.deleted_lines (all_files cs))
  /\ RepoTally.commit_dates t
     = RepoTally.commit_dates a ++ map CommitInfo.date cs
  /\ RepoTally.commit_messages t
     = RepoTally.commit_messages a ++ map message_entry cs.
Proof.
  revert a; induction cs as [|c cs IH]; intros a; cbv zeta.
  - cbn [fold_left all_files flat_map map sum_Z].
    rewrite !app_nil_r. repeat split; lia.
  - cbn [fold_left]. destruct (IH (summary_step ex a c)) as (H1 & H2 & H3 & H4).
    destruct (summary_step_fields ex a c) as (E1 & E2 & E3 & E4).
    rewrite H1, H2, H3, H4, E1, E2, E3, E4.
    change (all_files (c :: cs)) with (CommitInfo.files c ++ all_files cs).
    rewrite !map_app, !sum_Z_app, <- !app_assoc. cbn [map app].
    repeat split; lia.
Qed.

Lemma summarize_fields ex name cs :
  let r := summarize ex name cs in
  RepoSummary.name r = name
  /\ RepoSummary.commits r = len cs
  /\ RepoSummary.added_lines r = sum_Z (map FileDiff.added_lines (all_files cs))
  /\ RepoSummary.deleted_lines r
     = sum_Z (map FileDiff.deleted_lines (all_files cs))
  /\ RepoSummary.first_commit r
     = option_map (fun d => strftime_ymd (date_of d))
         (hd_error (sorted_by (asc utc_micros) (map CommitInfo.date cs)))
  /\ RepoSummary.last_commit r
     = option_map (fun d => strftime_ymd (date_of d))
         (hd_error (rev (sorted_by (asc utc_micros) (map CommitInfo.date cs))))
  /\ RepoSummary.commit_messages r
     = sorted_by (fun x y => pystr_leb (fst x) (fst y)) (map message_entry cs).
Proof.
  cbv zeta. unfold summarize.
  destruct (summary_fold_fields ex cs RepoTally.init) as (H1 & H2 & H3 & H4).
  cbn [RepoSummary.name RepoSummary.commits RepoSummary.added_lines
       RepoSummary.deleted_lines RepoSummary.first_commit
       RepoSummary.last_commit RepoSummary.commit_messages].
  rewrite H1, H2, H3, H4. repeat split.
Qed.

Lemma summaries_In commits ex r :
  In r (generate_repo_summaries commits ex)
  <-> exists name l,
        In (name, l) (fold_left group_step commits [])
        /\ r = summarize ex name l.
Proof.
  unfold generate_repo_summaries. rewrite In_sorted_by, in_map_iff. split.
  - intros ([name l] & <- & Hin). now exists name, l.
  - intros (name & l & Hin & ->). now exists (name, l).
Qed.

Lemma sum_Z_perm l1 l2 : Permutation l1 l2 -> sum_Z l1 = sum_Z l2.
Proof. induction 1; simpl; lia. Qed.

(** One summary for each non-empty label, of the commits that carry it. *)
Lemma repo_summaries_cover commits exclude_languages :
  let summaries := generate_repo_summaries commits exclude_languages in
  NoDup (map RepoSummary.name summaries)
  /\ (forall name,
         In name (map RepoSummary.name summaries)
         <-> name <> [] /\ In name (map CommitInfo.repo_name commits))
  /\ (forall r,
         In r summaries ->
         let own := commits_of (RepoSummary.name r) commits in
         r = summarize exclude_languages (RepoSummary.name r) own
         /\ RepoSummary.commits r = len own
         /\ 1 <= RepoSummary.commits r
         /\ RepoSummary.added_lines r
            = sum_Z (map FileDiff.added_lines (all_files own))
         /\ RepoSummary.deleted_lines r
            = sum_Z (map FileDiff.deleted_lines (all_files own)))
  /\ sum_Z (map RepoSummary.commits summaries) = len (labels_of commits).
Proof.
  cbv zeta.
  set (groups := fold_left group_step commits []).
  set (made := map (fun '(repo_name, repo_commit_list) =>
                      summarize exclude_languages repo_name repo_commit_list)
                 groups).
  assert (Hperm : Permutation made
                    (generate_repo_summaries commits exclude_languages))
    by apply sorted_by_perm.
  assert (Hnames : map RepoSummary.name made = distinct (labels_of commits)).
  { unfold made, groups. rewrite summaries_names.
    apply nonempty_labels_distinct. }
  split; [|split; [|split]].
  - apply (Permutation_NoDup (Permutation_map RepoSummary.name Hperm)).
    rewrite Hnames. apply distinct_NoDup.
  - intros name. rewrite <- labels_of_In, <- (distinct_In (labels_of commits)).
    rewrite <- Hnames. split; apply Permutation_in;
      [symmetry|]; now apply Permutation_map.
  - intros r Hin. apply summaries_In in Hin.
    destruct Hin as (name & l & Hin & ->).
    destruct (groups_entry _ _ _ Hin) as [Hne ->].
    destruct (summarize_fields exclude_languages name (commits_of name commits))
      as (E1 & E2 & E3 & E4 & _).
    rewrite E1. split; [reflexivity|]. split; [exact E2|].
    split; [|split; [exact E3|exact E4]].
    rewrite E2.
    assert (Hk : In name (map fst groups))
      by (change name with (fst (name, commits_of name commits));
          now apply in_map).
    unfold groups in Hk. rewrite groups_keys in Hk.
    apply (proj1 (distinct_In _ _)) in Hk. apply labels_of_In in Hk.
    destruct Hk as [_ Hk]. apply in_map_iff in Hk.
    destruct Hk as (c & Ec & Hc).
    assert (Hown : In c (commits_of name commits)).
    { apply filter_In. split; [exact Hc|]. apply keq_spec. now symmetry. }
    unfold len. destruct (commits_of name commits); [destruct Hown|].
    simpl List.length. lia.
  - rewrite <- (sum_Z_perm _ _ (Permutation_map RepoSummary.commits Hperm)).
    replace (map RepoSummary.commits made) with (map snd (sizes groups)).
    + unfold groups. rewrite sizes_groups.
      change (sizes []) with (@nil (pystr * Z)).
      rewrite sum_counter_update. cbn [map sum_Z]. lia.
    + unfold made, sizes. rewrite !map_map. apply map_ext.
      intros [name l]. cbn [snd fst].
      symmetry. exact (proj1 (proj2 (summarize_fields exclude_languages name l))).
Qed.

(** X14. Every summary of [generate_repo_summaries] is the summary of
    exactly the commits that carry its name, taken in input order: there
    is one summary for each non-empty label, it counts those commits (at
    least one) and adds up the lines of their files, and the commit counts
    of the summaries add up to the number of labelled commits. *)
Theorem repo_summary_covers_its_commits commits exclude_languages :
  let summaries := generate_repo_summaries commits exclude_languages in
  NoDup (map RepoSummary.name summaries)
  /\ (forall name,
         In name (map RepoSummary.name summaries)
         <-> name <> [] /\ In name (map CommitInfo.repo_name commits))
  /\ (forall r,
         In r summaries ->
         let own := commits_of (RepoSummary.name r) commits in
         r = summarize exclude_languages (RepoSummary.name r) own
         /\ RepoSummary.commits r = len own
         /\ 1 <= RepoSummary.commits r
         /\ RepoSummary.added_lines r
            = sum_Z (map FileDiff.added_lines (all_files own))
         /\ RepoSummary.deleted_lines r
            = sum_Z (map FileDiff.deleted_lines (all_files own)))
  /\ sum_Z (map RepoSummary.commits summaries) = len (labels_of commits).
Proof.
  exact (repo_summaries_cover commits exclude_languages).
Qed.

(** X15. The order of the summaries: by descending number of commits,
    and among repositories with equally many commits in the order in
    which their labels first occur in the input. *)
Theorem repo_summaries_ranked_by_commits commits exclude_languages :
  let summaries := generate_repo_summaries commits exclude_languages in
  let labels := labels_of commits in
  forall i j ri rj,
    (i < j)%nat ->
    nth_error summaries i = Some ri ->
    nth_error summaries j = Some rj ->
    RepoSummary.commits rj <= RepoSummary.commits ri
    /\ (RepoSummary.commits ri = RepoSummary.commits rj ->
        (first_index (RepoSummary.name ri) labels
         < first_index (RepoSummary.name rj) labels)%nat).
Proof.
  cbv zeta. intros i j ri rj Hij Hi Hj.
  pose proof (before_nth _ i j _ _ Hij Hi Hj) as Hb.
  unfold generate_repo_summaries in Hb.
  destruct (ranking_order RepoSummary.commits _ _ _ Hb) as [Hle Htie].
  split; [exact Hle|]. intros Heq. specialize (Htie Heq).
  apply (before_map RepoSummary.name) in Htie.
  rewrite summaries_names, nonempty_labels_distinct in Htie.
  now apply distinct_order.
Qed.

(** *** The order of strings *)

Lemma pystr_ltb_irrefl a : pystr_ltb a a = false.
Proof.
  induction a as [|x a IH]; simpl; [reflexivity|].
  now rewrite N.ltb_irrefl.
Qed.

Lemma pystr_ltb_asym a b : pystr_ltb a b = true -> pystr_ltb b a = false.
Proof.
  revert b; induction a as [|x a IH]; intros [|y b]; simpl; try congruence.
  destruct (x <? y)%N eqn:E1, (y <? x)%N eqn:E2; try congruence.
  - apply N.ltb_lt in E1, E2. lia.
  - apply IH.
Qed.

Lemma pystr_ltb_cotrans c a b :
  pystr_ltb c a = true -> pystr_ltb c b = true \/ pystr_ltb b a = true.
Proof.
  revert a b; induction c as [|z c IH]; intros [|x a] [|y b]; simpl;
    try discriminate; auto.
  destruct (z <? x)%N eqn:Ezx, (x <? z)%N eqn:Exz, (z <? y)%N eqn:Ezy,
           (y <? z)%N eqn:Eyz, (y <? x)%N eqn:Eyx, (x <? y)%N eqn:Exy;
    auto; try discriminate;
    repeat match goal with
           | H : (_ <? _)%N = true |- _ => apply N.ltb_lt in H
           | H : (_ <? _)%N = false |- _ => apply N.ltb_ge in H
           end; lia.
Qed.

Lemma pystr_leb_total a b : pystr_leb a b = false -> pystr_leb b a = true.
Proof.
  unfold pystr_leb. intros H. apply negb_false_iff in H.
  apply negb_true_iff. now apply pystr_ltb_asym.
Qed.

Lemma pystr_leb_trans a b c :
  pystr_leb a b = true -> pystr_leb b c = true -> pystr_leb a c = true.
Proof.
  unfold pystr_leb. intros H1 H2.
  apply negb_true_iff in H1, H2. apply negb_true_iff.
  destruct (pystr_ltb c a) eqn:E; [|reflexivity].
  destruct (pystr_ltb_cotrans c a b E); congruence.
Qed.

Lemma asc_total {A} (key : A -> Z) a b :
  asc key a b = false -> asc key b a = true.
Proof. unfold asc. intros H. apply Z.leb_gt in H. apply Z.leb_le. lia. Qed.

Lemma asc_trans {A} (key : A -> Z) a b c :
  asc key a b = true -> asc key b c = true -> asc key a c = true.
Proof.
  unfold asc. intros H1 H2. apply Z.leb_le in H1, H2. apply Z.leb_le. lia.
Qed.

Lemma sorted_first {A} (le : A -> A -> bool) (x : A) l y :
  StronglySorted (holds le) (x :: l) -> In y l -> le x y = true.
Proof.
  intros Hs Hy. apply StronglySorted_inv in Hs. destruct Hs as [_ Hf].
  rewrite Forall_forall in Hf. now apply Hf.
Qed.

Lemma sorted_last {A} (le : A -> A -> bool) (x : A) l y :
  StronglySorted (holds le) (l ++ [x]) -> In y l -> le y x = true.
Proof.
  induction l as [|z l IH]; intros Hs Hy; [destruct Hy|].
  cbn [app] in Hs. destruct Hy as [->|Hy].
  - apply (sorted_first le y (l ++ [x])); [exact Hs|].
    apply in_app_iff. right. now left.
  - apply IH; [|exact Hy]. now apply StronglySorted_inv in Hs.
Qed.

(** X16. The dates and the message list of a summary.  [first_commit]
    is the calendar date, in the commit's own zone, of the commit of the
    repository made at the earliest instant, and [last_commit] that of the
    one made at the latest.  [commit_messages] holds one entry per commit
    of the repository, ordered by the rendered local time as a string,
    entries with the same rendering in input order. *)
Theorem repo_summary_timeline commits exclude_languages r :
  In r (generate_repo_summaries commits exclude_languages) ->
  let own := commits_of (RepoSummary.name r) commits in
  (exists c1,
      In c1 own
      /\ RepoSummary.first_commit r = Some (strftime_ymd (day_of c1))
      /\ forall c, In c own ->
           utc_micros (CommitInfo.date c1) <= utc_micros (CommitInfo.date c))
  /\ (exists c2,
         In c2 own
         /\ RepoSummary.last_commit r = Some (strftime_ymd (day_of c2))
         /\ forall c, In c own ->
              utc_micros (CommitInfo.date c) <= utc_micros (CommitInfo.date c2))
  /\ Permutation (map message_entry own) (RepoSummary.commit_messages r)
  /\ (forall i j mi mj,
         (i < j)%nat ->
         nth_error (RepoSummary.commit_messages r) i = Some mi ->
         nth_error (RepoSummary.commit_messages r) j = Some mj ->
         pystr_leb (fst mi) (fst mj) = true
         /\ (fst mi = fst mj -> before mi mj (map message_entry own))).
Proof.
  intros Hin. cbv zeta. apply summaries_In in Hin.
  destruct Hin as (name & l & Hin & ->).
  destruct (groups_entry _ _ _ Hin) as [Hne ->].
  destruct (summarize_fields exclude_languages name (commits_of name commits))
    as (E1 & _ & _ & _ & Ef & El & Em).
  rewrite E1, Ef, El, Em. clear E1 Ef El Em.
  set (own := commits_of name commits).
  set (sorted := sorted_by (asc utc_micros) (map CommitInfo.date own)).
  assert (Hs : StronglySorted (holds (asc utc_micros)) sorted)
    by (apply sorted_by_sorted; [apply asc_total|apply asc_trans]).
  assert (Hown : forall c, In c own -> In (CommitInfo.date c) sorted).
  { intros c Hc. apply In_sorted_by. now apply in_map. }
  assert (Hex : exists c, In c own).
  { assert (Hk : In name (map fst (fold_left group_step commits [])))
      by (change name with (fst (name, own)); now apply in_map).
    rewrite groups_keys in Hk.
    apply (proj1 (distinct_In _ _)) in Hk. apply labels_of_In in Hk.
    destruct Hk as [_ Hk]. apply in_map_iff in Hk.
    destruct Hk as (c & Ec & Hc). exists c.
    apply filter_In. split; [exact Hc|]. apply keq_spec. now symmetry. }
  destruct Hex as [c0 Hc0].
  split; [|split; [|split]].
  - destruct sorted as [|d rest] eqn:Es; [destruct (Hown c0 Hc0)|].
    assert (Hd : In d (map CommitInfo.date own)).
    { apply (In_sorted_by (asc utc_micros)). fold sorted. rewrite Es.
      now left. }
    apply in_map_iff in Hd. destruct Hd as (c1 & E1 & Hc1).
    exists c1. split; [exact Hc1|]. split.
    + cbn [hd_error option_map]. rewrite <- E1. reflexivity.
    + intros c Hc. destruct (Hown c Hc) as [E|Hr].
      * rewrite E1, E. lia.
      * pose proof (sorted_first _ _ _ _ Hs Hr) as Hle.
        unfold asc in Hle. apply Z.leb_le in Hle. now rewrite E1.
  - destruct (rev sorted) as [|d rest] eqn:Er.
    + apply (f_equal (@rev _)) in Er. rewrite rev_involutive in Er.
      rewrite Er in Hown. destruct (Hown c0 Hc0).
    + apply (f_equal (@rev _)) in Er. rewrite rev_involutive in Er.
      cbn [rev] in Er.
      assert (Hd : In d (map CommitInfo.date own)).
      { apply (In_sorted_by (asc utc_micros)). fold sorted. rewrite Er.
        apply in_app_iff. right. now left. }
      apply in_map_iff in Hd. destruct Hd as (c2 & E2 & Hc2).
      exists c2. split; [exact Hc2|]. split.
      * cbn [hd_error option_map]. rewrite <- E2. reflexivity.
      * intros c Hc. specialize (Hown c Hc). rewrite Er in Hown, Hs.
        apply in_app_iff in Hown. destruct Hown as [Hr|[E|[]]].
        -- pose proof (sorted_last _ _ _ _ Hs Hr) as Hle.
           unfold asc in Hle. apply Z.leb_le in Hle. now rewrite E2.
        -- rewrite E2, E. lia.
  - apply sorted_by_perm.
  - intros i j mi mj Hij Hi Hj.
    pose proof (before_nth _ i j _ _ Hij Hi Hj) as Hb. split.
    + refine (sorted_before
                (fun x y : pystr * pystr => pystr_leb (fst x) (fst y))
                _ mi mj _ Hb).
      apply sorted_by_sorted.
      * intros a b. apply pystr_leb_total.
      * intros a b c. apply pystr_leb_trans.
    + intros E. apply (sorted_by_stable _ _ _ _ Hb).
      rewrite E. unfold pystr_leb. now rewrite pystr_ltb_irrefl.
Qed.

(** *** The calendar *)

Lemma days_before_year_next y :
  days_before_year (y + 1)
  = days_before_year y + 365 + (if is_leap y then 1 else 0).
Proof.
  unfold days_before_year, is_leap. cbv zeta.
  replace (y + 1 - 1) with y by lia.
  destruct (y mod 4 =? 0) eqn:E4, (y mod 100 =? 0) eqn:E100,
           (y mod 400 =? 0) eqn:E400; cbn [andb orb negb];
    repeat match goal with
           | H : (_ =? _) = true |- _ => apply Z.eqb_eq in H
           | H : (_ =? _) = false |- _ => apply Z.eqb_neq in H
           end;
    Z.div_mod_to_equations; lia.
Qed.

Lemma days_before_year_mono y y' :
  y <= y' -> days_before_year y <= days_before_year y'.
Proof.
  intros Hle. unfold days_before_year. cbv zeta.
  Z.div_mod_to_equations. lia.
Qed.

Lemma day_of_year_bounds d :
  valid_date d ->
  1 <= days_before_month (Date.year d) (Date.month d) + Date.day d
    <= 365 + (if is_leap (Date.year d) then 1 else 0).
Proof.
  destruct d as [y m dd]. unfold valid_date. cbn [Date.year Date.month Date.day].
  intros (_ & Hm & Hd). revert Hd. unfold days_before_month, days_in_month.
  each_month m Hm; destruct (is_leap y); read_tables; lia.
Qed.


Lemma month_ends_before y m m' :
  1 <= m -> m < m' -> m' <= 12 ->
  days_before_month y m + days_in_month y m <= days_before_month y m'.
Proof.
  intros H1 H2 H3.
  assert (Hm : 1 <= m <= 12) by lia. assert (Hm' : 1 <= m' <= 12) by lia.
  revert H1 H2 H3. unfold days_before_month, days_in_month.
  each_month m Hm; each_month m' Hm'; intros H1 H2 H3; try lia;
    destruct (is_leap y); read_tables; lia.
Qed.

Lemma toordinal_lt a b :
  valid_date a -> valid_date b ->
  Date.year a < Date.year b
  \/ (Date.year a = Date.year b
      /\ (Date.month a < Date.month b
          \/ (Date.month a = Date.month b /\ Date.day a < Date.day b))) ->
  toordinal a < toordinal b.
Proof.
  intros Ha Hb Hlt.
  pose proof (day_of_year_bounds a Ha) as Ba.
  pose proof (day_of_year_bounds b Hb) as Bb.
  destruct a as [ya ma da], b as [yb mb db].
  unfold valid_date in Ha, Hb. unfold toordinal, ymd2ord.
  cbn [Date.year Date.month Date.day] in *.
  destruct Hlt as [Hy|[-> [Hm|[-> Hd]]]].
  - pose proof (days_before_year_next ya) as Hn.
    pose proof (days_before_year_mono (ya + 1) yb ltac:(lia)). lia.
  - pose proof (month_ends_before yb ma mb ltac:(lia) Hm ltac:(lia)). lia.
  - lia.
Qed.

Lemma date_fields_cases a b :
  a = b
  \/ (Date.year a < Date.year b
      \/ (Date.year a = Date.year b
          /\ (Date.month a < Date.month b
              \/ (Date.month a = Date.month b /\ Date.day a < Date.day b))))
  \/ (Date.year b < Date.year a
      \/ (Date.year b = Date.year a
          /\ (Date.month b < Date.month a
              \/ (Date.month b = Date.month a /\ Date.day b < Date.day a)))).
Proof.
  destruct a as [ya ma da], b as [yb mb db].
  cbn [Date.year Date.month Date.day].
  destruct (Z.lt_trichotomy ya yb) as [H|[H|H]]; [lia| |lia].
  destruct (Z.lt_trichotomy ma mb) as [H'|[H'|H']]; [lia| |lia].
  destruct (Z.lt_trichotomy da db) as [H''|[H''|H'']]; [lia| |lia].
  left. now subst.
Qed.

Lemma toordinal_inj a b :
  valid_date a -> valid_date b -> toordinal a = toordinal b -> a = b.
Proof.
  intros Ha Hb E. destruct (date_fields_cases a b) as [H|[H|H]]; [exact H| |].
  - pose proof (toordinal_lt a b Ha Hb H). lia.
  - pose proof (toordinal_lt b a Hb Ha H). lia.
Qed.

Lemma date_leb_cases a b :
  date_leb a b = true
  <-> a = b
      \/ (Date.year a < Date.year b
          \/ (Date.year a = Date.year b
              /\ (Date.month a < Date.month b
                  \/ (Date.month a = Date.month b
                      /\ Date.day a < Date.day b)))).
Proof.
  destruct a as [ya ma da], b as [yb mb db]. unfold date_leb.
  cbn [Date.year Date.month Date.day].
  destruct (ya <? yb) eqn:E1; [apply Z.ltb_lt in E1; split; auto|].
  apply Z.ltb_ge in E1.
  destruct (yb <? ya) eqn:E2.
  { apply Z.ltb_lt in E2. split; [discriminate|].
    intros [E|H]; [injection E; lia|lia]. }
  apply Z.ltb_ge in E2.
  destruct (ma <? mb) eqn:E3; [apply Z.ltb_lt in E3; split; auto; intros _; right; lia|].
  apply Z.ltb_ge in E3.
  destruct (mb <? ma) eqn:E4.
  { apply Z.ltb_lt in E4. split; [discriminate|].
    intros [E|H]; [injection E; lia|lia]. }
  apply Z.ltb_ge in E4. rewrite Z.leb_le. split.
  - intros H. destruct (Z.eq_dec da db) as [->|Hne].
    + left. f_equal; lia.
    + right. lia.
  - intros [E|H]; [injection E; lia|lia].
Qed.

Lemma date_leb_total a b : date_leb a b = false -> date_leb b a = true.
Proof.
  intros H. apply date_leb_cases.
  destruct (date_fields_cases a b) as [E|[Hlt|Hgt]].
  - subst b. exfalso.
    assert (Ht : date_leb a a = true) by (apply date_leb_cases; now left).
    congruence.
  - exfalso.
    assert (Ht : date_leb a b = true) by (apply date_leb_cases; now right).
    congruence.
  - now right.
Qed.

Lemma date_leb_trans a b c :
  date_leb a b = true -> date_leb b c = true -> date_leb a c = true.
Proof.
  rewrite !date_leb_cases. intros [->|H1] [->|H2]; auto. right. lia.
Qed.

Lemma date_leb_antisym a b :
  date_leb a b = true -> date_leb b a = true -> a = b.
Proof.
  rewrite !date_leb_cases. intros [->|H1] [E|H2]; auto. lia.
Qed.

Lemma date_leb_ordinal a b :
  valid_date a -> valid_date b -> date_leb a b = true ->
  toordinal a <= toordinal b.
Proof.
  intros Ha Hb H. apply date_leb_cases in H. destruct H as [->|H]; [lia|].
  pose proof (toordinal_lt a b Ha Hb H). lia.
Qed.

(** *** The scan of the sorted dates *)

Lemma run_with_new_last seen o n j :
  (forall x, In x seen -> x < o) ->
  (forall k, 0 <= k < j -> In (n + k) (seen ++ [o])) ->
  (forall k, 0 <= k < j -> In (n + k) seen) \/ (0 < j /\ n + (j - 1) = o).
Proof.
  intros Hlt Hrun.
  destruct (Z_le_gt_dec n o) as [H1|H1]; [destruct (Z_lt_le_dec o (n + j)) as [H2|H2]|].
  - right. split; [lia|].
    destruct (Z.eq_dec (n + (j - 1)) o) as [E|Hne]; [exact E|]. exfalso.
    assert (Hin : In (n + (o - n + 1)) (seen ++ [o])) by (apply Hrun; lia).
    apply in_app_iff in Hin. destruct Hin as [Hin|[E|[]]].
    + specialize (Hlt _ Hin). lia.
    + lia.
  - left. intros k Hk. specialize (Hrun k Hk). apply in_app_iff in Hrun.
    destruct Hrun as [Hin|[E|[]]]; [exact Hin|lia].
  - left. intros k Hk. specialize (Hrun k Hk). apply in_app_iff in Hrun.
    destruct Hrun as [Hin|[E|[]]]; [exact Hin|lia].
Qed.

Lemma streak_inv_init d : streak_inv [toordinal d] (d, 1, 1).
Proof.
  unfold streak_inv. cbv zeta. unfold len. cbn [In List.length].
  split; [now left|]. split; [intros x [<-|[]]; lia|].
  split; [intros k Hk; left; lia|]. split; [intros [E|[]]; lia|].
  split; [lia|]. split; [lia|]. split.
  - exists (toordinal d). intros k Hk. left. lia.
  - intros n j Hrun. destruct (Z_le_gt_dec j 1) as [H|H]; [exact H|]. exfalso.
    destruct (Hrun 0 ltac:(lia)) as [E0|[]].
    destruct (Hrun 1 ltac:(lia)) as [E1|[]]. lia.
Qed.

Lemma streak_inv_step seen prev current max_streak d :
  streak_inv seen (prev, current, max_streak) ->
  toordinal prev < toordinal d ->
  streak_inv (seen ++ [toordinal d])
    (streak_step (prev, current, max_streak) d).
Proof.
  unfold streak_inv, streak_step. cbv zeta.
  set (q := toordinal prev). set (o := toordinal d).
  intros (Hlast & Hmax & Hrun & Hstop & Hb & Hlen & (w & Hw) & Hbest) Hlt.
  assert (Hbelow : forall x, In x seen -> x < o).
  { intros x Hx. specialize (Hmax x Hx). lia. }
  assert (Hlen' : len (seen ++ [o]) = len seen + 1).
  { unfold len. rewrite length_app. simpl List.length. lia. }
  assert (Ho : In o (seen ++ [o])) by (apply in_app_iff; right; now left).
  assert (Hold : forall x, In x seen -> In x (seen ++ [o])).
  { intros x Hx. apply in_app_iff. now left. }
  assert (Hmax' : forall x, In x (seen ++ [o]) -> x <= o).
  { intros x Hx. apply in_app_iff in Hx. destruct Hx as [Hx|[<-|[]]]; [|lia].
    specialize (Hbelow x Hx). lia. }
  destruct (o - q =? 1) eqn:E.
  - apply Z.eqb_eq in E. fold o.
    split; [exact Ho|]. split; [exact Hmax'|].
    split.
    { intros k Hk. destruct (Z.eq_dec k 0) as [->|Hk0].
      - now replace (o - 0) with o by lia.
      - apply Hold. replace (o - k) with (q - (k - 1)) by lia.
        apply Hrun. lia. }
    split.
    { intros Hin. apply in_app_iff in Hin. destruct Hin as [Hin|[E'|[]]].
      - apply Hstop. now replace (q - current) with (o - (current + 1)) by lia.
      - lia. }
    split; [lia|]. split; [lia|]. split.
    + destruct (Z_le_gt_dec (current + 1) max_streak) as [H|H].
      * exists w. intros k Hk. apply Hold, Hw. lia.
      * exists (o - current). intros k Hk.
        destruct (Z.eq_dec k current) as [->|Hne].
        -- now replace (o - current + current) with o by lia.
        -- apply Hold. replace (o - current + k) with (q - (current - 1 - k))
             by lia.
           apply Hrun. lia.
    + intros n j Hr.
      destruct (run_with_new_last seen o n j Hbelow Hr) as [Hs|[Hj En]].
      * specialize (Hbest n j Hs). lia.
      * destruct (Z_le_gt_dec j (current + 1)) as [H|H]; [lia|]. exfalso.
        assert (Hin : In (n + (j - 1 - (current + 1))) (seen ++ [o]))
          by (apply Hr; lia).
        apply in_app_iff in Hin. destruct Hin as [Hin|[E'|[]]]; [|lia].
        apply Hstop. now replace (q - current)
          with (n + (j - 1 - (current + 1))) by lia.
  - apply Z.eqb_neq in E. fold o.
    split; [exact Ho|]. split; [exact Hmax'|].
    split.
    { intros k Hk. now replace (o - k) with o by lia. }
    split.
    { intros Hin. apply in_app_iff in Hin. destruct Hin as [Hin|[E'|[]]].
      - specialize (Hmax _ Hin). lia.
      - lia. }
    split; [lia|]. split; [lia|]. split.
    + exists w. intros k Hk. now apply Hold, Hw.
    + intros n j Hr.
      destruct (run_with_new_last seen o n j Hbelow Hr) as [Hs|[Hj En]].
      * exact (Hbest n j Hs).
      * destruct (Z_le_gt_dec j 1) as [H|H]; [lia|]. exfalso.
        assert (Hin : In (n + (j - 2)) (seen ++ [o])) by (apply Hr; lia).
        apply in_app_iff in Hin. destruct Hin as [Hin|[E'|[]]]; [|lia].
        specialize (Hmax _ Hin). lia.
Qed.

Lemma streak_step_last st d : fst (fst (streak_step st d)) = d.
Proof.
  destruct st as [[prev current] max_streak]. unfold streak_step.
  now destruct (toordinal d - toordinal prev =? 1).
Qed.

Lemma streak_fold_inv ds seen st :
  streak_inv seen st ->
  StronglySorted Z.lt (toordinal (fst (fst st)) :: map toordinal ds) ->
  streak_inv (seen ++ map toordinal ds) (fold_left streak_step ds st).
Proof.
  revert seen st; induction ds as [|d ds IH]; intros seen st Hinv Hs.
  - cbn [map fold_left]. now rewrite app_nil_r.
  - cbn [map fold_left].
    replace (seen ++ toordinal d :: map toordinal ds)
      with ((seen ++ [toordinal d]) ++ map toordinal ds)
      by (rewrite <- app_assoc; reflexivity).
    apply StronglySorted_inv in Hs. destruct Hs as [Hs Hhd].
    apply IH.
    + destruct st as [[prev current] max_streak].
      apply streak_inv_step; [exact Hinv|].
      cbn [fst] in Hhd. rewrite Forall_forall in Hhd. apply Hhd. now left.
    + now rewrite streak_step_last.
Qed.

(** The dates of a set, sorted, have increasing ordinals. *)
Lemma sorted_dates_increasing dates :
  NoDup dates -> (forall d, In d dates -> valid_date d) ->
  StronglySorted Z.lt (map toordinal (sorted_by date_leb dates)).
Proof.
  intros Hnd Hvalid.
  assert (Hs : StronglySorted (holds date_leb) (sorted_by date_leb dates))
    by (apply sorted_by_sorted; [apply date_leb_total|apply date_leb_trans]).
  assert (Hnd' : NoDup (sorted_by date_leb dates))
    by exact (Permutation_NoDup (sorted_by_perm date_leb dates) Hnd).
  assert (Hv : forall d, In d (sorted_by date_leb dates) -> valid_date d)
    by (intros d Hd; apply Hvalid; now apply In_sorted_by in Hd).
  induction Hs as [|a l Hs IH Ha]; [constructor|].
  cbn [map]. inversion Hnd' as [|? ? Hna Hnd'']; subst.
  constructor.
  - apply IH; [exact Hnd''|]. intros d Hd. apply Hv. now right.
  - rewrite Forall_forall in *. intros o Ho. apply in_map_iff in Ho.
    destruct Ho as (b & <- & Hb).
    assert (Hle : toordinal a <= toordinal b).
    { apply date_leb_ordinal; [apply Hv; now left|apply Hv; now right|].
      now apply Ha. }
    destruct (Z.eq_dec (toordinal a) (toordinal b)) as [E|Hne]; [|lia].
    exfalso. apply Hna.
    rewrite (toordinal_inj a b); [exact Hb|apply Hv; now left|
                                  apply Hv; now right|exact E].
Qed.

Lemma sorted_perm_eq {A} (le : A -> A -> bool) (l1 l2 : list A) :
  (forall a b, le a b = true -> le b a = true -> a = b) ->
  StronglySorted (holds le) l1 -> StronglySorted (holds le) l2 ->
  Permutation l1 l2 -> l1 = l2.
Proof.
  intros Hanti Hs1. revert l2.
  induction Hs1 as [|a l1 Hs1 IH Ha]; intros l2 Hs2 Hp.
  - apply Permutation_nil in Hp. now subst.
  - destruct l2 as [|b l2];
      [apply Permutation_sym, Permutation_nil in Hp; discriminate Hp|].
    apply StronglySorted_inv in Hs2. destruct Hs2 as [Hs2 Hb].
    rewrite Forall_forall in Ha, Hb.
    assert (E : a = b).
    { assert (Hina : In a (b :: l2))
        by (apply (Permutation_in _ Hp); now left).
      assert (Hinb : In b (a :: l1))
        by (apply (Permutation_in _ (Permutation_sym Hp)); now left).
      destruct Hina as [->|Hina]; [reflexivity|].
      destruct Hinb as [->|Hinb]; [reflexivity|].
      apply Hanti; [now apply Ha|now apply Hb]. }
    subst b. f_equal. apply IH; [exact Hs2|].
    now apply Permutation_cons_inv in Hp.
Qed.

Lemma set_in_perm {A} `{EqbLaws A} (x : A) s s' :
  Permutation s s' -> set_in x s = set_in x s'.
Proof.
  intros Hp. destruct (set_in x s') eqn:E.
  - apply set_in_In. apply (proj1 (set_in_In _ _)) in E.
    exact (Permutation_in _ (Permutation_sym Hp) E).
  - apply set_in_false. apply (proj1 (set_in_false _ _)) in E.
    intros Hin. apply E. exact (Permutation_in _ Hp Hin).
Qed.

Lemma walk_back_perm fuel check_date s s' :
  Permutation s s' ->
  walk_back fuel check_date s = walk_back fuel check_date s'.
Proof.
  intros Hp. revert check_date; induction fuel as [|k IH]; intros check_date;
    simpl; [reflexivity|].
  rewrite (set_in_perm check_date s s' Hp), IH. reflexivity.
Qed.

(** X17. The streaks do not depend on the order in which the set of
    active dates hands out its elements. *)
Theorem calculate_streak_ignores_set_order today dates dates' year :
  Permutation dates dates' ->
  calculate_streak today dates year = calculate_streak today dates' year.
Proof.
  intros Hp. unfold calculate_streak.
  assert (Hn : nonempty dates = nonempty dates').
  { destruct dates, dates'; try reflexivity.
    - apply Permutation_nil in Hp. discriminate Hp.
    - apply Permutation_sym, Permutation_nil in Hp. discriminate Hp. }
  rewrite Hn. destruct (negb (nonempty dates')); [reflexivity|].
  assert (Es : sorted_by date_leb dates = sorted_by date_leb dates').
  { apply (sorted_perm_eq date_leb).
    - apply date_leb_antisym.
    - apply sorted_by_sorted; [apply date_leb_total|apply date_leb_trans].
    - apply sorted_by_sorted; [apply date_leb_total|apply date_leb_trans].
    - rewrite <- (sorted_by_perm date_leb dates).
      rewrite <- (sorted_by_perm date_leb dates'). exact Hp. }
  cbv zeta. rewrite Es, (walk_back_perm _ today dates dates' Hp). reflexivity.
Qed.

Lemma longest_run_of_dates today dates year :
  NoDup dates ->
  (forall d, In d dates -> valid_date d) ->
  dates <> [] ->
  let max_streak := fst (calculate_streak today dates year) in
  let ordinals := map toordinal dates in
  1 <= max_streak <= len dates
  /\ (exists first_day,
        forall k, 0 <= k < max_streak -> In (first_day + k) ordinals)
  /\ (forall first_day length,
        (forall k, 0 <= k < length -> In (first_day + k) ordinals) ->
        length <= max_streak).
Proof.
  intros Hnd Hvalid Hne. cbv zeta. unfold calculate_streak.
  destruct dates as [|d0 dates0] eqn:Ed; [contradiction|].
  cbn [nonempty negb]. cbv zeta. cbn [fst]. rewrite <- Ed in *.
  pose proof (sorted_dates_increasing dates Hnd Hvalid) as Hinc.
  assert (Hmem : forall o, In o (map toordinal (sorted_by date_leb dates))
                           <-> In o (map toordinal dates)).
  { intros o. rewrite !in_map_iff. split; intros (d & E & Hd); exists d;
      (split; [exact E|]); now apply In_sorted_by in Hd || apply In_sorted_by. }
  assert (Hlen : len (map toordinal (sorted_by date_leb dates)) = len dates).
  { unfold len. now rewrite length_map, length_sorted_by. }
  destruct (sorted_by date_leb dates) as [|s0 rest] eqn:Es.
  { exfalso. assert (Hin : In d0 (sorted_by date_leb dates))
      by (apply In_sorted_by; rewrite Ed; now left).
    rewrite Es in Hin. destruct Hin. }
  cbn [map] in Hinc, Hmem, Hlen.
  pose proof (streak_fold_inv rest [toordinal s0] (s0, 1, 1)
                (streak_inv_init s0) Hinc) as Hinv.
  cbn [app] in Hinv.
  destruct (fold_left streak_step rest (s0, 1, 1)) as [[prev current] m].
  cbn [snd]. unfold streak_inv in Hinv. cbv zeta in Hinv.
  destruct Hinv as (_ & _ & _ & _ & Hb & Hl & (w & Hw) & Hbest).
  rewrite Hlen in Hl.
  split; [lia|]. split.
  - exists w. intros k Hk. apply Hmem. now apply Hw.
  - intros n j Hr. apply (Hbest n j). intros k Hk. apply Hmem. now apply Hr.
Qed.


(** X18. [max_streak] is the length of the longest run of consecutive
    calendar days that are all active: some run of that length lies in the
    set of active dates, and no longer one does.  It is at least 1 and at
    most the number of active dates; with no active date both streaks are
    0. *)
Theorem max_streak_is_longest_run today dates year :
  NoDup dates ->
  (forall d, In d dates -> valid_date d) ->
  let max_streak := fst (calculate_streak today dates year) in
  let ordinals := map toordinal dates in
  (dates = [] -> calculate_streak today dates year = (0, 0))
  /\ (dates <> [] ->
      1 <= max_streak <= len dates
      /\ (exists first_day,
            forall k, 0 <= k < max_streak -> In (first_day + k) ordinals)
      /\ (forall first_day length,
            (forall k, 0 <= k < length -> In (first_day + k) ordinals) ->
            length <= max_streak)).
Proof.
  intros Hnd Hvalid. cbv zeta. split; [intros ->; reflexivity|].
  intros Hne. exact (longest_run_of_dates today dates year Hnd Hvalid Hne).
Qed.

(** *** Ordinals and dates *)

Lemma month_and_day_days leapyear :
  forallb (month_and_day_ok leapyear) (Z_range 0 365) = true.
Proof. destruct leapyear; vm_compute; reflexivity. Qed.

Lemma valid_dateb_spec d : valid_dateb d = true <-> valid_date d.
Proof.
  unfold valid_dateb, valid_date.
  rewrite !andb_true_iff, !Z.leb_le. tauto.
Qed.

Lemma is_leap_spec y :
  is_leap y = true <-> y mod 4 = 0 /\ (y mod 100 <> 0 \/ y mod 400 = 0).
Proof.
  unfold is_leap.
  rewrite andb_true_iff, orb_true_iff, negb_true_iff, !Z.eqb_eq, Z.eqb_neq.
  reflexivity.
Qed.

(** The year that [fromordinal] assembles from the numbers of whole
    cycles of 400, 100 and 4 years and of whole years. *)
Lemma year_of_cycles n400 n100 n4 n1 :
  0 <= n100 <= 3 -> 0 <= n4 <= 24 -> 0 <= n1 <= 3 ->
  let year := n400 * 400 + 1 + n100 * 100 + n4 * 4 + n1 in
  days_before_year year = 146097 * n400 + 36524 * n100 + 1461 * n4 + 365 * n1
  /\ is_leap year = (n1 =? 3) && (negb (n4 =? 24) || (n100 =? 3)).
Proof.
  intros H100 H4 H1. cbv zeta. split.
  - unfold days_before_year. cbv zeta. Z.div_mod_to_equations. lia.
  - destruct ((n1 =? 3) && (negb (n4 =? 24) || (n100 =? 3))) eqn:E.
    + apply is_leap_spec.
      apply andb_true_iff in E. destruct E as [E1 E2].
      apply Z.eqb_eq in E1. apply orb_true_iff in E2.
      rewrite negb_true_iff, Z.eqb_neq, Z.eqb_eq in E2.
      Z.div_mod_to_equations. lia.
    + destruct (is_leap _) eqn:El; [|reflexivity]. exfalso.
      apply is_leap_spec in El.
      apply andb_false_iff in E. rewrite Z.eqb_neq, orb_false_iff in E.
      rewrite negb_false_iff, Z.eqb_eq, Z.eqb_neq in E.
      Z.div_mod_to_equations. lia.
Qed.

Lemma fromordinal_ok n :
  1 <= n -> toordinal (fromordinal n) = n /\ valid_date (fromordinal n).
Proof.
  intros Hn. unfold fromordinal. cbv zeta.
  set (n0 := n - 1).
  set (n400 := n0 / 146097). set (r := n0 mod 146097).
  set (n100 := r / 36524). set (r100 := r mod 36524).
  set (n4 := r100 / 1461). set (r4 := r100 mod 1461).
  set (n1 := r4 / 365). set (r1 := r4 mod 365).
  assert (H400 : n0 = 146097 * n400 + r /\ 0 <= r < 146097 /\ 0 <= n400).
  { subst n400 r. Z.div_mod_to_equations. lia. }
  assert (H100 : r = 36524 * n100 + r100 /\ 0 <= r100 < 36524
                 /\ 0 <= n100 <= 4).
  { subst n100 r100. Z.div_mod_to_equations. lia. }
  assert (H4 : r100 = 1461 * n4 + r4 /\ 0 <= r4 < 1461 /\ 0 <= n4 <= 24).
  { subst n4 r4. Z.div_mod_to_equations. lia. }
  assert (H1 : r4 = 365 * n1 + r1 /\ 0 <= r1 < 365 /\ 0 <= n1 <= 4).
  { subst n1 r1. Z.div_mod_to_equations. lia. }
  clearbody n400 r n100 r100 n4 r4 n1 r1. subst n0.
  destruct ((n1 =? 4) || (n100 =? 4)) eqn:Ex.
  - apply orb_true_iff in Ex. rewrite !Z.eqb_eq in Ex.
    set (y := n400 * 400 + 1 + n100 * 100 + n4 * 4 + n1 - 1).
    assert (Hy : days_before_year y + 365 = n - 1 /\ is_leap y = true).
    { split.
      - unfold days_before_year, y. cbv zeta. Z.div_mod_to_equations. lia.
      - apply is_leap_spec. unfold y. Z.div_mod_to_equations. lia. }
    destruct Hy as [Hd Hl]. split.
    + unfold toordinal, ymd2ord, days_before_month.
      cbn [Date.year Date.month Date.day]. rewrite Hl. read_tables. lia.
    + unfold valid_date, days_in_month. cbn [Date.year Date.month Date.day].
      read_tables. unfold y. lia.
  - apply orb_false_iff in Ex. rewrite !Z.eqb_neq in Ex.
    destruct (year_of_cycles n400 n100 n4 n1 ltac:(lia) ltac:(lia) ltac:(lia))
      as [Hd Hl]. cbv zeta in Hd, Hl.
    set (year := n400 * 400 + 1 + n100 * 100 + n4 * 4 + n1) in *.
    set (leapyear := (n1 =? 3) && (negb (n4 =? 24) || (n100 =? 3))) in *.
    pose proof (proj1 (forallb_forall _ _) (month_and_day_days leapyear) r1
                  (Z_range_In 0 365 r1 ltac:(lia))) as Hok.
    unfold month_and_day_ok, month_and_day in Hok. cbv zeta in Hok.
    set (month := Z.shiftr (r1 + 50) 5) in *.
    set (preceding := table DAYS_BEFORE_MONTH month
                      + (if (2 <? month) && leapyear then 1 else 0)) in *.
    destruct (r1 <? preceding);
      repeat (apply andb_true_iff in Hok; destruct Hok as [Hok ?]);
      repeat match goal with
             | H : (_ <=? _) = true |- _ => apply Z.leb_le in H
             | H : (_ =? _) = true |- _ => apply Z.eqb_eq in H
             end;
      (split;
       [unfold toordinal, ymd2ord, days_before_month;
        cbn [Date.year Date.month Date.day]; rewrite Hd, Hl; lia
       |unfold valid_date, days_in_month;
        cbn [Date.year Date.month Date.day]; rewrite Hl; unfold year; lia]).
Qed.

Lemma toordinal_positive d : valid_date d -> 1 <= toordinal d.
Proof.
  intros Hv. pose proof (day_of_year_bounds d Hv) as Hb.
  destruct Hv as (Hy & _). unfold toordinal, ymd2ord.
  pose proof (days_before_year_mono 1 (Date.year d) Hy) as Hm.
  change (days_before_year 1) with 0 in Hm. lia.
Qed.

(** Yesterday. *)
Lemma date_pred_ok d :
  valid_date d -> 2 <= toordinal d ->
  toordinal (date_pred d) = toordinal d - 1 /\ valid_date (date_pred d).
Proof. intros _ H. unfold date_pred. apply fromordinal_ok. lia. Qed.

(** *** The walk back from today *)

Lemma active_ordinal dates d :
  (forall x, In x dates -> valid_date x) -> valid_date d ->
  set_in d dates = true <-> In (toordinal d) (map toordinal dates).
Proof.
  intros Hvalid Hd. rewrite set_in_In, in_map_iff. split.
  - intros Hin. now exists d.
  - intros (x & E & Hx). now rewrite <- (toordinal_inj x d (Hvalid x Hx) Hd E).
Qed.

Lemma walk_back_run dates check_date :
  (forall x, In x dates -> valid_date x) -> valid_date check_date ->
  let last := toordinal check_date in
  let n := walk_back (Z.to_nat last) check_date dates in
  0 <= n <= last
  /\ (forall k, 0 <= k < n -> In (last - k) (map toordinal dates))
  /\ (n = last \/ ~ In (last - n) (map toordinal dates)).
Proof.
  intros Hvalid. cbv zeta.
  remember (Z.to_nat (toordinal check_date)) as fuel eqn:Ef.
  revert check_date Ef; induction fuel as [|fuel IH]; intros check_date Ef Hd.
  - pose proof (toordinal_positive check_date Hd). lia.
  - cbn [walk_back].
    pose proof (toordinal_positive check_date Hd) as Hpos.
    pose proof (active_ordinal dates check_date Hvalid Hd) as Hact.
    destruct (set_in check_date dates) eqn:E.
    + assert (Hin : In (toordinal check_date) (map toordinal dates))
        by now apply Hact.
      destruct (Z.eq_dec (toordinal check_date) 1) as [E1|Hne].
      * assert (fuel = 0%nat) by lia. subst fuel. cbn [walk_back].
        rewrite E1 in *. split; [lia|]. split; [|now left].
        intros k Hk. now replace (1 - k) with 1 by lia.
      * destruct (date_pred_ok check_date Hd ltac:(lia)) as [Ep Hvp].
        specialize (IH (date_pred check_date) ltac:(lia) Hvp).
        rewrite Ep in IH. destruct IH as (Hb & Hrun & Hstop).
        set (n := walk_back fuel (date_pred check_date) dates) in *.
        split; [lia|]. split.
        -- intros k Hk. destruct (Z.eq_dec k 0) as [->|Hk0].
           ++ now replace (toordinal check_date - 0)
                with (toordinal check_date) by lia.
           ++ replace (toordinal check_date - k)
                with (toordinal check_date - 1 - (k - 1)) by lia.
              apply Hrun. lia.
        -- destruct Hstop as [Hs|Hs]; [left; lia|right].
           now replace (toordinal check_date - (1 + n))
             with (toordinal check_date - 1 - n) by lia.
    + split; [lia|]. split; [intros k Hk; lia|]. right.
      replace (toordinal check_date - 0) with (toordinal check_date) by lia.
      intros Hin. apply Hact in Hin. congruence.
Qed.

(** X19. [current_streak] is the length of the run of consecutive
    active days that ends today: today and the [current_streak - 1] days
    before it are active and the day before them is not (or there is no
    such day: the run reaches back to 0001-01-01, where the source would
    raise).  It is 0 exactly when today is not active, and it never
    exceeds [max_streak]. *)
Theorem current_streak_is_run_ending_today today dates year :
  NoDup dates ->
  (forall d, In d dates -> valid_date d) ->
  valid_date today ->
  let max_streak := fst (calculate_streak today dates year) in
  let current_streak := snd (calculate_streak today dates year) in
  let ordinals := map toordinal dates in
  0 <= current_streak <= max_streak
  /\ (forall k,
         0 <= k < current_streak -> In (toordinal today - k) ordinals)
  /\ (current_streak = toordinal today
      \/ ~ In (toordinal today - current_streak) ordinals)
  /\ (current_streak = 0 <-> ~ In today dates).
Proof.
  intros Hnd Hvalid Htoday. cbv zeta.
  destruct dates as [|d0 dates0] eqn:Ed.
  { cbn [calculate_streak nonempty negb fst snd map].
    pose proof (toordinal_positive today Htoday).
    split; [lia|]. split; [intros k Hk; lia|].
    split; [right; intros []|]. split; [intros _ []|reflexivity]. }
  rewrite <- Ed in *.
  assert (Hne : dates <> []) by (rewrite Ed; discriminate).
  destruct (longest_run_of_dates today dates year Hnd Hvalid Hne)
    as (_ & _ & Hbest).
  assert (Ec : snd (calculate_streak today dates year)
               = walk_back (Z.to_nat (toordinal today)) today dates).
  { unfold calculate_streak. rewrite Ed. reflexivity. }
  rewrite Ec.
  destruct (walk_back_run dates today Hvalid Htoday) as (Hb & Hrun & Hstop).
  set (n := walk_back (Z.to_nat (toordinal today)) today dates) in *.
  split; [|split; [exact Hrun|split; [exact Hstop|]]].
  - split; [lia|]. apply (Hbest (toordinal today - (n - 1)) n).
    intros k Hk.
    replace (toordinal today - (n - 1) + k)
      with (toordinal today - (n - 1 - k)) by lia.
    apply Hrun. lia.
  - pose proof (toordinal_positive today Htoday) as Hpos.
    pose proof (active_ordinal dates today Hvalid Htoday) as Hact.
    rewrite set_in_In in Hact. split.
    + intros E0 Hin. destruct Hstop as [Hs|Hs]; [lia|].
      apply Hs. rewrite E0. replace (toordinal today - 0)
        with (toordinal today) by lia. now apply Hact.
    + intros Hnot. destruct (Z.eq_dec n 0) as [E0|Hn0]; [exact E0|].
      exfalso. apply Hnot. apply Hact.
      replace (toordinal today) with (toordinal today - 0) by lia.
      apply Hrun. lia.
Qed.

(** *** The achievements of a snapshot *)



Lemma achievements_of_snapshot today c cs year exclude_languages :
  let s := analyze_commits today (c :: cs) year exclude_languages in
  YearStats.achievements s = calculate_achievements s
  /\ YearStats.commits_by_hour s <> [].
Proof.
  cbv zeta. rewrite analyze_commits_cons. cbv zeta. split; [reflexivity|].
  unfold YearStats.with_achievements. cbn [YearStats.commits_by_hour].
  destruct (commit_fold_calendar (excluded exclude_languages) (c :: cs)
              Tally.init) as (_ & H2 & _).
  rewrite H2. intros E. apply (f_equal (map fst)) in E.
  change (Tally.commits_by_hour Tally.init) with (@nil (Z * Z)) in E.
  rewrite counter_keys_distinct in E.
  assert (Hin : In (hour_of c) (distinct (map hour_of (c :: cs))))
    by (apply distinct_In; now left).
  rewrite E in Hin. destruct Hin.
Qed.


(** X21. The periods of the day named by [get_time_period_name] are the
    periods the favourite-hour badge distinguishes: two snapshots get the
    same hour badge exactly when their favourite hours have the same
    period name. *)
Theorem hour_badge_follows_time_period s1 s2 h1 n1 h2 n2 :
  py_max snd (YearStats.commits_by_hour s1) = Some (h1, n1) ->
  py_max snd (YearStats.commits_by_hour s2) = Some (h2, n2) ->
  hour_badge s1 = hour_badge s2
  <-> get_time_period_name h1 = get_time_period_name h2.
Proof.
  intros E1 E2. unfold hour_badge, get_time_period_name. rewrite E1, E2.
  branch_on_guards;
    (split; intros H; vm_compute in H |- *;
     first [reflexivity | discriminate H]).
Qed.

(** *** Filtering repositories *)

Lemma contains_nil s : contains [] s = true.
Proof. destruct s; reflexivity. Qed.

Lemma ascii_lower_ascii c : is_ascii c = true -> is_ascii (ascii_lower c) = true.
Proof.
  unfold is_ascii, ascii_lower. intros H. apply N.ltb_lt in H.
  destruct ((65 <=? c) && (c <=? 90))%N eqn:E; apply N.ltb_lt; [|exact H].
  apply andb_true_iff in E. destruct E as [_ E]. apply N.leb_le in E. lia.
Qed.

Lemma ascii_lower_idem c : ascii_lower (ascii_lower c) = ascii_lower c.
Proof.
  unfold ascii_lower.
  destruct ((65 <=? c) && (c <=? 90))%N eqn:E; [|now rewrite E].
  apply andb_true_iff in E. destruct E as [E1 E2].
  apply N.leb_le in E1, E2.
  replace ((65 <=? c + 32) && (c + 32 <=? 90))%N with false; [reflexivity|].
  symmetry. apply andb_false_iff. right. apply N.leb_gt. lia.
Qed.

Lemma lower_ascii_idem s :
  forallb is_ascii s = true -> lower (lower s) = lower s.
Proof.
  intros H. unfold lower. rewrite H.
  assert (H' : forallb is_ascii (map ascii_lower s) = true).
  { rewrite forallb_forall in *. intros c Hc. apply in_map_iff in Hc.
    destruct Hc as (c0 & <- & Hc0). apply ascii_lower_ascii. now apply H. }
  rewrite H', map_map. apply map_ext. intros c. apply ascii_lower_idem.
Qed.

(** X22. [filter_repos_by_keyword] judges every repository on its own
    and keeps the order: the result for a list is the concatenation of
    the results for its parts, and a single repository is kept exactly
    when its path does not contain the keyword, letter case aside (for
    an ASCII keyword the lower-cased keyword filters alike).  With the
    empty keyword, which every path contains, no repository is kept. *)
Theorem filter_repos_by_keyword_drops_matches repos keyword :
  (forall r,
      In r (filter_repos_by_keyword repos keyword)
      <-> In r repos
          /\ contains (lower keyword) (lower (Path.text r)) = false)
  /\ (keyword = [] -> filter_repos_by_keyword repos keyword = [])
  /\ (forallb is_ascii keyword = true ->
      filter_repos_by_keyword repos (lower keyword)
      = filter_repos_by_keyword repos keyword)
  /\ filter_repos_by_keyword (filter_repos_by_keyword repos keyword) keyword
     = filter_repos_by_keyword repos keyword
  /\ filter_repos_by_keyword [] keyword = []
  /\ (forall r,
         filter_repos_by_keyword [r] keyword
         = if contains (lower keyword) (lower (Path.text r)) then [] else [r])
  /\ (forall front back,
         repos = front ++ back ->
         filter_repos_by_keyword repos keyword
         = filter_repos_by_keyword front keyword
           ++ filter_repos_by_keyword back keyword).
Proof.
  unfold filter_repos_by_keyword.
  split; [|split; [|split; [|split; [|split; [|split]]]]].
  - intros r. rewrite filter_In, negb_true_iff. reflexivity.
  - intros ->. induction repos as [|r repos IH]; [reflexivity|].
    cbn [filter]. change (lower []) with (@nil N).
    rewrite contains_nil. exact IH.
  - intros H. now rewrite (lower_ascii_idem keyword H).
  - induction repos as [|r repos IH]; [reflexivity|].
    cbn [filter].
    destruct (negb (contains (lower keyword) (lower (Path.text r)))) eqn:E.
    + cbn [filter]. rewrite E. now f_equal.
    + exact IH.
  - reflexivity.
  - intros r. cbn [filter].
    now destruct (contains (lower keyword) (lower (Path.text r))).
  - intros front back ->. apply filter_app.
Qed.

(** *** The e-mail addresses *)

Lemma set_of_distinct l : set_of l = distinct l.
Proof. reflexivity. Qed.

(** X23. The e-mail addresses offered for the filter are lower-cased, as
    [parse_git_log] lower-cases the author of a commit before it looks
    it up: [get_all_contributor_emails] holds the lower-cased form of
    every non-empty line of the log, each once, and nothing else, and
    nothing when the query fails; [get_user_emails] holds at most the
    stripped and lower-cased configured address. *)
Theorem collected_emails_are_lowercased repo_path :
  let contributors := get_all_contributor_emails run_git_command repo_path in
  let q := contributors_query run_git_command repo_path in
  let user := get_user_emails run_git_command repo_path in
  let c := user_query run_git_command repo_path in
  NoDup contributors
  /\ (forall e,
         In e contributors
         <-> fst q = true
             /\ exists line,
                  In line (str_split [LF] (strip (snd q)))
                  /\ line <> [] /\ e = lower line)
  /\ (fst q = false -> contributors = [])
  /\ (List.length user <= 1)%nat
  /\ (forall e,
         In e user
         <-> fst c = true /\ strip (snd c) <> []
             /\ e = lower (strip (snd c))).
Proof.
  cbv zeta. unfold get_all_contributor_emails, get_user_emails,
    contributors_query, user_query.
  destruct (run_git_command repo_path [u "log"; u "--all"; u "--format=%ae"])
    as [ok out]. cbn [fst snd].
  destruct (run_git_command repo_path [u "config"; u "user.email"])
    as [ok' out']. cbn [fst snd].
  split; [|split; [|split; [|split]]].
  - destruct ok; [|constructor]. rewrite set_of_distinct. apply distinct_NoDup.
  - intros e. destruct ok.
    + rewrite set_of_distinct, distinct_In, in_map_iff. split.
      * intros (line & <- & Hin). apply filter_In in Hin.
        destruct Hin as [Hin Hn]. split; [reflexivity|].
        exists line. repeat split; auto. intros ->. discriminate Hn.
      * intros (_ & line & Hin & Hne & ->). exists line. split; [reflexivity|].
        apply filter_In. split; [exact Hin|]. now destruct line.
    + split; [intros []|]. intros [H _]. discriminate H.
  - intros ->. reflexivity.
  - destruct (ok' && nonempty (strip out')); simpl; lia.
  - intros e. destruct ok'; cbn [andb].
    + destruct (strip out') as [|ch rest] eqn:Es; cbn [nonempty In].
      * split; [intros []|]. intros (_ & Hne & _). now contradiction Hne.
      * split.
        -- intros [<-|[]]. repeat split. discriminate.
        -- intros (_ & _ & ->). now left.
    + split; [intros []|]. intros (H & _). discriminate H.
Qed.

(** *** Every commit is counted *)

Lemma keywords_cover_tokens today commits year exclude_languages :
  let ws :=
    YearStats.commit_words
      (analyze_commits today commits year exclude_languages) in
  let toks := tokens commits in
  (List.length ws <= 20)%nat
  /\ (forall w n, In (w, n) ws -> n = occurrences w toks /\ 0 < n)
  /\ (forall w,
         In w toks ->
         In (w, occurrences w toks) ws
         \/ (List.length ws = 20%nat
             /\ forall w' n', In (w', n') ws -> occurrences w toks <= n')).
Proof.
  cbv zeta. rewrite analyze_commits_words. unfold most_common.
  set (toks := tokens commits). set (c := counter_update [] toks).
  assert (Hc : counts toks c)
    by exact (counts_update [] [] toks counts_nil).
  set (ranking := sorted_by (desc snd) c).
  split; [apply firstn_le_length|]. split.
  - intros w n Hin. apply In_firstn in Hin. apply In_sorted_by in Hin.
    exact (counts_In _ _ _ _ Hc Hin).
  - intros w Hw.
    pose proof (counts_key _ _ _ Hc Hw) as Hin.
    apply (In_sorted_by (desc snd)) in Hin. fold ranking in Hin.
    rewrite <- (firstn_skipn 20 ranking) in Hin.
    apply in_app_iff in Hin. destruct Hin as [Hin|Hin]; [now left|right].
    split.
    + apply firstn_length_le.
      destruct (Nat.le_gt_cases 20 (List.length ranking)) as [Hlen|Hlen];
        [exact Hlen|].
      rewrite skipn_all2 in Hin by lia. destruct Hin.
    + intros w' n' Hin'.
      assert (Hb : before (w', n') (w, occurrences w toks) ranking).
      { rewrite <- (firstn_skipn 20 ranking). now apply before_across. }
      exact (proj1 (ranking_of_counts toks c _ _ _ _ Hc Hb)).
Qed.

(** The streaks of the snapshot are those of the set of commit dates. *)
Lemma analyze_commits_streaks today commits year exclude_languages :
  let s := analyze_commits today commits year exclude_languages in
  (YearStats.max_streak s, YearStats.current_streak s)
  = calculate_streak today (distinct (map day_of commits)) year.
Proof.
  destruct commits as [|c cs]; [reflexivity|].
  cbv zeta. rewrite analyze_commits_cons. cbv zeta.
  unfold YearStats.with_achievements.
  cbn [YearStats.max_streak YearStats.current_streak].
  destruct (commit_fold_dates (excluded exclude_languages) (c :: cs)
              Tally.init) as (D1 & _).
  rewrite D1. change (Tally.active_dates Tally.init) with (@nil Date.t).
  fold (distinct (map day_of (c :: cs))).
  now destruct (calculate_streak today (distinct (map day_of (c :: cs))) year).
Qed.

(** The two streaks of a set of dates, read on [today]. *)
Lemma streaks_of_dates today dates year :
  NoDup dates ->
  (forall d, In d dates -> valid_date d) ->
  valid_date today ->
  let max_streak := fst (calculate_streak today dates year) in
  let current_streak := snd (calculate_streak today dates year) in
  let ordinals := map toordinal dates in
  (dates <> [] ->
   1 <= max_streak
   /\ exists first_day,
        forall k, 0 <= k < max_streak -> In (first_day + k) ordinals)
  /\ (forall first_day length,
         (forall k, 0 <= k < length -> In (first_day + k) ordinals) ->
         length <= max_streak)
  /\ 0 <= current_streak <= max_streak
  /\ (forall k, 0 <= k < current_streak -> In (toordinal today - k) ordinals)
  /\ (current_streak = toordinal today
      \/ ~ In (toordinal today - current_streak) ordinals).
Proof.
  intros Hnd Hvalid Htoday. cbv zeta.
  destruct dates as [|d0 dates0] eqn:Ed.
  { cbn [calculate_streak nonempty negb fst snd map].
    pose proof (toordinal_positive today Htoday).
    split; [intros H0; now contradiction H0|].
    split.
    { intros first_day length Hrun.
      destruct (Z_le_gt_dec length 0) as [Hl|Hl]; [exact Hl|].
      destruct (Hrun 0 ltac:(lia)). }
    split; [lia|]. split; [intros k Hk; lia|]. right. intros []. }
  rewrite <- Ed in *.
  assert (Hne : dates <> []) by (rewrite Ed; discriminate).
  destruct (longest_run_of_dates today dates year Hnd Hvalid Hne)
    as (Hb & Hrun & Hbest).
  assert (Ec : snd (calculate_streak today dates year)
               = walk_back (Z.to_nat (toordinal today)) today dates).
  { unfold calculate_streak. rewrite Ed. reflexivity. }
  rewrite Ec.
  destruct (walk_back_run dates today Hvalid Htoday) as (Hw & Hwrun & Hstop).
  set (n := walk_back (Z.to_nat (toordinal today)) today dates) in *.
  split; [intros _; split; [lia|exact Hrun]|].
  split; [exact Hbest|]. split; [|split; [exact Hwrun|exact Hstop]].
  split; [lia|]. apply (Hbest (toordinal today - (n - 1)) n).
  intros k Hk.
  replace (toordinal today - (n - 1) + k)
    with (toordinal today - (n - 1 - k)) by lia.
  apply Hwrun. lia.
Qed.

Lemma ordinals_of_distinct days o :
  In o (map toordinal (distinct days)) <-> In o (map toordinal days).
Proof.
  rewrite !in_map_iff. split; intros (d & E & Hd); exists d;
    (split; [exact E|]); now apply distinct_In.
Qed.

(** The snapshot of [analyze_commits] counts every commit of its input. *)
Lemma snapshot_counts_every_commit today commits year exclude_languages :
  counts_every_commit today (excluded exclude_languages) commits
    (analyze_commits today commits year exclude_languages).
Proof.
  unfold counts_every_commit. cbv zeta.
  set (s := analyze_commits today commits year exclude_languages).
  set (ex := excluded exclude_languages).
  pose proof (analyze_commits_lines today commits year exclude_languages)
    as Hl. cbv zeta in Hl. fold s ex in Hl.
  assert (Ha : YearStats.total_added_lines s
               = fst (fst (fold_left (file_step ex) (all_files commits)
                             (0, 0, []))))
    by (rewrite <- Hl; reflexivity).
  assert (Hd : YearStats.total_deleted_lines s
               = snd (fst (fold_left (file_step ex) (all_files commits)
                             (0, 0, []))))
    by (rewrite <- Hl; reflexivity).
  assert (Hg : YearStats.languages s
               = snd (fold_left (file_step ex) (all_files commits)
                        (0, 0, [])))
    by (rewrite <- Hl; reflexivity).
  destruct (analyze_commits_tables today commits year exclude_languages)
    as (T1 & T2 & T3 & Hact & Hwk).
  cbv zeta in T1, T2, T3, Hact, Hwk. fold s in T1, T2, T3, Hact, Hwk.
  destruct (keywords_cover_tokens today commits year exclude_languages)
    as (Hk1 & Hk2 & Hk3). cbv zeta in Hk1, Hk2, Hk3. fold s in Hk1, Hk2, Hk3.
  destruct (analyze_commits_summaries today commits year exclude_languages)
    as (Hsum & Hcount). cbv zeta in Hsum, Hcount. fold s ex in Hsum, Hcount.
  destruct (repo_summaries_cover commits ex) as (_ & Hnames & Hown & _).
  cbv zeta in Hnames, Hown.
  split; [apply analyze_commits_count|].
  split; [rewrite Ha, file_fold_added; lia|].
  split; [rewrite Hd, file_fold_deleted; lia|].
  split.
  { intros l. rewrite Hg, file_fold_keys. split.
    - intros [[]|(f & Hf & E)]. apply counts_as_code_Some in E.
      destruct E as (E & Hne & Hex). repeat split; auto. now exists f.
    - intros (Hne & Hex & f & Hf & E). right. exists f. split; [exact Hf|].
      apply counts_as_code_Some. auto. }
  split; [intros l; rewrite Hg, file_fold_table; reflexivity|].
  split; [intros k;
          exact (proj1 (analyze_commits_calendar today commits year
                          exclude_languages k))|].
  split; [intros k;
          exact (proj1 (proj2 (analyze_commits_calendar today commits year
                                 exclude_languages k)))|].
  split; [intros k;
          exact (proj2 (proj2 (analyze_commits_calendar today commits year
                                 exclude_languages k)))|].
  split; [intros k; rewrite T1, counter_keys_distinct; apply distinct_In|].
  split; [intros k; rewrite T2, counter_keys_distinct; apply distinct_In|].
  split; [intros k; rewrite T3, counter_keys_distinct; apply distinct_In|].
  split; [exact Hact|]. split; [exact Hwk|].
  split.
  { intros Hne.
    destruct (busiest_month_and_day today commits year exclude_languages Hne)
      as [(m & Em & Hin & En & Hall) _].
    exists m. repeat split; auto. intros m'. exact (proj1 (Hall m')). }
  split.
  { intros Hne.
    destruct (busiest_month_and_day today commits year exclude_languages Hne)
      as [_ (d & Ed & Hin & En & Hall)].
    exists d. repeat split; auto. intros d'. exact (proj1 (Hall d')). }
  split.
  { intros Hvalid Htoday.
    pose proof (analyze_commits_streaks today commits year exclude_languages)
      as Hst. cbv zeta in Hst. fold s in Hst.
    assert (Hv : forall d, In d (distinct (map day_of commits)) ->
                           valid_date d)
      by (intros d Hin; apply Hvalid;
          exact (proj1 (distinct_In _ _) Hin)).
    pose proof (streaks_of_dates today (distinct (map day_of commits)) year
                  (distinct_NoDup _) Hv Htoday) as H.
    cbv zeta in H. rewrite <- Hst in H. cbn [fst snd] in H.
    destruct H as (H1 & H2 & H3 & H4 & H5).
    split.
    { intros Hne. destruct H1 as [Hpos (first_day & Hrun)].
      - intros E. apply Hne. destruct commits as [|c cs]; [reflexivity|].
        exfalso.
        assert (Hin : In (day_of c) (distinct (map day_of (c :: cs))))
          by (apply distinct_In; now left).
        rewrite E in Hin. destruct Hin.
      - split; [exact Hpos|]. exists first_day. intros k Hk.
        apply ordinals_of_distinct. now apply Hrun. }
    split.
    { intros first_day length Hrun. apply (H2 first_day length).
      intros k Hk. apply ordinals_of_distinct. now apply Hrun. }
    split; [exact H3|]. split.
    { intros k Hk. apply ordinals_of_distinct. now apply H4. }
    destruct H5 as [H5|H5]; [now left|right].
    intros Hin. apply H5. now apply ordinals_of_distinct. }
  split; [exact Hk1|]. split; [exact Hk2|]. split; [exact Hk3|].
  split; [intros name; rewrite Hsum; apply Hnames|].
  split.
  { intros r Hr. rewrite Hsum in Hr.
    destruct (Hown r Hr) as (_ & E1 & _ & E2 & E3). auto. }
  split.
  { rewrite Hcount, Hsum, summaries_count, nonempty_labels_distinct.
    reflexivity. }
  intros Hne. destruct commits as [|c cs]; [contradiction|].
  exact (proj1 (achievements_of_snapshot today c cs year exclude_languages)).
Qed.

(** C9: the aggregation does not enforce the year window.  Two calls on
    the same commits with different years give snapshots that differ in
    the [year] field alone, and the streak computation does not read its
    year argument.  Whatever the dates of the commits, every commit of the
    input is counted in every field: in [total_commits], in the line
    totals and the language table, in the heatmap, the hours and the
    weekdays, in the day counts, for the busiest day and month, in the
    streaks, in the keywords, and in the summary of its repository and so
    in [repos_count].  A single commit with the message "beta alpha",
    whatever its date, is one commit with two keywords. *)
Theorem year_only_labels_snapshot today commits y1 y2 exclude_languages :
  let s := analyze_commits today commits y1 exclude_languages in
  s = YearStats.with_year y1
        (analyze_commits today commits y2 exclude_languages)
  /\ YearStats.year s = y1
  /\ (forall dates,
        calculate_streak today dates y1 = calculate_streak today dates y2)
  /\ YearStats.total_commits s = len commits
  /\ counts_every_commit today (excluded exclude_languages) commits s
  /\ (forall c,
         commits = [c] ->
         CommitInfo.message c = u "beta alpha" ->
         YearStats.total_commits s = 1
         /\ YearStats.active_days s = 1
         /\ YearStats.commit_words s = [(u "beta", 1); (u "alpha", 1)]).
Proof.
  cbv zeta.
  destruct (year_labels_only today commits y1 y2 exclude_languages)
    as (H1 & H2 & H3).
  split; [exact H1|]. split; [rewrite H1; reflexivity|].
  split; [exact H2|]. split; [exact H3|].
  split; [apply snapshot_counts_every_commit|].
  intros c -> Hm. split; [rewrite H3; reflexivity|]. split.
  - destruct (analyze_commits_tables today [c] y1 exclude_languages)
      as (_ & _ & _ & Hact & _). cbv zeta in Hact. rewrite Hact. reflexivity.
  - rewrite analyze_commits_words. unfold tokens. cbn [flat_map].
    rewrite Hm. vm_compute. reflexivity.
Qed.

(** C10: a commit with an empty repository label is counted in the global
    statistics and in no summary.  With the commit [c] in the input, the
    snapshot counts every commit, [c] included: the totals, the language
    table, the three calendar tables, the day counts, the busiest day and
    month, the streaks and the keywords are those of all the commits, and
    what [c] adds to them is spelled out.  The summaries are those of the
    other commits, none holds [c] or has an empty name,
    and [repos_count] is the number of distinct non-empty labels, one
    less than the number of distinct labels.  A commit without label
    whose message is "beta alpha", alone in the input, gives two keywords
    and no summary. *)
Theorem unlabelled_commit_counted_not_summarised
    today cs1 c cs2 year exclude_languages :
  CommitInfo.repo_name c = [] ->
  let commits := cs1 ++ c :: cs2 in
  let others := cs1 ++ cs2 in
  let s := analyze_commits today commits year exclude_languages in
  counts_every_commit today (excluded exclude_languages) commits s
  /\ YearStats.total_commits s = len others + 1
  /\ YearStats.total_added_lines s
     = sum_Z (map FileDiff.added_lines (all_files others))
       + sum_Z (map FileDiff.added_lines (CommitInfo.files c))
  /\ YearStats.total_deleted_lines s
     = sum_Z (map FileDiff.deleted_lines (all_files others))
       + sum_Z (map FileDiff.deleted_lines (CommitInfo.files c))
  /\ (forall k,
         od_get k (YearStats.heatmap s) 0
         = occurrences k (map day_of_year others)
           + (if keq k (day_of_year c) then 1 else 0))
  /\ (forall k,
         od_get k (YearStats.commits_by_hour s) 0
         = occurrences k (map hour_of others)
           + (if keq k (hour_of c) then 1 else 0))
  /\ (forall k,
         od_get k (YearStats.commits_by_weekday s) 0
         = occurrences k (map weekday_of others)
           + (if keq k (weekday_of c) then 1 else 0))
  /\ 1 <= YearStats.active_days s
  /\ (is_weekend (day_of c) = true -> 1 <= YearStats.weekend_days s)
  /\ (forall w n,
         In (w, n) (YearStats.commit_words s) ->
         n = occurrences w (tokens others)
             + occurrences w (extract_words (CommitInfo.message c)))
  /\ (forall w,
         In w (extract_words (CommitInfo.message c)) ->
         In (w, occurrences w (tokens commits)) (YearStats.commit_words s)
         \/ (List.length (YearStats.commit_words s) = 20%nat
             /\ forall w' n',
                  In (w', n') (YearStats.commit_words s) ->
                  occurrences w (tokens commits) <= n'))
  /\ (cs1 = [] -> cs2 = [] ->
      CommitInfo.message c = u "beta alpha" ->
      YearStats.commit_words s = [(u "beta", 1); (u "alpha", 1)]
      /\ YearStats.repo_summaries s = []
      /\ YearStats.repos_count s = 0)
  /\ YearStats.repo_summaries s
     = generate_repo_summaries others (excluded exclude_languages)
  /\ (forall r, In r (YearStats.repo_summaries s) -> RepoSummary.name r <> [])
  /\ (forall r,
         In r (YearStats.repo_summaries s) ->
         ~ In c (commits_of (RepoSummary.name r) commits))
  /\ YearStats.repos_count s = len (nonempty_labels others)
  /\ YearStats.repos_count s + 1 = len (distinct_labels commits).
Proof.
  intros Hc. cbv zeta.
  pose proof (snapshot_counts_every_commit today (cs1 ++ c :: cs2) year
                exclude_languages) as Hall.
  pose proof (unlabelled_commit_frame today cs1 c cs2 year exclude_languages
                Hc) as Hfr. cbv zeta in Hfr.
  destruct Hfr as (F1 & F2 & F3 & F4 & F5 & F6 & F7 & F8 & F9 & F10).
  set (s := analyze_commits today (cs1 ++ c :: cs2) year exclude_languages)
    in *.
  assert (Hday : In (day_of c) (distinct (map day_of (cs1 ++ c :: cs2)))).
  { apply distinct_In. apply in_map. apply in_app_iff. right. now left. }
  split; [exact Hall|].
  split; [exact F1|]. split; [exact F2|]. split; [exact F3|].
  split; [exact F4|]. split; [exact F5|].
  split.
  { intros k. unfold s.
    rewrite (proj2 (proj2 (analyze_commits_calendar today (cs1 ++ c :: cs2)
                             year exclude_languages k))).
    rewrite !map_app, !occurrences_app. cbn [map occurrences]. lia. }
  destruct (analyze_commits_tables today (cs1 ++ c :: cs2) year
              exclude_languages) as (_ & _ & _ & Hact & Hwk).
  cbv zeta in Hact, Hwk. fold s in Hact, Hwk.
  split.
  { rewrite Hact. unfold len.
    destruct (distinct (map day_of (cs1 ++ c :: cs2))); [destruct Hday|].
    simpl List.length. lia. }
  split.
  { intros Hw. rewrite Hwk. unfold len.
    assert (Hin : In (day_of c)
                    (distinct (filter is_weekend
                                 (map day_of (cs1 ++ c :: cs2))))).
    { apply distinct_In. apply filter_In. split; [|exact Hw].
      apply in_map. apply in_app_iff. right. now left. }
    destruct (distinct (filter is_weekend (map day_of (cs1 ++ c :: cs2))));
      [destruct Hin|].
    simpl List.length. lia. }
  split; [exact F6|].
  split.
  { intros w Hw.
    destruct (keywords_cover_tokens today (cs1 ++ c :: cs2) year
                exclude_languages) as (_ & _ & Hk). cbv zeta in Hk.
    apply Hk. rewrite tokens_app, tokens_cons.
    apply in_app_iff. right. apply in_app_iff. now left. }
  split.
  { intros -> -> Hm. subst s. cbn [app] in *.
    split; [|split].
    - rewrite analyze_commits_words. unfold tokens. cbn [flat_map].
      rewrite Hm. vm_compute. reflexivity.
    - rewrite F7. reflexivity.
    - rewrite F9. reflexivity. }
  split; [exact F7|]. split; [exact F8|].
  split.
  { intros r Hr Hin. apply filter_In in Hin. destruct Hin as [_ Hk].
    apply keq_spec in Hk. apply (F8 r Hr). now rewrite Hk. }
  split; [exact F9|exact F10].
Qed.

End Coverage.

(* ------------------------------------------------------------------ *)
(** * The further properties on the sample inputs *)

(** A labelled and an unlabelled commit: two commits, one repository, two
    distinct labels. *)
Lemma unlabelled_commit_witness :
  CommitInfo.repo_name unlabelled_commit = []
  /\ YearStats.total_commits
       (analyze_commits (L := ascii_lib) clock_march_1
          [labelled_commit; unlabelled_commit] 2024 None)
     = 2
  /\ YearStats.repos_count
       (analyze_commits (L := ascii_lib) clock_march_1
          [labelled_commit; unlabelled_commit] 2024 None)
     = 1
  /\ len (distinct_labels [labelled_commit; unlabelled_commit]) = 2.
Proof.
  split; [reflexivity|].
  pose proof (unlabelled_commit_counted_not_summarised (L := ascii_lib)
                clock_march_1 [labelled_commit] unlabelled_commit [] 2024 None
                eq_refl) as H.
  cbv zeta in H.
  destruct H as (_ & Hc & _ & _ & _ & _ & _ & _ & _ & _ & _ & _ & _ & _ & _
                 & Hr & Hd).
  cbn [app] in Hc, Hr, Hd.
  split; [exact Hc|]. split; [exact Hr|].
  rewrite <- Hd, Hr. reflexivity.
Defined.

(** X2 on the log of [two_repo_git], filtered by the author's address. *)
Lemma parse_git_log_author_filter_witness :
  In parsed_commit
    (parse_git_log (L := ascii_lib) two_repo_git repo_app 2024
       [u "dev@example.com"])
  /\ In (CommitInfo.email parsed_commit) [u "dev@example.com"].
Proof.
  assert (Hin : In parsed_commit
                  (parse_git_log (L := ascii_lib) two_repo_git repo_app 2024
                     [u "dev@example.com"]))
    by (vm_compute; left; reflexivity).
  split; [exact Hin|].
  apply (parse_git_log_author_filter (L := ascii_lib) two_repo_git repo_app
           2024 [u "dev@example.com"] parsed_commit);
    [discriminate|exact Hin].
Defined.

(** X4 on the second line of [mixed_numstat]. *)
Lemma numstat_line_with_counts_kept_witness :
  parse_git_diff (L := ascii_lib) numstat_git repo_app shared_hash
  = numstat_lines (L := ascii_lib)
      [numstat_line SENTINEL SENTINEL (u "logo.png")]
    ++ FileDiff.mk (u "src/a.py") (get_language (L := ascii_lib) (u "src/a.py"))
         10 2 0
    :: numstat_lines (L := ascii_lib)
         [u "garbage" ++ [TAB] ++ u "line";
          numstat_line (u "x") (u "1") (u "b.py")].
Proof.
  apply (numstat_line_with_counts_kept (L := ascii_lib) numstat_git repo_app
           shared_hash mixed_numstat
           [numstat_line SENTINEL SENTINEL (u "logo.png")]
           (numstat_line (u "10") (u "2") (u "src/a.py"))
           [u "garbage" ++ [TAB] ++ u "line";
            numstat_line (u "x") (u "1") (u "b.py")]
           (u "10") (u "2") (u "src/a.py") [] 10 2).
  - reflexivity.
  - vm_compute. reflexivity.
  - vm_compute. reflexivity.
  - right. split; [intros H; vm_compute in H; discriminate H|reflexivity].
  - right. split; [intros H; vm_compute in H; discriminate H|reflexivity].
Defined.

(** X8 on a working copy whose log cannot be read. *)
Lemma failed_log_skips_repository_witness :
  analyze_repos (L := ascii_lib) one_repo_git [repo_fork; repo_app] 2024 []
  = analyze_repos (L := ascii_lib) one_repo_git [repo_app] 2024 [].
Proof.
  apply (failed_log_skips_repository (L := ascii_lib) one_repo_git
           [] repo_fork [repo_app] 2024 []).
  left. reflexivity.
Defined.

(** X9 on a message with a stop word, capitals and punctuation. *)
Lemma extract_words_tokens_witness :
  extract_words (L := ascii_lib) (u "Fix the Parser!") = [u "parser"]
  /\ 2 < len (u "parser")
  /\ ~ In (u "parser") stop_words.
Proof.
  split; [vm_compute; reflexivity|].
  destruct (extract_words_tokens (L := ascii_lib) (u "Fix the Parser!")
              (u "parser")) as (Hlen & Hstop & _).
  - vm_compute. left. reflexivity.
  - split; [exact Hlen|exact Hstop].
Defined.

(** X12 on the two commits of [scenario_commits], both of March. *)
Lemma most_active_day_and_month_witness :
  exists m,
    YearStats.most_active_month
      (analyze_commits (L := ascii_lib) clock_march_1 scenario_commits 2024
         None)
    = Some m
    /\ In m (map month_of scenario_commits)
    /\ YearStats.most_active_month_commits
         (analyze_commits (L := ascii_lib) clock_march_1 scenario_commits 2024
            None)
       = occurrences m (map month_of scenario_commits).
Proof.
  pose proof (most_active_day_and_month_first_maximal (L := ascii_lib)
                clock_march_1 scenario_commits 2024 None
                ltac:(discriminate)) as H.
  cbv zeta in H. destruct H as [(m & Em & Hin & En & _) _].
  exists m. split; [exact Em|]. split; [exact Hin|exact En].
Defined.

(** X15 on [mixed_commits]: the repository with two commits stands before
    the one with one. *)
Lemma repo_summaries_ranked_by_commits_witness :
  exists r0 r1,
    nth_error
      (generate_repo_summaries (L := ascii_lib) mixed_commits
         DEFAULT_EXCLUDE_LANGUAGES) 0
    = Some r0
    /\ nth_error
         (generate_repo_summaries (L := ascii_lib) mixed_commits
            DEFAULT_EXCLUDE_LANGUAGES) 1
       = Some r1
    /\ RepoSummary.commits r1 <= RepoSummary.commits r0.
Proof.
  destruct (generate_repo_summaries (L := ascii_lib) mixed_commits
              DEFAULT_EXCLUDE_LANGUAGES) as [|r0 [|r1 rest]] eqn:E;
    [vm_compute in E; discriminate E|vm_compute in E; discriminate E|].
  exists r0, r1. split; [reflexivity|]. split; [reflexivity|].
  pose proof (repo_summaries_ranked_by_commits (L := ascii_lib) mixed_commits
                DEFAULT_EXCLUDE_LANGUAGES 0 1 r0 r1 ltac:(lia)) as H.
  cbv zeta in H. rewrite E in H. exact (proj1 (H eq_refl eq_refl)).
Defined.

(** X16 on the summary of [app] in [mixed_commits]. *)
Lemma repo_summary_timeline_witness :
  In app_summary
    (generate_repo_summaries (L := ascii_lib) mixed_commits
       DEFAULT_EXCLUDE_LANGUAGES)
  /\ exists c1,
       In c1 (commits_of (RepoSummary.name app_summary) mixed_commits)
       /\ RepoSummary.first_commit app_summary
          = Some (strftime_ymd (day_of c1)).
Proof.
  assert (Hin : In app_summary
                  (generate_repo_summaries (L := ascii_lib) mixed_commits
                     DEFAULT_EXCLUDE_LANGUAGES))
    by (vm_compute; left; reflexivity).
  split; [exact Hin|].
  pose proof (repo_summary_timeline (L := ascii_lib) mixed_commits
                DEFAULT_EXCLUDE_LANGUAGES app_summary Hin) as H.
  cbv zeta in H. destruct H as [(c1 & H1 & H2 & _) _].
  exists c1. split; [exact H1|exact H2].
Defined.

(** The January dates are four distinct dates of the calendar. *)
Lemma january_dates_are_dates :
  NoDup january_dates /\ forall d, In d january_dates -> valid_date d.
Proof.
  split.
  - unfold january_dates.
    repeat (constructor;
            [cbn [In]; intros H;
             repeat (destruct H as [H|H]; [discriminate H|]); exact H|]).
    constructor.
  - intros d Hd. apply valid_dateb_spec. unfold january_dates in Hd.
    cbn [In] in Hd. repeat (destruct Hd as [<-|Hd]; [reflexivity|]).
    destruct Hd.
Qed.

(** X17 on the January dates, handed out in the opposite order. *)
Lemma calculate_streak_ignores_set_order_witness :
  calculate_streak clock_january_3 january_dates 2024
  = calculate_streak clock_january_3 (rev january_dates) 2024.
Proof.
  apply calculate_streak_ignores_set_order. apply Permutation_rev.
Defined.

(** X18 on the January dates. *)
Lemma max_streak_is_longest_run_witness :
  1 <= fst (calculate_streak clock_january_3 january_dates 2024)
    <= len january_dates.
Proof.
  destruct january_dates_are_dates as [Hnd Hvalid].
  pose proof (max_streak_is_longest_run clock_january_3 january_dates 2024
                Hnd Hvalid) as H.
  cbv zeta in H. destruct H as [_ H].
  exact (proj1 (H ltac:(discriminate))).
Defined.

(** X19 on the January dates, read on 2024-01-03. *)
Lemma current_streak_is_run_ending_today_witness :
  0 <= snd (calculate_streak clock_january_3 january_dates 2024)
    <= fst (calculate_streak clock_january_3 january_dates 2024).
Proof.
  destruct january_dates_are_dates as [Hnd Hvalid].
  assert (Htoday : valid_date clock_january_3)
    by (apply valid_dateb_spec; reflexivity).
  pose proof (current_streak_is_run_ending_today clock_january_3
                january_dates 2024 Hnd Hvalid Htoday) as H.
  cbv zeta in H. exact (proj1 H).
Defined.


(** X21 on the hours 3 and 4, both before dawn. *)
Lemma hour_badge_follows_time_period_witness :
  hour_badge (stats_at_hour 3) = hour_badge (stats_at_hour 4)
  <-> get_time_period_name 3 = get_time_period_name 4.
Proof.
  apply (hour_badge_follows_time_period (stats_at_hour 3) (stats_at_hour 4)
           3 1 4 1); reflexivity.
Defined.
